(** * spidey: a shallow embedding of the HTTP server's request lifecycle

    The functions of request.c, handler.c, forking.c and spidey.c are
    embedded one by one.  Character buffers are lists of bytes with their
    terminating NUL written out, [char *] values are offsets into such a
    buffer, the header list is a chain of cells in a small store, the
    process environment is a finite map, and every call into libc or the
    kernel whose result the program branches on ([fgets], [accept],
    [getnameinfo], [fdopen], [lstat], [access], [scandir], [fork],
    [fflush], ...) takes its result from an explicit description of the
    outside world. *)

From Stdlib Require Import ZArith Ascii String.
From stdpp Require Import base option list strings sorting gmap.

Local Open Scope Z_scope.
Local Open Scope nat_scope.

(* ===================================================================== *)
(** ** C strings *)
(* ===================================================================== *)

Module CString.

Definition NUL : ascii := "000"%char.

Definition is_nul (c : ascii) : bool := Ascii.eqb c NUL.

(** [*p]: the byte at offset [p].  Every buffer ends with its NUL; a read
    behind the modelled bytes sees NUL as well. *)
Definition deref (b : list ascii) (p : nat) : ascii := default NUL (b !! p).

(** The bytes of a NUL-terminated string, without the terminator. *)
Fixpoint cstr (l : list ascii) : list ascii :=
  match l with
  | [] => []
  | c :: l' => if is_nul c then [] else c :: cstr l'
  end.

(** The C string that starts at offset [p] of buffer [b]. *)
Definition string_at (b : list ascii) (p : nat) : list ascii := cstr (drop p b).

Definition strlen (b : list ascii) (p : nat) : nat := length (string_at b p).

(** [strdup] copies the string at [p] out of the buffer. *)
Definition strdup (b : list ascii) (p : nat) : string :=
  string_of_list_ascii (string_at b p).

(** Modelled from the spec: the [streq] macro of spidey.h, which is not
    among the sources, is string equality, [strcmp(a, b) == 0]. *)
Definition streq (b : list ascii) (p : nat) (lit : string) : bool :=
  bool_decide (string_at b p = list_ascii_of_string lit).

(** First occurrence of [c] in a NUL-terminated list, as a distance. *)
Fixpoint find_char (c : ascii) (l : list ascii) : option nat :=
  match l with
  | [] => None
  | x :: l' =>
      if Ascii.eqb x c then Some 0
      else if is_nul x then None
      else S <$> find_char c l'
  end.

Definition strchr (b : list ascii) (p : nat) (c : ascii) : option nat :=
  (λ i, p + i) <$> find_char c (drop p b).

Definition mem (c : ascii) (set : list ascii) : bool :=
  existsb (Ascii.eqb c) set.

(** [strspn]: length of the initial run of bytes that are in [accept]. *)
Fixpoint span (accept : list ascii) (l : list ascii) : nat :=
  match l with
  | [] => 0
  | c :: l' => if negb (is_nul c) && mem c accept then S (span accept l') else 0
  end.

(** [strcspn]: length of the initial run of bytes that are not in [reject]. *)
Fixpoint cspan (reject : list ascii) (l : list ascii) : nat :=
  match l with
  | [] => 0
  | c :: l' => if is_nul c || mem c reject then 0 else S (cspan reject l')
  end.

Definition strspn (b : list ascii) (p : nat) (accept : list ascii) : nat :=
  span accept (drop p b).
Definition strcspn (b : list ascii) (p : nat) (reject : list ascii) : nat :=
  cspan reject (drop p b).

(** [strtok], with its hidden static pointer passed explicitly: [s] is the
    scan position (the buffer start on the first call, the saved pointer
    on a call with NULL).  Returns the token (NULL as [None]), the buffer
    with the delimiter that ended the token overwritten by NUL, and the
    new saved pointer. *)
Definition strtok (b : list ascii) (s : nat) (delim : list ascii)
  : option nat * list ascii * nat :=
  if is_nul (deref b s) then (None, b, s)
  else
    let s := s + strspn b s delim in
    if is_nul (deref b s) then (None, b, s)
    else
      let e := s + strcspn b s delim in
      if is_nul (deref b e) then (Some s, b, e)
      else (Some s, <[e := NUL]> b, e + 1).

(** [isspace] in the "C" locale (the program never calls [setlocale]). *)
Definition isspace (c : ascii) : bool :=
  let n := nat_of_ascii c in
  (n =? 32) || ((9 <=? n) && (n <=? 13)).

End CString.

Import CString.

Definition bytes (s : string) : list ascii := list_ascii_of_string s.


(* ===================================================================== *)
(** ** Data model (spidey.h) *)
(* ===================================================================== *)

(** Modelled from the spec: spidey.h is not among the sources.  The status
    enumeration has the four values the sources use; [HTTP_STATUS_OK] is
    the zero value that [result != 0] and [exit(status != 0)] test for. *)
Inductive HTTPStatus : Set :=
  | HTTP_STATUS_OK
  | HTTP_STATUS_BAD_REQUEST
  | HTTP_STATUS_NOT_FOUND
  | HTTP_STATUS_INTERNAL_SERVER_ERROR.

Definition status_is_zero (s : HTTPStatus) : bool :=
  match s with HTTP_STATUS_OK => true | _ => false end.

(** Modelled from the spec: [struct header] of spidey.h, which is not
    among the sources, is a name, a value and the link to the next cell
    of the chain.  [h_next] is the address of the next cell (NULL as
    [None]); addresses are indices into the request's cell store.
    [h_value] keeps its NULL case because handle_cgi_request tests it. *)
Record Header : Set := mkHeader {
  h_name  : string;
  h_value : option string;
  h_next  : option nat
}.

(** The client socket stream, opened by [fdopen(client_fd, "w+")].
    [pending] is the input that has reached the stream and has not been
    read, as the pieces the successive [fgets] calls deliver (each without
    the NUL that [fgets] appends; see [fgets_pieces]); when it is used up
    [fgets] returns NULL.  [written] is everything the program has written
    to the stream; it goes out to the client when the stream is flushed.
    [flush_fails] tells whether the descriptor refuses the write (a
    client that has gone away, say). *)
Record FILE : Set := mkFILE {
  pending     : list (list ascii);
  written     : string;
  flush_fails : bool
}.

(** Modelled from the spec: [struct request] of spidey.h, which is not
    among the sources, with the members the sources use.  [r_host] and
    [r_port] are character arrays inside the structure ([getnameinfo]
    gets them as its buffers); the four [char *] members are NULL until
    set.  [r_cells] is the memory of the header cells allocated for this
    request and [r_headers] the head pointer into it. *)
Record Request : Set := mkRequest {
  r_fd      : Z;
  r_file    : FILE;
  r_method  : option string;
  r_uri     : option string;
  r_path    : option string;
  r_query   : option string;
  r_host    : string;
  r_port    : string;
  r_headers : option nat;
  r_cells   : list Header
}.

Definition set_file (f : FILE) (r : Request) : Request :=
  mkRequest (r_fd r) f (r_method r) (r_uri r) (r_path r) (r_query r)
            (r_host r) (r_port r) (r_headers r) (r_cells r).
Definition set_method (m : option string) (r : Request) : Request :=
  mkRequest (r_fd r) (r_file r) m (r_uri r) (r_path r) (r_query r)
            (r_host r) (r_port r) (r_headers r) (r_cells r).
Definition set_uri (u : option string) (r : Request) : Request :=
  mkRequest (r_fd r) (r_file r) (r_method r) u (r_path r) (r_query r)
            (r_host r) (r_port r) (r_headers r) (r_cells r).
Definition set_path (p : option string) (r : Request) : Request :=
  mkRequest (r_fd r) (r_file r) (r_method r) (r_uri r) p (r_query r)
            (r_host r) (r_port r) (r_headers r) (r_cells r).
Definition set_query (q : option string) (r : Request) : Request :=
  mkRequest (r_fd r) (r_file r) (r_method r) (r_uri r) (r_path r) q
            (r_host r) (r_port r) (r_headers r) (r_cells r).
Definition set_headers (h : option nat) (cells : list Header) (r : Request) : Request :=
  mkRequest (r_fd r) (r_file r) (r_method r) (r_uri r) (r_path r) (r_query r)
            (r_host r) (r_port r) h cells.

(** What one call [fgets(buffer, n + 1, stream)] takes from the input: at
    most [n] bytes, and none behind the first newline. *)
Fixpoint fgets_piece (n : nat) (input : list ascii) : list ascii :=
  match n, input with
  | S n', c :: input' =>
      if Ascii.eqb c "010" then [c] else c :: fgets_piece n' input'
  | _, _ => []
  end.

Fixpoint fgets_loop (fuel n : nat) (input : list ascii) : list (list ascii) :=
  match fuel, input with
  | S fuel', _ :: _ =>
      let piece := fgets_piece n input in
      piece :: fgets_loop fuel' n (drop (length piece) input)
  | _, _ => []
  end.

(** The pieces in which successive calls [fgets(buffer, BUFSIZ, stream)]
    deliver the bytes [input]: every call takes at least one byte (BUFSIZ
    is at least 256), so there are no more calls than bytes. *)
Definition fgets_pieces (BUFSIZ : nat) (input : list ascii) : list (list ascii) :=
  fgets_loop (length input) (BUFSIZ - 1) input.

(** [fgets(buffer, BUFSIZ, r->file)]: the next buffer content, NUL
    terminated, or NULL at the end of the stream. *)
Definition fgets (f : FILE) : option (list ascii * FILE) :=
  match pending f with
  | [] => None
  | line :: rest => Some (line ++ [NUL], mkFILE rest (written f) (flush_fails f))
  end.

(** [fprintf]/[fputs]/[fwrite] on the stream: the formatted text is appended. *)
Definition fputs (s : string) (f : FILE) : FILE :=
  mkFILE (pending f) (written f +:+ s) (flush_fails f).

Definition fprintf (r : Request) (s : string) : Request :=
  set_file (fputs s (r_file r)) r.

(** [fflush(r->file) != 0].  The stream serves both directions on a
    socket.  When output follows input of which a part is still unread in
    the stream's buffer, the C library has to move the descriptor back
    over that part before it writes, which a socket refuses: nothing goes
    out and [fflush] reports the error.  Otherwise the flush fails when
    the descriptor refuses the write. *)
Definition fflush_failed (r : Request) : bool :=
  flush_fails (r_file r) || bool_decide (pending (r_file r) ≠ []).

(** The header chain read from the head pointer: what a loop
    [for (h = r->headers; h != NULL; h = h->next)] visits.  A chain never
    has more cells than the store holds, so [length cells] steps reach its
    end. *)
Fixpoint chain (fuel : nat) (cells : list Header) (p : option nat) : list Header :=
  match fuel, p with
  | S fuel', Some a =>
      match cells !! a with
      | Some c => c :: chain fuel' cells (h_next c)
      | None => []
      end
  | _, _ => []
  end.

Definition header_list (r : Request) : list Header :=
  chain (length (r_cells r)) (r_cells r) (r_headers r).

(** Name and value of each header of the chain, in chain order. *)
Definition header_pairs (r : Request) : list (string * option string) :=
  map (λ h, (h_name h, h_value h)) (header_list r).

(* ===================================================================== *)
(** ** utils.c *)
(* ===================================================================== *)

(** Modelled from the spec: utils.c is not among the sources.  The two
    scanning helpers that parse_request_headers calls are taken by their
    names and by the spec's "leading whitespace ... trimmed":
    [skip_nonwhitespace] advances to the first whitespace byte (or the
    terminator), [skip_whitespace] to the first byte that is not
    whitespace. *)
Fixpoint run_nonspace (l : list ascii) : nat :=
  match l with
  | [] => 0
  | c :: l' => if is_nul c || isspace c then 0 else S (run_nonspace l')
  end.

Fixpoint run_space (l : list ascii) : nat :=
  match l with
  | [] => 0
  | c :: l' => if negb (is_nul c) && isspace c then S (run_space l') else 0
  end.

Definition skip_nonwhitespace (b : list ascii) (s : nat) : nat :=
  s + run_nonspace (drop s b).

Definition skip_whitespace (b : list ascii) (s : nat) : nat :=
  s + run_space (drop s b).

(* ===================================================================== *)
(** ** request.c: the parser *)
(* ===================================================================== *)

Section Parser.

(** The delimiter set of the [WHITESPACE] macro (spidey.h, not among the
    sources): the parser is stated for any such set. *)
Variable WHITESPACE : list ascii.

(** parse_request_method.  Returns the C return value and the request. *)
Definition parse_request_method (r : Request) : Z * Request :=
  match fgets (r_file r) with
  | None => (-1, r)%Z
  | Some (buffer, f) =>
      let r := set_file f r in
      match strtok buffer 0 WHITESPACE with
      | (None, _, _) => (-1, r)%Z
      | (Some method, buffer, save) =>
          match strtok buffer save WHITESPACE with
          | (None, _, _) => (-1, r)%Z
          | (Some uri, buffer, _) =>
              let '(query, buffer) :=
                match strchr buffer uri "?"%char with
                | Some temp =>
                    let temp := temp + 1 in
                    (Some temp,
                     <[uri + strlen buffer uri - strlen buffer temp - 1 := NUL]> buffer)
                | None => (None, buffer)
                end in
              let r := set_method (Some (strdup buffer method)) r in
              let r := set_uri (Some (strdup buffer uri)) r in
              let r := match query with
                       | Some q => set_query (Some (strdup buffer q)) r
                       | None => r
                       end in
              (0, r)%Z
          end
      end
  end.

(** The loop [while (value < back && isspace( *back)) back--].  [back] can
    be one below [value] (an empty value), so it is an integer offset.
    The loop runs at most [back - value] times. *)
Fixpoint trim_back (fuel : nat) (buffer : list ascii) (value : nat) (back : Z) : Z :=
  match fuel with
  | O => back
  | S fuel' =>
      if (Z.of_nat value <? back)%Z && isspace (deref buffer (Z.to_nat back))
      then trim_back fuel' buffer value (back - 1)%Z
      else back
  end.

(** What one pass of the body of the header loop makes of a filled
    buffer: no colon (the [goto fail]), undefined behaviour, or the name
    and the value for the new cell. *)
Inductive split_result : Set :=
  | NoColon
  | Undefined
  | Split (name : string) (value : string).

(** The body of the header loop up to the two [strdup]s.  The write
    through [name + strlen(name) - strlen(value) - 2] lands below the
    buffer when that offset is negative; the behaviour of the C program
    is then undefined. *)
Definition split_header (buffer : list ascii) : split_result :=
  let name := 0 in
  match strchr buffer name ":"%char with
  | None => NoColon
  | Some split =>
      let split := skip_nonwhitespace buffer split in
      let value := skip_whitespace buffer split in
      let back := (Z.of_nat value + Z.of_nat (strlen buffer value) - 1)%Z in
      let back := trim_back (length buffer) buffer value back in
      let buffer := <[Z.to_nat (back + 1) := NUL]> buffer in
      let v := strdup buffer value in
      let cut := (Z.of_nat name + Z.of_nat (strlen buffer name)
                  - Z.of_nat (strlen buffer value) - 2)%Z in
      if (cut <? 0)%Z then Undefined
      else
        let buffer := <[Z.to_nat cut := NUL]> buffer in
        Split (strdup buffer name) v
  end.

(** Linking the freshly allocated cell [temp] into the request:
    [if (r->headers == NULL) r->headers = temp;
     else if (r->headers->next == NULL) { curr = temp; r->headers->next = curr; }
     else { curr->next = temp; }].
    [cells] already holds the new cell at address [temp]; the result is
    the store, the head pointer and the local [curr].  Dereferencing a
    NULL pointer, or one that is not the address of a cell, is [None]. *)
Definition set_next (a : nat) (n : option nat) (cells : list Header)
  : option (list Header) :=
  c ← cells !! a; Some (<[a := mkHeader (h_name c) (h_value c) n]> cells).

Definition link_header (cells : list Header) (headers curr : option nat) (temp : nat)
  : option (list Header * option nat * option nat) :=
  match headers with
  | None => Some (cells, Some temp, curr)
  | Some head =>
      match h_next <$> cells !! head with
      | None => None
      | Some None =>
          let curr := Some temp in
          cells ← set_next head curr cells; Some (cells, headers, curr)
      | Some (Some _) =>
          c ← curr; cells ← set_next c (Some temp) cells; Some (cells, headers, curr)
      end
  end.

(** The [while (fgets(...))] loop of parse_request_headers over what the
    stream still delivers.  Returns the C return value, the rest of the
    stream, the cell store and the head pointer; [None] is undefined
    behaviour. *)
Fixpoint headers_loop (lines : list (list ascii)) (cells : list Header)
    (headers curr : option nat)
  : option (Z * list (list ascii) * list Header * option nat) :=
  match lines with
  | [] => Some (0%Z, [], cells, headers)
  | line :: rest =>
      let buffer := line ++ [NUL] in
      if streq buffer 0 (String "010" EmptyString)
         || streq buffer 0 (String "013" (String "010" EmptyString))
      then Some (0%Z, rest, cells, headers)
      else
        match split_header buffer with
        | NoColon => Some ((-1)%Z, rest, cells, headers)
        | Undefined => None
        | Split name value =>
            let temp := length cells in
            let cells := cells ++ [mkHeader name (Some value) None] in
            match link_header cells headers curr temp with
            | None => None
            | Some (cells, headers, curr) => headers_loop rest cells headers curr
            end
        end
  end.

Definition parse_request_headers (r : Request) : option (Z * Request) :=
  match headers_loop (pending (r_file r)) (r_cells r) (r_headers r) None with
  | None => None
  | Some (ret, rest, cells, headers) =>
      Some (ret,
            set_headers headers cells
              (set_file (mkFILE rest (written (r_file r)) (flush_fails (r_file r))) r))
  end.

(** parse_request: -1 when the request line fails, -2 when the headers
    fail, 0 otherwise. *)
Definition parse_request (r : Request) : option (Z * Request) :=
  let '(m, r) := parse_request_method r in
  if negb (m =? 0)%Z then Some ((-1)%Z, r)
  else
    match parse_request_headers r with
    | None => None
    | Some (h, r) => if negb (h =? 0)%Z then Some ((-2)%Z, r) else Some (0%Z, r)
    end.

End Parser.

(* ===================================================================== *)
(** ** handler.c *)
(* ===================================================================== *)

Definition CRLF : string := String "013" (String "010" EmptyString).
Definition DQ : string := String "034" EmptyString.

(** The process-wide configuration variables of spidey.c. *)
Record Globals : Set := mkGlobals {
  Port            : string;
  MimeTypesPath   : string;
  DefaultMimeType : string;
  RootPath        : string
}.

(** What lies outside the sources and is consulted while one request is
    handled.  The first three are the collaborators of utils.c, which is
    not among the sources; the spec treats path resolution, mimetype
    lookup and status formatting as external interfaces, and they are
    parameters here.  The others are the results of system and libc
    calls: [lstat] gives [st_mode] on success,
    [stack_st_mode] is what the unfilled [struct stat] holds when [lstat]
    fails (its return value is not tested), [readdir] gives the names in a
    directory as the system delivers them, [fopen_r] a file's contents
    (NULL as [None]), [popen_r] the bytes that the command started by
    [popen] prints under a given environment ([None] when [popen] itself
    fails: no pipe or no process; a command that the shell cannot run
    prints nothing).  [BUFSIZ] is the constant of <stdio.h>, at least
    256. *)
Record World : Type := mkWorld {
  determine_request_path : string → option string;
  determine_mimetype     : string → string;
  http_status_string     : HTTPStatus → string;
  lstat                  : string → option Z;
  stack_st_mode          : Z;
  access_X_OK            : string → bool;
  readdir                : string → option (list string);
  basename               : string → string;
  fopen_r                : string → option string;
  popen_r                : string → gmap string string → option string;
  BUFSIZ                 : nat
}.

(** <sys/stat.h> *)
Definition S_IFMT  : Z := 61440.   (* 0170000 *)
Definition S_IFDIR : Z := 16384.   (* 0040000 *)
Definition S_IFREG : Z := 32768.   (* 0100000 *)

(** [alphasort] compares names with [strcoll], which in the "C" locale is
    the byte-wise order of [strcmp]; [scandir] returns the directory's
    names sorted by it. *)
Abbreviation alphasort := String.le.

Definition scandir (w : World) (path : string) : option (list string) :=
  merge_sort alphasort <$> readdir w path.

(** handle_error *)
Definition handle_error (w : World) (r : Request) (status : HTTPStatus)
  : HTTPStatus * Request :=
  let status_string := http_status_string w status in
  let r := fprintf r ("HTTP/1.0 " +:+ status_string +:+ CRLF) in
  let r := fprintf r ("Content-Type: " +:+ "text/html" +:+ CRLF) in
  let r := fprintf r CRLF in
  let r := fprintf r ("<h1>" +:+ status_string +:+ "</h1>" +:+ CRLF) in
  if fflush_failed r then (HTTP_STATUS_INTERNAL_SERVER_ERROR, r)
  else (status, r).

(** The list item written for one directory entry: nothing for [.], a
    link below the directory's base name unless the request URI is [/]. *)
Definition browse_item (w : World) (uri path d_name : string) : string :=
  if String.eqb d_name "." then EmptyString
  else if negb (String.eqb uri "/") then
    let base := basename w path in
    "<li><a href=" +:+ DQ +:+ "/" +:+ base +:+ "/" +:+ d_name +:+ DQ +:+ ">"
      +:+ d_name +:+ "</a></li>" +:+ CRLF
  else
    "<li><a href=" +:+ DQ +:+ "/" +:+ d_name +:+ DQ +:+ ">"
      +:+ d_name +:+ "</a></li>" +:+ CRLF.

(** handle_browse_request.  [None] stands for a NULL [r->path] or
    [r->uri] reaching [scandir] or [streq]. *)
Definition handle_browse_request (w : World) (r : Request)
  : option (HTTPStatus * Request) :=
  path ← r_path r;
  uri ← r_uri r;
  match scandir w path with
  | None => Some (HTTP_STATUS_NOT_FOUND, r)
  | Some entries =>
      let r := fprintf r ("HTTP/1.0 200 OK" +:+ CRLF) in
      let r := fprintf r ("Content-Type: text/html" +:+ CRLF) in
      let r := fprintf r CRLF in
      let r := fprintf r ("<ul>" +:+ CRLF) in
      let r := foldl (λ r d_name, fprintf r (browse_item w uri path d_name)) r entries in
      let r := fprintf r ("</ul>" +:+ CRLF) in
      if fflush_failed r then Some (HTTP_STATUS_NOT_FOUND, r)
      else Some (HTTP_STATUS_OK, r)
  end.

(* ===================================================================== *)
(** ** handler.c: the copy loop of handle_file_request *)
(* ===================================================================== *)

(** [fread(buffer, sizeof(char), BUFSIZ, fs)] on a file with the bytes
    [fs] left: the bytes read (at most BUFSIZ) and what is left then. *)
Definition fread (BUFSIZ : nat) (fs : list ascii) : list ascii * list ascii :=
  (take BUFSIZ fs, drop BUFSIZ fs).

(** [fwrite(buffer, sizeof(char), nread, r->file)] *)
Definition fwrite (buffer : list ascii) (r : Request) : Request :=
  fprintf r (string_of_list_ascii buffer).

(** [while ((nread = fread(...))) fwrite(...)], run for at most [fuel]
    passes; [None] when the loop is still running after them. *)
Fixpoint copy_file (fuel : nat) (BUFSIZ : nat) (fs : list ascii) (r : Request)
  : option Request :=
  match fuel with
  | O => None
  | S fuel' =>
      let '(buffer, fs) := fread BUFSIZ fs in
      let nread := length buffer in
      if nread =? 0 then Some r
      else copy_file fuel' BUFSIZ fs (fwrite buffer r)
  end.

(** handle_file_request.  The loop gets one pass for every byte of the
    file and one more, which is as many as it can need.  After the loop
    the file is closed; when the flush then fails, the code goes to
    [fail], where [fs] is not NULL and is closed a second time: the
    behaviour is undefined ([None]). *)
Definition handle_file_request (w : World) (r : Request)
  : option (HTTPStatus * Request) :=
  path ← r_path r;
  match fopen_r w path with
  | None => Some (HTTP_STATUS_INTERNAL_SERVER_ERROR, r)
  | Some contents =>
      let mimetype := determine_mimetype w path in
      let r := fprintf r ("HTTP/1.0 200 OK" +:+ CRLF) in
      let r := fprintf r ("Content-Type: " +:+ mimetype +:+ CRLF) in
      let r := fprintf r CRLF in
      r ← copy_file (S (length (bytes contents))) (BUFSIZ w) (bytes contents) r;
      if fflush_failed r then None
      else Some (HTTP_STATUS_OK, r)
  end.

(** [setenv(name, value, 1)]: the variable is set, replacing an earlier
    value.  A NULL [value] is outside what [setenv] accepts. *)
Definition setenv (name : string) (value : option string) (env : gmap string string)
  : option (gmap string string) :=
  v ← value; Some (<[name := v]> env).

(** The body of the loop over the request headers in handle_cgi_request. *)
Definition export_header (temp : Header) (env : gmap string string)
  : option (gmap string string) :=
  if String.eqb (h_name temp) "Host" then
    match h_value temp with
    | Some v => setenv "HTTP_HOST" (Some v) env
    | None => setenv "HTTP_HOST" (Some EmptyString) env
    end
  else if String.eqb (h_name temp) "Accept" then
    setenv "HTTP_ACCEPT" (h_value temp) env
  else if String.eqb (h_name temp) "Accept-Language" then
    setenv "HTTP_ACCEPT_LANGUAGE" (h_value temp) env
  else if String.eqb (h_name temp) "Accept-Encoding" then
    setenv "HTTP_ACCEPT_ENCODING" (h_value temp) env
  else if String.eqb (h_name temp) "Connection" then
    setenv "HTTP_CONNECTION" (h_value temp) env
  else if String.eqb (h_name temp) "User-Agent" then
    setenv "HTTP_USER_AGENT" (h_value temp) env
  else Some env.

Fixpoint export_headers (hs : list Header) (env : gmap string string)
  : option (gmap string string) :=
  match hs with
  | [] => Some env
  | temp :: hs' => env ← export_header temp env; export_headers hs' env
  end.

(** The environment handle_cgi_request has built when it reaches [popen]. *)
Definition cgi_environment (g : Globals) (r : Request) (env : gmap string string)
  : option (gmap string string) :=
  env ← setenv "DOCUMENT_ROOT" (Some (RootPath g)) env;
  env ← match r_query r with
        | Some q => setenv "QUERY_STRING" (Some q) env
        | None => setenv "QUERY_STRING" (Some EmptyString) env
        end;
  (* r->host and r->port are arrays: the NULL tests on them always hold *)
  env ← setenv "REMOTE_ADDR" (Some (r_host r)) env;
  env ← setenv "REMOTE_PORT" (Some (r_port r)) env;
  env ← setenv "REQUEST_METHOD" (r_method r) env;
  env ← setenv "REQUEST_URI" (r_uri r) env;
  env ← setenv "SCRIPT_FILENAME" (r_path r) env;
  env ← setenv "SERVER_PORT" (Some (Port g)) env;
  export_headers (header_list r) env.

(** One pass of [while (fgets(buffer, BUFSIZ, pfs)) fputs(buffer, r->file)]:
    [fputs] writes the buffer as a string, up to its first NUL. *)
Definition copy_piece (r : Request) (piece : list ascii) : Request :=
  let buffer := piece ++ [NUL] in
  fprintf r (string_of_list_ascii (string_at buffer 0)).

(** handle_cgi_request, with the process environment passed through. *)
Definition handle_cgi_request (w : World) (g : Globals) (r : Request)
    (env : gmap string string)
  : option (HTTPStatus * Request * gmap string string) :=
  env ← cgi_environment g r env;
  path ← r_path r;
  match popen_r w path env with
  | None => Some (HTTP_STATUS_INTERNAL_SERVER_ERROR, r, env)
  | Some output =>
      let r := foldl copy_piece r (fgets_pieces (BUFSIZ w) (bytes output)) in
      if fflush_failed r then Some (HTTP_STATUS_INTERNAL_SERVER_ERROR, r, env)
      else Some (HTTP_STATUS_OK, r, env)
  end.

(** The tail of handle_request after a handler returned:
    [if (result != 0) result = handle_error(r, result)]. *)
Definition finish (w : World) (res : HTTPStatus * Request) : HTTPStatus * Request :=
  let '(result, r) := res in
  if status_is_zero result then (result, r) else handle_error w r result.

(** The dispatch on the type of the file at [r->path]. *)
Definition dispatch (w : World) (g : Globals) (r : Request) (env : gmap string string)
  : option (HTTPStatus * Request * gmap string string) :=
  path ← r_path r;
  let st_mode := default (stack_st_mode w) (lstat w path) in
  if (Z.land st_mode S_IFMT =? S_IFDIR)%Z then
    res ← handle_browse_request w r; Some (finish w res, env)
  else if (Z.land st_mode S_IFMT =? S_IFREG)%Z then
    if access_X_OK w path then
      '(res, env) ← handle_cgi_request w g r env; Some (finish w res, env)
    else
      res ← handle_file_request w r; Some (finish w res, env)
  else
    Some (finish w (HTTP_STATUS_BAD_REQUEST, r), env).

(** handle_request *)
Definition handle_request (WHITESPACE : list ascii) (w : World) (g : Globals)
    (r : Request) (env : gmap string string)
  : option (HTTPStatus * Request * gmap string string) :=
  '(i, r) ← parse_request WHITESPACE r;
  if (i =? -1)%Z then Some (handle_error w r HTTP_STATUS_BAD_REQUEST, env)
  else if (i =? -2)%Z then Some (handle_error w r HTTP_STATUS_BAD_REQUEST, env)
  else
    uri ← r_uri r;
    let r := set_path (determine_request_path w uri) r in
    match r_path r with
    | None => Some (handle_error w r HTTP_STATUS_NOT_FOUND, env)
    | Some _ => dispatch w g r env
    end.

(* ===================================================================== *)
(** ** request.c: accepting a connection *)
(* ===================================================================== *)

(** What the system answers while one connection is accepted:
    [accept_ret] is what [accept] returns on a listening socket that is
    still open (a negative value on failure), [getnameinfo_ret] the error
    code of [getnameinfo] (0 on success), [fdopen_ret] the stream that
    [fdopen] opens (NULL as [None]). *)
Record Connection : Set := mkConnection {
  accept_ret      : Z;
  getnameinfo_ret : Z;
  fdopen_ret      : option FILE
}.

(** [accept(sfd, ...)]: on a descriptor that has been closed it fails. *)
Definition accept (sfd_open : bool) (c : Connection) : Z :=
  if sfd_open then accept_ret c else (-1)%Z.

(** accept_request.  The second component is what it prints to stderr.
    [getnameinfo] is called with [hostlen = 0] and [servlen = 0], so it
    stores nothing: [host] and [port] stay as [calloc] left them. *)
Definition accept_request (sfd_open : bool) (c : Connection)
  : option Request * list string :=
  let client_fd := accept sfd_open c in
  if (client_fd <? 0)%Z then (None, ["accept failed"])
  else if negb (getnameinfo_ret c =? 0)%Z then (None, ["getnameinfo failed"])
  else
    match fdopen_ret c with
    | None => (None, ["fdopen failed"])
    | Some file =>
        (Some (mkRequest 0 file None None None None EmptyString EmptyString None []),
         ["Accepted request"])
    end.

(* ===================================================================== *)
(** ** forking.c *)
(* ===================================================================== *)

(** The parent process of the forking server: whether the listening
    socket [sfd] is still open, the requests handed to a child so far, and
    the lines printed to stderr. *)
Record Server : Set := mkServer {
  sfd_open : bool;
  children : list Request;
  stderr   : list string
}.

(** One turn of the accept loop meets one [Connection] and one result of
    [fork] (negative: failure; otherwise the child's pid, as the parent
    sees it). *)
Record Arrival : Set := mkArrival {
  conn     : Connection;
  fork_ret : Z
}.

(** The body of [while (true)] in forking_server, as the parent runs it.
    The child ([pid == 0]) runs handle_request on its copy of the request
    and exits; the parent frees its copy. *)
Definition forking_iteration (s : Server) (a : Arrival) : Server :=
  match accept_request (sfd_open s) (conn a) with
  | (None, err) => mkServer (sfd_open s) (children s) (stderr s ++ err)
  | (Some client_request, err) =>
      if (fork_ret a <? 0)%Z then
        (* debug("fork failed ..."); close(sfd); continue; *)
        mkServer false (children s) (stderr s ++ err ++ ["fork failed"])
      else
        mkServer (sfd_open s) (children s ++ [client_request]) (stderr s ++ err)
  end.

(** The accept loop over the first arrivals. *)
Definition forking_server (arrivals : list Arrival) : Server :=
  foldl forking_iteration (mkServer true [] []) arrivals.

(** What the child does with its request: [exit(status != 0)]. *)
Definition child_exit_status (WHITESPACE : list ascii) (w : World) (g : Globals)
    (client_request : Request) (env : gmap string string) : option Z :=
  '(status, _, _) ← handle_request WHITESPACE w g client_request env;
  Some (if status_is_zero status then 0%Z else 1%Z).

(* ===================================================================== *)
(** ** spidey.c *)
(* ===================================================================== *)

(** Modelled from the spec: the [ServerMode] enumeration of spidey.h,
    which is not among the sources, has the two modes the sources name. *)
Inductive ServerMode : Set := SINGLE | FORKING.

Definition initial_globals : Globals :=
  mkGlobals "9898" "/etc/mime.types" "text/plain" "www".

Definition set_MimeTypesPath (v : string) (g : Globals) : Globals :=
  mkGlobals (Port g) v (DefaultMimeType g) (RootPath g).
Definition set_DefaultMimeType (v : string) (g : Globals) : Globals :=
  mkGlobals (Port g) (MimeTypesPath g) v (RootPath g).
Definition set_Port (v : string) (g : Globals) : Globals :=
  mkGlobals v (MimeTypesPath g) (DefaultMimeType g) (RootPath g).
Definition set_RootPath (v : string) (g : Globals) : Globals :=
  mkGlobals (Port g) (MimeTypesPath g) (DefaultMimeType g) v.

(** The variables parse_options works on.  [mode] is [None] while the
    caller's variable has not been assigned. *)
Record Options : Set := mkOptions {
  argind  : nat;
  mode    : option ServerMode;
  globals : Globals
}.

(** How one pass through the loop body ends: the loop goes on, the
    function returns, or [usage] prints the usage text and exits. *)
Inductive Control : Set :=
  | Continue (o : Options)
  | Return (b : bool) (o : Options)
  | Exit (status : Z).

Definition starts_with_dash (s : string) : bool :=
  match s with
  | String c _ => Ascii.eqb c "-"
  | EmptyString => false
  end.

(** [argv[i]]: the arguments, then the NULL that ends the vector. *)
Definition arg (argv : list string) (i : nat) : option string := argv !! i.

(** [argind < argc && strlen(argv[argind]) > 1 && argv[argind][0] == '-'] *)
Definition loop_condition (argv : list string) (o : Options) : bool :=
  match arg argv (argind o) with
  | Some a => (1 <? String.length a) && starts_with_dash a
  | None => false
  end.

(** The branches for [-m], [-M], [-p] and [-r]. *)
Definition take_value (argv : list string) (o : Options)
    (store : string → Globals → Globals) : Control :=
  let argind := S (argind o) in
  match arg argv argind with
  | None => Return false (mkOptions argind (mode o) (globals o))
  | Some ptr =>
      if starts_with_dash ptr then Return false (mkOptions argind (mode o) (globals o))
      else Continue (mkOptions (S argind) (mode o) (store ptr (globals o)))
  end.

Definition loop_body (argv : list string) (o : Options) : Control :=
  match arg argv (argind o) with
  | None => Continue o
  | Some a =>
      if String.eqb a "-h" then Exit 0
      else if String.eqb a "-c" then
        let argind := S (argind o) in
        match arg argv argind with
        | None => Return false (mkOptions argind (mode o) (globals o))
        | Some ptr =>
            if String.eqb ptr "Single" then
              Continue (mkOptions (S argind) (Some SINGLE) (globals o))
            else if String.eqb ptr "Forking" then
              Continue (mkOptions (S argind) (Some FORKING) (globals o))
            else Return false (mkOptions argind (mode o) (globals o))
        end
      else if String.eqb a "-m" then take_value argv o set_MimeTypesPath
      else if String.eqb a "-M" then take_value argv o set_DefaultMimeType
      else if String.eqb a "-p" then take_value argv o set_Port
      else if String.eqb a "-r" then take_value argv o set_RootPath
      else Continue o
  end.

(** The [while] loop of parse_options, run for at most [fuel] passes;
    [None] when the loop is still running after them. *)
Fixpoint options_loop (fuel : nat) (argv : list string) (o : Options) : option Control :=
  match fuel with
  | O => None
  | S fuel' =>
      if loop_condition argv o then
        match loop_body argv o with
        | Continue o' => options_loop fuel' argv o'
        | c => Some c
        end
      else Some (Return true o)
  end.

Definition parse_options (fuel : nat) (argv : list string) (g : Globals) : option Control :=
  options_loop fuel argv (mkOptions 1 None g).

(** The start of [main]: a failed parse_options prints the usage text and
    exits with status 1; otherwise the server goes on to listen. *)
Inductive Startup : Set :=
  | UsageExit (status : Z)
  | Listen (o : Options).

Definition main (fuel : nat) (argv : list string) : option Startup :=
  match parse_options fuel argv initial_globals with
  | None => None
  | Some (Exit status) => Some (UsageExit status)
  | Some (Return false _) => Some (UsageExit 1)
  | Some (Return true o) => Some (Listen o)
  | Some (Continue o) => Some (Listen o)
  end.

(* ===================================================================== *)
(** ** Sample inputs *)
(* ===================================================================== *)

Definition LF : string := String "010" EmptyString.

(** The usual delimiter set: blank, tab, newline. *)
Definition blank_tab_newline : list ascii := [" "; "009"; "010"]%char.

(** A request fresh from accept_request whose stream delivers [lines]. *)
Definition fresh_request (lines : list string) : Request :=
  mkRequest 0 (mkFILE (map bytes lines) EmptyString false)
            None None None None EmptyString EmptyString None [].

Definition reason_phrase (s : HTTPStatus) : string :=
  match s with
  | HTTP_STATUS_OK => "200 OK"
  | HTTP_STATUS_BAD_REQUEST => "400 Bad Request"
  | HTTP_STATUS_NOT_FOUND => "404 Not Found"
  | HTTP_STATUS_INTERNAL_SERVER_ERROR => "500 Internal Server Error"
  end.

(** The last component of a path that has no trailing slash. *)
Fixpoint last_component (acc : string) (p : string) : string :=
  match p with
  | EmptyString => acc
  | String c p' =>
      if Ascii.eqb c "/" then last_component EmptyString p'
      else last_component (acc +:+ String c EmptyString) p'
  end.

(** A small document root: [/srv/www] with a directory [docs], a page
    [index.html], a script [hello.cgi] and, outside it, a device. *)
Definition sample_world : World :=
  mkWorld
    (λ uri, if String.eqb uri "/missing" then None else Some ("/srv/www" +:+ uri))
    (λ _, "text/html")
    reason_phrase
    (λ path,
       if String.eqb path "/srv/www/" then Some 16877%Z
       else if String.eqb path "/srv/www/docs" then Some 16877%Z
       else if String.eqb path "/srv/www/index.html" then Some 33188%Z
       else if String.eqb path "/srv/www/hello.cgi" then Some 33261%Z
       else if String.eqb path "/srv/www/null" then Some 8630%Z
       else None)
    0%Z
    (λ path, String.eqb path "/srv/www/hello.cgi")
    (λ path,
       if String.eqb path "/srv/www/docs" then Some ["b.txt"; ".."; "."; ".hidden"; "a.txt"]
       else if String.eqb path "/srv/www/" then Some ["index.html"; "."; "docs"; ".."; "hello.cgi"]
       else None)
    (last_component EmptyString)
    (λ path, if String.eqb path "/srv/www/index.html" then Some "<p>hi</p>" else None)
    (λ path env,
       Some ("HTTP/1.0 200 OK" +:+ CRLF +:+ CRLF +:+ default "-" (env !! "QUERY_STRING")))
    (2 ^ 13).

(* ===================================================================== *)
(** ** Vocabulary of the statements *)
(* ===================================================================== *)

(** A byte that can be part of a token: not NUL and not a delimiter. *)
Definition token_byte (delim : list ascii) (c : ascii) : bool :=
  negb (is_nul c) && negb (mem c delim).

Definition not_nul (c : ascii) : bool := negb (is_nul c).

(** A byte of the delimiter set (never NUL, which ends the set). *)
Definition delim_byte (delim : list ascii) (c : ascii) : bool :=
  negb (is_nul c) && mem c delim.

Definition token_text (delim : list ascii) (s : string) : bool :=
  forallb (token_byte delim) (bytes s).

Definition no_question_mark (s : string) : bool :=
  forallb (λ c, negb (Ascii.eqb c "?")) (bytes s).

(** The request line [METHOD URI?QUERY HTTP/V] or, without a query,
    [METHOD URI HTTP/V], with its newline. *)
Definition request_line (METHOD URI : string) (QUERY : option string) (V : string)
  : list ascii :=
  bytes METHOD ++ [" "%char] ++ bytes URI
    ++ match QUERY with
       | Some q => ["?"%char] ++ bytes q
       | None => []
       end
    ++ [" "%char] ++ bytes "HTTP/" ++ bytes V ++ ["010"%char].

(** A text without a newline. *)
Definition newline_free (l : list ascii) : bool :=
  forallb (λ c, negb (Ascii.eqb c "010")) l.

(** A buffer content that holds no token at all, or exactly one: the
    request line then lacks its method, or its URI. *)
Definition no_token (delim : list ascii) (line : list ascii) : Prop :=
  forallb (delim_byte delim) (cstr line) = true.

Definition one_token (delim : list ascii) (line : list ascii) : Prop :=
  ∃ pre tok post,
    cstr line = pre ++ tok ++ post ∧
    forallb (delim_byte delim) pre = true ∧
    tok ≠ [] ∧ forallb (token_byte delim) tok = true ∧
    forallb (delim_byte delim) post = true.

(** The line that ends the header block: a bare newline, or CR LF. *)
Definition terminator (line : list ascii) : Prop :=
  cstr line = ["010"%char] ∨ cstr line = ["013"%char; "010"%char].

Definition has_colon (line : list ascii) : Prop := ":"%char ∈ cstr line.

(** A header line in the form of the wire protocol, [Name: Value] and an
    end of line, with one blank behind the colon. *)
Definition header_line (NAME VALUE : string) (eol : list ascii) : list ascii :=
  bytes NAME ++ [":"%char; " "%char] ++ bytes VALUE ++ eol.

(** A name holds no colon (and no NUL); a trimmed value is not empty and
    neither starts nor ends with whitespace; an end of line is whitespace. *)
Definition name_text (s : string) : bool :=
  forallb (λ c, not_nul c && negb (Ascii.eqb c ":")) (bytes s).

Definition value_text (s : string) : bool :=
  match bytes s with
  | [] => false
  | c :: l => forallb not_nul (c :: l) && negb (isspace c)
              && negb (isspace (List.last l c))
  end.

Definition eol_text (eol : list ascii) : bool :=
  match eol with
  | [] => false
  | _ => forallb (λ c, not_nul c && isspace c) eol
  end.

(** The one buffer content on which the header loop writes below its
    buffer: a lone colon with nothing behind it. *)
Definition lone_colon (line : list ascii) : Prop := cstr line = [":"%char].

(** The type of a file as [st_mode & S_IFMT] encodes it. *)
Inductive FileType : Set :=
  | Directory | Regular | CharDevice | BlockDevice | Fifo | SymLink | Socket | Unknown.

Definition file_type (st_mode : Z) : FileType :=
  let t := Z.land st_mode S_IFMT in
  if (t =? 16384)%Z then Directory
  else if (t =? 32768)%Z then Regular
  else if (t =? 8192)%Z then CharDevice
  else if (t =? 24576)%Z then BlockDevice
  else if (t =? 4096)%Z then Fifo
  else if (t =? 40960)%Z then SymLink
  else if (t =? 49152)%Z then Socket
  else Unknown.

(** The header names handle_cgi_request looks for, and the name of the
    environment variable for each: [HTTP_] and the name in upper case with
    [-] turned into [_]. *)
Definition exported_names : list string :=
  ["Host"; "Accept"; "Accept-Language"; "Accept-Encoding"; "Connection"; "User-Agent"].

Definition upper_snake_byte (c : ascii) : ascii :=
  let n := nat_of_ascii c in
  if Ascii.eqb c "-" then "_"%char
  else if (97 <=? n) && (n <=? 122) then ascii_of_nat (n - 32)
  else c.

Fixpoint upper_snake (s : string) : string :=
  match s with
  | EmptyString => EmptyString
  | String c s' => String (upper_snake_byte c) (upper_snake s')
  end.

Definition cgi_variable (name : string) : string := "HTTP_" +:+ upper_snake name.

(** The variables handle_cgi_request sets from the request itself. *)
Definition cgi_base_variables : list string :=
  ["DOCUMENT_ROOT"; "QUERY_STRING"; "REMOTE_ADDR"; "REMOTE_PORT";
   "REQUEST_METHOD"; "REQUEST_URI"; "SCRIPT_FILENAME"; "SERVER_PORT"].

(** The last header of a list that carries the given name. *)
Definition last_named (name : string) (hs : list Header) : option Header :=
  last (filter (λ h, h_name h = name) hs).

(** The Error Responder as the specification describes it: the response
    is the status line for the status, [Content-Type: text/html], an empty
    line and one heading with the status text; the status returned is the
    one given, or InternalServerError when the flush fails. *)
Definition error_page (w : World) (status : HTTPStatus) : string :=
  "HTTP/1.0 " +:+ http_status_string w status +:+ CRLF
  +:+ "Content-Type: text/html" +:+ CRLF
  +:+ CRLF
  +:+ "<h1>" +:+ http_status_string w status +:+ "</h1>" +:+ CRLF.

Definition error_response (w : World) (r : Request) (status : HTTPStatus)
  : HTTPStatus * Request :=
  (if fflush_failed r then HTTP_STATUS_INTERNAL_SERVER_ERROR else status,
   fprintf r (error_page w status)).

(** A handler's result as it leaves handle_request: OK as it is, any
    other status through the Error Responder. *)
Definition routed (w : World) (res : HTTPStatus * Request) : HTTPStatus * Request :=
  match res.1 with
  | HTTP_STATUS_OK => res
  | status => error_response w res.2 status
  end.

(** A header that the export loop can take: one whose value is not NULL,
    or one the loop does not hand to [setenv] as it is (a Host header,
    for whose NULL value the loop has a branch, or a header of a name it
    does not look for). *)
Definition exportable (h : Header) : Prop :=
  is_Some (h_value h) ∨ h_name h = "Host" ∨ h_name h ∉ exported_names.

(** The anchor element written for a directory entry, with its target. *)
Definition anchor (target d_name : string) : string :=
  "<li><a href=" +:+ DQ +:+ target +:+ DQ +:+ ">" +:+ d_name +:+ "</a></li>" +:+ CRLF.

Fixpoint concat_strings (l : list string) : string :=
  match l with
  | [] => EmptyString
  | s :: l' => s +:+ concat_strings l'
  end.

(** A flag that the loop of parse_options enters and no branch handles. *)
Definition unknown_flag (a : string) : bool :=
  (1 <? String.length a) && starts_with_dash a
  && negb (String.eqb a "-h") && negb (String.eqb a "-c")
  && negb (String.eqb a "-m") && negb (String.eqb a "-M")
  && negb (String.eqb a "-p") && negb (String.eqb a "-r").

(** The headers the chain is left with when the lines of a block yield the
    headers [hs] in order of arrival: the first, the second and the last. *)
Definition kept_headers {A} (hs : list A) : list A :=
  match hs with
  | a :: b :: c :: tl => [a; b; List.last tl c]
  | _ => hs
  end.

(** Of the headers that arrived, the last one of the given name among
    those the chain keeps. *)
Definition last_kept (name : string) (xs : list (string * string))
  : option (string * string) :=
  last (filter (λ x, x.1 = name) (kept_headers xs)).

(** The cell store, head pointer and [curr] of the header loop after it
    has linked the headers [hs] (name and value each) into a request that
    came without any: the first cell points to the second, the second to
    the newest, and the cells between are allocated but unreachable. *)
Definition cell (x : string * string) (next : option nat) : Header :=
  mkHeader x.1 (Some x.2) next.

Definition store (hs : list (string * string)) : list Header :=
  match hs with
  | [] => []
  | [a] => [cell a None]
  | a :: b :: tl =>
      cell a (Some 1)
      :: cell b (match tl with [] => None | _ => Some (S (length tl)) end)
      :: map (λ x, cell x None) tl
  end.

Definition head_ptr (hs : list (string * string)) : option nat :=
  match hs with [] => None | _ => Some 0 end.

Definition curr_ptr (hs : list (string * string)) : option nat :=
  match hs with _ :: _ :: _ => Some 1 | _ => None end.

(** A buffer content that the header loop turns into the header [x]. *)
Definition yields_header (line : list ascii) (x : string * string) : Prop :=
  ¬ terminator line ∧ split_header (line ++ [NUL]) = Split x.1 x.2.

(** The streams the two failure cases of the parser are stated for: the
    first buffer content lacks a token, or a buffer content of the header
    block has no colon, the ones before it being headers.  [unread] is
    what follows the failing buffer content. *)
Definition request_line_incomplete (delim : list ascii) (lines unread : list (list ascii))
  : Prop :=
  ∃ line, lines = line :: unread ∧ (no_token delim line ∨ one_token delim line).

Definition header_without_colon (lines unread : list (list ascii)) : Prop :=
  ∃ reqline hdrs bad,
    lines = reqline :: hdrs ++ bad :: unread
    ∧ Forall (λ l, ¬ terminator l ∧ has_colon l ∧ ¬ lone_colon l) hdrs
    ∧ ¬ terminator bad ∧ ¬ has_colon bad.

(* ===================================================================== *)
(** ** request.c: free_request *)
(* ===================================================================== *)

(** What free_request hands back to the system: the descriptor it passes
    to [close], the stream it passes to [fclose], and the addresses of
    the header cells it passes to [free], in that order.  (The strings of
    the request are freed as well; the names and values of the headers
    are not.) *)
Record Released : Set := mkReleased {
  closed_fd     : Z;
  closed_stream : FILE;
  freed_cells   : list nat
}.

(** free_request.  A NULL request is left alone ([None] on the right of
    [Some]); [free(NULL)] does nothing; a head pointer that is not the
    address of a cell is undefined behaviour ([None]). *)
Definition free_request (r : option Request) : option (option Released) :=
  match r with
  | None => Some None
  | Some r =>
      cells ← match r_headers r with
              | None => Some []
              | Some headers =>
                  c ← r_cells r !! headers;
                  Some (match h_next c with
                        | Some next => [next]
                        | None => []
                        end ++ [headers])
              end;
      Some (Some (mkReleased (r_fd r) (r_file r) cells))
  end.

(* ===================================================================== *)
(** ** single.c *)
(* ===================================================================== *)

(** The process of the sequential server: its environment, and for each
    request handled so far the status handle_request returned and what
    was written to the client. *)
Record Single : Type := mkSingle {
  s_env    : gmap string string;
  s_served : list (HTTPStatus * string)
}.

(** The body of [while (true)] in single_server: a failed accept_request
    is skipped, an accepted request is handled in this process and then
    released.  [None] is undefined behaviour inside handle_request. *)
Definition single_iteration (WHITESPACE : list ascii) (w : World) (g : Globals)
    (s : Single) (c : Connection) : option Single :=
  match accept_request true c with
  | (None, _) => Some s
  | (Some client_request, _) =>
      '(status, r, env) ← handle_request WHITESPACE w g client_request (s_env s);
      _ ← free_request (Some r);
      Some (mkSingle env (s_served s ++ [(status, written (r_file r))]))
  end.

(** The accept loop over the first connections. *)
Fixpoint single_server (WHITESPACE : list ascii) (w : World) (g : Globals)
    (connections : list Connection) (s : Single) : option Single :=
  match connections with
  | [] => Some s
  | c :: connections =>
      s ← single_iteration WHITESPACE w g s c;
      single_server WHITESPACE w g connections s
  end.

(* ===================================================================== *)
(** ** Vocabulary of the further statements *)
(* ===================================================================== *)

(** A text that neither starts nor ends with whitespace (the empty text
    included). *)
Definition trimmed (s : string) : Prop :=
  match bytes s with
  | [] => True
  | c :: l => isspace c = false ∧ isspace (List.last l c) = false
  end.

(** What may follow the URI token in the buffer: nothing, or a delimiter
    or a NUL and then anything. *)
Definition token_end (delim : list ascii) (l : list ascii) : Prop :=
  match l with
  | [] => True
  | d :: _ => delim_byte delim d = true ∨ d = NUL
  end.

(** The URI token: the path, and behind a [?] the query. *)
Definition uri_token (URI : string) (QUERY : option string) : list ascii :=
  bytes URI ++ match QUERY with
               | Some q => "?"%char :: bytes q
               | None => []
               end.

(** A response that, behind what had been written before, begins with
    a status line of the protocol. *)
Definition begins_with_status_line (before after : Request) : Prop :=
  ∃ rest,
    written (r_file after) = written (r_file before) +:+ "HTTP/1.0 " +:+ rest.

(** A request that parses and whose URI resolves to a regular file with
    execute permission: the one handle_request hands to
    handle_cgi_request. *)
Definition requests_script (WHITESPACE : list ascii) (w : World) (r : Request) : Prop :=
  ∃ r1 uri path,
    parse_request WHITESPACE r = Some (0%Z, r1)
    ∧ r_uri r1 = Some uri
    ∧ determine_request_path w uri = Some path
    ∧ Z.land (default (stack_st_mode w) (lstat w path)) S_IFMT = S_IFREG
    ∧ access_X_OK w path = true.

(* ===================================================================== *)
(** ** spidey.c: option parsing *)
(* ===================================================================== *)

Section Options.

Variable argv : list string.

Lemma loop_body_unknown_flag o a :
  arg argv (argind o) = Some a → unknown_flag a = true →
  loop_condition argv o = true ∧ loop_body argv o = Continue o.
Proof.
  intros Ha Hu. unfold unknown_flag in Hu.
  repeat (apply andb_prop in Hu as [Hu ?]).
  unfold loop_condition, loop_body. rewrite Ha. split.
  - by apply andb_true_intro.
  - repeat match goal with
           | H : negb ?b = true |- _ => apply negb_true_iff in H; rewrite H
           end.
    done.
Qed.

(** Once the loop stands on an unknown flag it never leaves it. *)
Lemma options_loop_stuck o a :
  arg argv (argind o) = Some a → unknown_flag a = true →
  ∀ fuel, options_loop fuel argv o = None.
Proof.
  intros Ha Hu. destruct (loop_body_unknown_flag o a Ha Hu) as [Hc Hb].
  induction fuel as [|fuel IH]; [done|].
  simpl. by rewrite Hc, Hb.
Qed.

End Options.

(** C9: an argument vector whose first argument is a flag that
    parse_options does not know ([-x], say) makes its loop run forever:
    no number of passes lets parse_options return, so [main] never reaches
    [usage] and never exits.  The claim that option parsing terminates for
    every argument vector, with usage text and a non-zero exit for an
    unknown flag, fails there. *)
Theorem parse_options_unknown_flag_never_returns (argv : list string) (a : string) :
  arg argv 1 = Some a → unknown_flag a = true →
  (∀ fuel, parse_options fuel argv initial_globals = None)
  ∧ (∀ fuel, main fuel argv = None).
Proof.
  intros Ha Hu.
  assert (∀ fuel, parse_options fuel argv initial_globals = None) as H.
  { intros fuel. unfold parse_options. by apply options_loop_stuck with a. }
  split; [done|]. intros fuel. unfold main. by rewrite H.
Qed.

Lemma parse_options_unknown_flag_never_returns_witness :
  (∀ fuel, parse_options fuel ["spidey"; "-x"] initial_globals = None)
  ∧ (∀ fuel, main fuel ["spidey"; "-x"] = None).
Proof.
  apply (parse_options_unknown_flag_never_returns ["spidey"; "-x"] "-x");
    reflexivity.
Defined.

(** What parse_options does handle: a flag without its value, a mode
    that is neither Single nor Forking and a value that starts with a
    dash end in the usage text and exit status 1, [-h] in exit status 0,
    and known flags are taken in. *)
Example main_option_samples :
  main 8 ["spidey"; "-c"] = Some (UsageExit 1)
  ∧ main 8 ["spidey"; "-c"; "Threaded"] = Some (UsageExit 1)
  ∧ main 8 ["spidey"; "-p"; "-r"] = Some (UsageExit 1)
  ∧ main 8 ["spidey"; "-h"] = Some (UsageExit 0)
  ∧ main 8 ["spidey"; "-c"; "Forking"; "-p"; "8080"]
    = Some (Listen (mkOptions 5 (Some FORKING) (set_Port "8080" initial_globals))).
Proof. vm_compute. done. Qed.

(* ===================================================================== *)
(** ** request.c: accept_request *)
(* ===================================================================== *)

(** C4, as stated, fails: a connection that [accept] delivers and whose
    peer address [getnameinfo] cannot resolve is given up, accept_request
    returns NULL. *)
Lemma accept_request_resolution_failure_is_fatal :
  fst (accept_request true
         (mkConnection 4 (-2) (Some (mkFILE [] EmptyString false)))) = None.
Proof. reflexivity. Qed.

(** C4, amended: accept_request returns a request exactly when [accept],
    [getnameinfo] and [fdopen] all succeed, so a failure to resolve the
    peer address makes it return NULL like a failure of the other two;
    the request it returns holds the stream that [fdopen] opened and no
    parsed field. *)
Theorem accept_request_returns_iff_all_succeed (c : Connection) :
  (is_Some (fst (accept_request true c)) ↔
     (0 ≤ accept_ret c)%Z ∧ getnameinfo_ret c = 0%Z ∧ is_Some (fdopen_ret c))
  ∧ (∀ r, fst (accept_request true c) = Some r →
       fdopen_ret c = Some (r_file r) ∧
       r_method r = None ∧ r_uri r = None ∧ r_query r = None ∧
       r_path r = None ∧ r_headers r = None).
Proof.
  unfold accept_request, accept.
  destruct (Z.ltb_spec (accept_ret c) 0) as [Ha|Ha]; simpl.
  { split; [|done]. split; [by intros [? ?]|lia]. }
  destruct (Z.eqb_spec (getnameinfo_ret c) 0) as [Hg|Hg]; simpl.
  - destruct (fdopen_ret c) as [f|]; simpl.
    + split; [split; eauto|]. intros r [= <-]. by simpl.
    + split; [|done]. split; [by intros [? ?]|]. by intros (_ & _ & [? ?]).
  - split; [|done]. split; [by intros [? ?]|]. by intros (_ & ? & _).
Qed.

(* ===================================================================== *)
(** ** forking.c *)
(* ===================================================================== *)

Section Forking.

(** With the listening socket closed every turn of the loop fails in
    [accept]: nothing is handed to a child any more. *)
Lemma forking_iteration_closed s a :
  sfd_open s = false →
  sfd_open (forking_iteration s a) = false
  ∧ children (forking_iteration s a) = children s.
Proof.
  intros Hs. unfold forking_iteration, accept_request, accept.
  by rewrite Hs.
Qed.

Lemma forking_closed_forever arrivals : ∀ s,
  sfd_open s = false →
  sfd_open (foldl forking_iteration s arrivals) = false
  ∧ children (foldl forking_iteration s arrivals) = children s.
Proof.
  induction arrivals as [|a arrivals IH]; intros s Hs; [done|].
  simpl. destruct (forking_iteration_closed s a Hs) as [Ho Hc].
  destruct (IH _ Ho) as [? ?]. split; congruence.
Qed.

(** A failed [accept] alone leaves the server as it was, but for the
    message. *)
Lemma forking_iteration_accept_failure s a :
  (accept_ret (conn a) < 0)%Z →
  sfd_open (forking_iteration s a) = sfd_open s
  ∧ children (forking_iteration s a) = children s.
Proof.
  intros Ha. unfold forking_iteration, accept_request, accept.
  destruct (sfd_open s); simpl.
  - destruct (Z.ltb_spec (accept_ret (conn a)) 0); [done|lia].
  - done.
Qed.

End Forking.

(** C8: a failed [fork] is not retried on a working server.  The branch
    closes the listening socket before it continues, so after one
    connection whose [fork] failed the socket stays closed and no later
    connection is ever handed to a child, whatever arrives.  (A failed
    [accept] alone does leave the loop able to serve.) *)
Theorem forking_server_fork_failure_ends_service (pre post : list Arrival) (a : Arrival) :
  is_Some (fst (accept_request (sfd_open (forking_server pre)) (conn a))) →
  (fork_ret a < 0)%Z →
  sfd_open (forking_server (pre ++ a :: post)) = false
  ∧ children (forking_server (pre ++ a :: post)) = children (forking_server pre).
Proof.
  intros [r Hr] Hf. unfold forking_server in *.
  rewrite foldl_app. simpl.
  set (s := foldl forking_iteration (mkServer true [] []) pre) in *.
  assert (sfd_open (forking_iteration s a) = false
          ∧ children (forking_iteration s a) = children s) as [Ho Hc].
  { unfold forking_iteration.
    destruct (accept_request (sfd_open s) (conn a)) as [[r'|] err]; [|done].
    destruct (Z.ltb_spec (fork_ret a) 0); [done|lia]. }
  destruct (forking_closed_forever post _ Ho) as [? ?].
  split; congruence.
Qed.

Lemma forking_server_fork_failure_ends_service_witness :
  let ok := mkConnection 4 0 (Some (mkFILE [] EmptyString false)) in
  sfd_open (forking_server ([] ++ mkArrival ok (-1) :: [mkArrival ok 7])) = false
  ∧ children (forking_server ([] ++ mkArrival ok (-1) :: [mkArrival ok 7]))
    = children (forking_server []).
Proof.
  intros ok.
  apply (forking_server_fork_failure_ends_service [] [mkArrival ok 7] (mkArrival ok (-1))).
  - simpl. eauto.
  - simpl. lia.
Defined.

(* ===================================================================== *)
(** ** handler.c: the CGI environment *)
(* ===================================================================== *)

Section CgiEnvironment.

Implicit Types (env : gmap string string) (hs : list Header) (h : Header).

Lemma cgi_variable_table :
  map cgi_variable exported_names =
  ["HTTP_HOST"; "HTTP_ACCEPT"; "HTTP_ACCEPT_LANGUAGE"; "HTTP_ACCEPT_ENCODING";
   "HTTP_CONNECTION"; "HTTP_USER_AGENT"].
Proof. reflexivity. Qed.

Lemma exported_names_cases (n : string) :
  n ∈ exported_names →
  n = "Host" ∨ n = "Accept" ∨ n = "Accept-Language" ∨ n = "Accept-Encoding"
  ∨ n = "Connection" ∨ n = "User-Agent".
Proof.
  unfold exported_names. rewrite !elem_of_cons, elem_of_nil. tauto.
Qed.

Lemma cgi_variable_inj (a b : string) :
  a ∈ exported_names → b ∈ exported_names →
  cgi_variable a = cgi_variable b → a = b.
Proof.
  intros Ha%exported_names_cases Hb%exported_names_cases.
  destruct Ha as [->|[->|[->|[->|[->| ->]]]]];
    destruct Hb as [->|[->|[->|[->|[->| ->]]]]];
    first [done | intros [=]].
Qed.

(** One pass of the loop: a header with an allow-listed name sets that
    name's variable to its value, any other header changes nothing. *)
Lemma export_header_spec h env v :
  h_value h = Some v →
  export_header h env =
    Some (if decide (h_name h ∈ exported_names)
          then <[cgi_variable (h_name h) := v]> env else env).
Proof.
  intros Hv. unfold export_header. rewrite Hv.
  repeat match goal with
         | |- context [String.eqb (h_name h) ?lit] =>
             destruct (String.eqb_spec (h_name h) lit) as [->|?];
             [by rewrite decide_True by (unfold exported_names; rewrite !elem_of_cons; tauto)|]
         end.
  rewrite decide_False; [done|].
  intros Hin%exported_names_cases.
  destruct Hin as [?|[?|[?|[?|[?|?]]]]]; done.
Qed.

Lemma last_named_cons name h hs :
  last_named name (h :: hs) =
    match last_named name hs with
    | Some h' => Some h'
    | None => if decide (h_name h = name) then Some h else None
    end.
Proof.
  unfold last_named. rewrite filter_cons.
  destruct (decide (h_name h = name)); [|by destruct (last _)].
  destruct (filter _ hs) as [|x l] eqn:E; [done|].
  rewrite last_cons. by destruct (last (x :: l)) eqn:E'; [|by destruct l].
Qed.

(** The whole loop.  Each allow-listed variable ends up with the value of
    the last header of its name, and is left alone when there is none;
    no other variable is touched. *)
Lemma export_headers_spec hs : ∀ env,
  Forall (λ h, is_Some (h_value h)) hs →
  ∃ env', export_headers hs env = Some env'
    ∧ (∀ name, name ∈ exported_names →
         env' !! cgi_variable name =
           match last_named name hs with
           | Some h => h_value h
           | None => env !! cgi_variable name
           end)
    ∧ (∀ var, var ∉ map cgi_variable exported_names → env' !! var = env !! var).
Proof.
  induction hs as [|h hs IH]; intros env Hall.
  { exists env. by split_and!. }
  apply Forall_cons in Hall as [[v Hv] Hall].
  simpl. rewrite (export_header_spec h env v Hv). simpl.
  destruct (IH (if decide (h_name h ∈ exported_names)
                then <[cgi_variable (h_name h) := v]> env else env) Hall)
    as (env' & -> & Hnames & Hother).
  exists env'. split_and!; [done|..].
  - intros name Hname. rewrite (Hnames name Hname), last_named_cons.
    destruct (last_named name hs); [done|].
    destruct (decide (h_name h = name)) as [<-|Hne].
    + rewrite decide_True by done. by rewrite lookup_insert_eq.
    + case_decide; [|done]. rewrite lookup_insert_ne; [done|].
      intros ?%cgi_variable_inj; done.
  - intros var Hvar. rewrite (Hother var Hvar).
    case_decide as Hin; [|done]. rewrite lookup_insert_ne; [done|].
    intros <-. apply Hvar, list_elem_of_In.
    apply (in_map cgi_variable exported_names). by apply list_elem_of_In.
Qed.

(** The same with the NULL value of a Host header taken in: HTTP_HOST is
    then the empty string. *)
Lemma export_header_exportable h env :
  exportable h →
  export_header h env =
    Some (if decide (h_name h ∈ exported_names)
          then <[cgi_variable (h_name h) := default EmptyString (h_value h)]> env
          else env).
Proof.
  intros Hx. unfold exportable in Hx. destruct (h_value h) as [v|] eqn:Hv.
  { by apply export_header_spec. }
  destruct Hx as [[? [=]]|[Hh|Hn]].
  - unfold export_header. rewrite Hh, Hv. reflexivity.
  - rewrite decide_False by done. unfold export_header.
    repeat match goal with
           | |- context [String.eqb (h_name h) ?lit] =>
               destruct (String.eqb_spec (h_name h) lit) as [E|?];
               [destruct Hn; rewrite E; unfold exported_names;
                rewrite !elem_of_cons; tauto|]
           end.
    done.
Qed.

Lemma export_headers_exportable hs : ∀ env,
  Forall exportable hs →
  ∃ env', export_headers hs env = Some env'
    ∧ (∀ name, name ∈ exported_names →
         env' !! cgi_variable name =
           match last_named name hs with
           | Some h => Some (default EmptyString (h_value h))
           | None => env !! cgi_variable name
           end)
    ∧ (∀ var, var ∉ map cgi_variable exported_names → env' !! var = env !! var).
Proof.
  induction hs as [|h hs IH]; intros env Hall.
  { exists env. by split_and!. }
  apply Forall_cons in Hall as [Hx Hall].
  simpl. rewrite (export_header_exportable h env Hx). simpl.
  destruct (IH (if decide (h_name h ∈ exported_names)
                then <[cgi_variable (h_name h) := default EmptyString (h_value h)]> env
                else env) Hall)
    as (env' & -> & Hnames & Hother).
  exists env'. split_and!; [done|..].
  - intros name Hname. rewrite (Hnames name Hname), last_named_cons.
    destruct (last_named name hs); [done|].
    destruct (decide (h_name h = name)) as [<-|Hne].
    + rewrite decide_True by done. by rewrite lookup_insert_eq.
    + case_decide; [|done]. rewrite lookup_insert_ne; [done|].
      intros ?%cgi_variable_inj; done.
  - intros var Hvar. rewrite (Hother var Hvar).
    case_decide as Hin; [|done]. rewrite lookup_insert_ne; [done|].
    intros <-. apply Hvar, list_elem_of_In.
    apply (in_map cgi_variable exported_names). by apply list_elem_of_In.
Qed.

(** The eight variables set before the loop leave every other variable
    as it was. *)
Lemma cgi_environment_base (g : Globals) (r : Request) env :
  is_Some (r_method r) → is_Some (r_uri r) → is_Some (r_path r) →
  ∃ env8, cgi_environment g r env = export_headers (header_list r) env8
          ∧ (∀ var, var ∉ cgi_base_variables → env8 !! var = env !! var).
Proof.
  intros [m Hm] [u Hu] [p Hp]. unfold cgi_environment.
  rewrite Hm, Hu, Hp. destruct (r_query r) as [q|]; simpl.
  all: eexists; split; [reflexivity|].
  all: intros var Hvar; unfold cgi_base_variables in Hvar.
  all: rewrite !not_elem_of_cons in Hvar.
  all: destruct Hvar as (?&?&?&?&?&?&?&?&_).
  all: by rewrite !lookup_insert_ne by done.
Qed.

Lemma cgi_variable_not_base (name : string) :
  name ∈ exported_names → cgi_variable name ∉ cgi_base_variables.
Proof.
  intros Hin%exported_names_cases. unfold cgi_base_variables.
  rewrite !not_elem_of_cons.
  destruct Hin as [->|[->|[->|[->|[->| ->]]]]];
    split_and!; first [by intros [=] | apply not_elem_of_nil].
Qed.

End CgiEnvironment.

(** C7, as stated, fails for the headers that are absent.  With no Host
    header in the request, handle_cgi_request leaves the environment
    without HTTP_HOST rather than with an empty one; and a variable that
    the process environment already holds, here HTTP_ACCEPT from an
    earlier request, is still there for the script of a request that has
    no such header. *)
Lemma cgi_absent_host_not_exported :
  let r := set_path (Some "/srv/www/hello.cgi")
             (set_uri (Some "/hello.cgi")
                (set_method (Some "GET")
                   (set_headers (Some 0) [mkHeader "Accept" (Some "text/html") None]
                      (fresh_request [])))) in
  let r_next := set_path (Some "/srv/www/hello.cgi")
                  (set_uri (Some "/hello.cgi")
                     (set_method (Some "GET") (fresh_request []))) in
  ∃ env env_next,
    cgi_environment initial_globals r ∅ = Some env
    ∧ env !! "HTTP_ACCEPT" = Some "text/html"
    ∧ env !! "HTTP_HOST" = None
    ∧ cgi_environment initial_globals r_next env = Some env_next
    ∧ header_list r_next = []
    ∧ env_next !! "HTTP_ACCEPT" = Some "text/html".
Proof. eexists _, _. split_and!; reflexivity. Qed.

(** C7, amended: for a parsed and resolved request, the environment that
    handle_cgi_request builds holds, for each of the names Host, Accept,
    Accept-Language, Accept-Encoding, Connection and User-Agent that
    occurs in the request's header list, the variable
    HTTP_<UPPER_SNAKE_NAME> with the value of the last header of that
    name, and the empty string for a Host header whose value is NULL;
    for a name of the list that does not occur, Host included, nothing is
    set and the variable is as the process environment had it before;
    and apart from these six and the eight variables set from the request
    itself no variable is touched.  (A header of one of the other five
    names with a NULL value would reach [setenv] as it is; the parser
    builds none.) *)
Theorem cgi_exports_exactly_present_allow_listed (g : Globals) (r : Request)
    (env : gmap string string) :
  is_Some (r_method r) → is_Some (r_uri r) → is_Some (r_path r) →
  Forall exportable (header_list r) →
  ∃ env', cgi_environment g r env = Some env'
    ∧ (∀ name h, name ∈ exported_names → last_named name (header_list r) = Some h →
         env' !! cgi_variable name = Some (default EmptyString (h_value h)))
    ∧ (∀ name, name ∈ exported_names → last_named name (header_list r) = None →
         env' !! cgi_variable name = env !! cgi_variable name)
    ∧ (∀ var, var ∉ map cgi_variable exported_names → var ∉ cgi_base_variables →
         env' !! var = env !! var).
Proof.
  intros Hm Hu Hp Hall.
  destruct (cgi_environment_base g r env Hm Hu Hp) as (env8 & -> & Hbase).
  destruct (export_headers_exportable (header_list r) env8 Hall)
    as (env' & He & Hn & Ho).
  exists env'. split_and!; [done|..].
  - intros name h Hin Hl. by rewrite (Hn name Hin), Hl.
  - intros name Hin Hl. rewrite (Hn name Hin), Hl.
    by apply Hbase, cgi_variable_not_base.
  - intros var Hvar Hb. rewrite (Ho var Hvar). by apply Hbase.
Qed.

Lemma cgi_exports_exactly_present_allow_listed_witness :
  let r := set_path (Some "/srv/www/hello.cgi")
             (set_uri (Some "/hello.cgi")
                (set_method (Some "GET")
                   (set_headers (Some 0)
                      [mkHeader "Accept" (Some "a") (Some 1);
                       mkHeader "Host" None (Some 2);
                       mkHeader "X-Trace" None None]
                      (fresh_request [])))) in
  let env : gmap string string := {[ "HTTP_CONNECTION" := "close" ]} in
  ∃ env', cgi_environment initial_globals r env = Some env'
    ∧ (∀ name h, name ∈ exported_names → last_named name (header_list r) = Some h →
         env' !! cgi_variable name = Some (default EmptyString (h_value h)))
    ∧ (∀ name, name ∈ exported_names → last_named name (header_list r) = None →
         env' !! cgi_variable name = env !! cgi_variable name)
    ∧ (∀ var, var ∉ map cgi_variable exported_names → var ∉ cgi_base_variables →
         env' !! var = env !! var).
Proof.
  intros r env.
  apply (cgi_exports_exactly_present_allow_listed initial_globals r env).
  - simpl. eauto.
  - simpl. eauto.
  - simpl. eauto.
  - assert (header_list r
            = [mkHeader "Accept" (Some "a") (Some 1); mkHeader "Host" None (Some 2);
               mkHeader "X-Trace" None None]) as -> by reflexivity.
    apply Forall_cons. split; [left; simpl; eauto|].
    apply Forall_cons. split; [right; left; reflexivity|].
    apply Forall_cons. split; [|constructor].
    right. right. unfold exported_names. simpl.
    rewrite !not_elem_of_cons.
    split_and!; first [discriminate | apply not_elem_of_nil | exact I].
Defined.

(** When the header list of a request (each header with its value set)
    holds several headers of one allow-listed name, the environment that
    handle_cgi_request builds has the variable of that name set to the
    value of the last of them in list order: every later occurrence
    overwrites what an earlier one set. *)
Lemma cgi_environment_last_in_list (g : Globals) (r : Request)
    (pre post : list Header) (h : Header) (env : gmap string string) :
  is_Some (r_method r) → is_Some (r_uri r) → is_Some (r_path r) →
  header_list r = pre ++ h :: post →
  Forall (λ h, is_Some (h_value h)) (pre ++ h :: post) →
  h_name h ∈ exported_names →
  Forall (λ h', h_name h' ≠ h_name h) post →
  ∃ env', cgi_environment g r env = Some env'
          ∧ env' !! cgi_variable (h_name h) = h_value h.
Proof.
  intros Hm Hu Hp Hl Hall Hin Hpost.
  destruct (cgi_environment_base g r env Hm Hu Hp) as (env8 & -> & _).
  rewrite Hl.
  destruct (export_headers_spec _ env8 Hall) as (env' & He & Hn & _).
  exists env'. split; [done|]. rewrite (Hn _ Hin).
  assert (last_named (h_name h) (pre ++ h :: post) = Some h) as ->; [|done].
  unfold last_named. rewrite filter_app, filter_cons, decide_True by done.
  assert (filter (λ h', h_name h' = h_name h) post = []) as ->.
  { clear -Hpost. induction Hpost as [|x l Hx _ IH]; [done|].
    by rewrite filter_cons, decide_False. }
  by rewrite last_snoc.
Qed.

(* ===================================================================== *)
(** ** Writing to the client stream *)
(* ===================================================================== *)

Section StreamFacts.

Variable w : World.

Lemma string_app_assoc (a b c : string) : (a +:+ b) +:+ c = a +:+ (b +:+ c).
Proof.
  induction a as [|x a IH]; [done|].
  change (String x ((a +:+ b) +:+ c) = String x (a +:+ (b +:+ c))).
  by rewrite IH.
Qed.

Lemma string_app_nil_r (a : string) : a +:+ EmptyString = a.
Proof.
  induction a as [|x a IH]; [done|].
  change (String x (a +:+ EmptyString) = String x a). by rewrite IH.
Qed.

Lemma written_fprintf r s :
  written (r_file (fprintf r s)) = written (r_file r) +:+ s.
Proof. done. Qed.

Lemma flush_fprintf r s : fflush_failed (fprintf r s) = fflush_failed r.
Proof. done. Qed.

Lemma string_of_list_ascii_app (a b : list ascii) :
  string_of_list_ascii (a ++ b) = string_of_list_ascii a +:+ string_of_list_ascii b.
Proof.
  induction a as [|x a IH]; [done|].
  simpl. rewrite IH. done.
Qed.

Lemma fprintf_fprintf r a b : fprintf (fprintf r a) b = fprintf r (a +:+ b).
Proof.
  unfold fprintf, set_file, fputs. simpl. by rewrite string_app_assoc.
Qed.

(** Writing the empty text changes nothing. *)
Lemma fprintf_empty r : fprintf r EmptyString = r.
Proof.
  destruct r as [fd [p wr ff] m u pa q h po hs cs].
  unfold fprintf, set_file, fputs. simpl. by rewrite string_app_nil_r.
Qed.

(** handle_error is the Error Responder: the page for the status, and
    the status itself unless the flush fails. *)
Lemma handle_error_is_error_response r status :
  handle_error w r status = error_response w r status.
Proof.
  unfold handle_error, error_response, error_page.
  rewrite !flush_fprintf, !fprintf_fprintf. rewrite !string_app_assoc.
  by destruct (fflush_failed r).
Qed.

Lemma finish_is_routed res : finish w res = routed w res.
Proof.
  destruct res as [[] r]; simpl; [done|apply handle_error_is_error_response..].
Qed.

End StreamFacts.

(* ===================================================================== *)
(** ** handler.c: dispatch *)
(* ===================================================================== *)

Section Dispatch.

Variable WHITESPACE : list ascii.
Variables (w : World) (g : Globals).

(** A request line that parses leaves the URI set, and the header phase
    does not touch it. *)
Lemma parse_request_method_sets_uri r r1 :
  parse_request_method WHITESPACE r = (0%Z, r1) → is_Some (r_uri r1).
Proof.
  unfold parse_request_method.
  destruct (fgets (r_file r)) as [[buffer f]|]; [|by intros [=]].
  destruct (strtok buffer 0 WHITESPACE) as [[[method|] b1] save]; [|by intros [=]].
  destruct (strtok b1 save WHITESPACE) as [[[uri|] b2] save2]; [|by intros [=]].
  destruct (strchr b2 uri "?") as [temp|]; intros [= <-]; simpl; eauto.
Qed.

Lemma parse_request_sets_uri r r1 :
  parse_request WHITESPACE r = Some (0%Z, r1) → is_Some (r_uri r1).
Proof.
  unfold parse_request.
  destruct (parse_request_method WHITESPACE r) as [m r0] eqn:Hm.
  destruct (Z.eqb_spec m 0) as [->|?]; simpl; [|by intros [=]].
  apply parse_request_method_sets_uri in Hm.
  unfold parse_request_headers.
  destruct (headers_loop _ _ _ _) as [[[[ret rest] cells] headers]|]; [|done].
  destruct (Z.eqb_spec ret 0); simpl; intros [= <-]; done.
Qed.

End Dispatch.

(** C3: once the request is parsed, a URI that does not resolve yields
    NotFound through the Error Responder; a resolved path is classified
    by the type [lstat] reports for it: a directory goes to
    handle_browse_request, a regular file to handle_cgi_request when
    [access(path, X_OK)] succeeds and to handle_file_request otherwise,
    and every other type yields BadRequest through the Error Responder.
    What handle_request returns is pinned in each case: for NotFound and
    BadRequest the Error Responder's page for that status and the status
    itself (InternalServerError when the flush fails), for a handler its
    result, through the Error Responder when it is not OK. *)
Theorem handle_request_dispatches_on_file_type (WHITESPACE : list ascii)
    (w : World) (g : Globals) (r r1 : Request) (env : gmap string string) :
  parse_request WHITESPACE r = Some (0%Z, r1) →
  ∃ uri, r_uri r1 = Some uri ∧
    match determine_request_path w uri with
    | None =>
        handle_request WHITESPACE w g r env
        = Some (error_response w (set_path None r1) HTTP_STATUS_NOT_FOUND, env)
    | Some path =>
        let r2 := set_path (Some path) r1 in
        ∀ st_mode, lstat w path = Some st_mode →
          handle_request WHITESPACE w g r env =
            match file_type st_mode with
            | Directory =>
                res ← handle_browse_request w r2; Some (routed w res, env)
            | Regular =>
                if access_X_OK w path
                then '(res, env') ← handle_cgi_request w g r2 env;
                     Some (routed w res, env')
                else res ← handle_file_request w r2; Some (routed w res, env)
            | _ => Some (error_response w r2 HTTP_STATUS_BAD_REQUEST, env)
            end
    end.
Proof.
  intros Hparse.
  destruct (parse_request_sets_uri WHITESPACE r r1 Hparse) as [uri Huri].
  exists uri. split; [done|].
  unfold handle_request. rewrite Hparse. simpl. rewrite Huri. simpl.
  destruct (determine_request_path w uri) as [path|]; simpl;
    [|by rewrite handle_error_is_error_response].
  intros st_mode Hst. unfold dispatch. simpl. rewrite Hst. simpl.
  unfold file_type, S_IFDIR, S_IFREG.
  generalize (Z.land st_mode S_IFMT). intros t.
  destruct (Z.eqb_spec t 16384) as [->|Hd].
  { destruct (handle_browse_request w _) as [res|]; [|done].
    simpl. by rewrite finish_is_routed. }
  destruct (Z.eqb_spec t 32768) as [->|Hr].
  { destruct (access_X_OK w path).
    - destruct (handle_cgi_request w g _ env) as [[res env']|]; [|done].
      simpl. by rewrite finish_is_routed.
    - destruct (handle_file_request w _) as [res|]; [|done].
      simpl. by rewrite finish_is_routed. }
  rewrite handle_error_is_error_response.
  repeat match goal with
         | |- context [(t =? ?k)%Z] => destruct (t =? k)%Z
         end; done.
Qed.

Lemma handle_request_dispatches_on_file_type_witness :
  let r := fresh_request ["GET /null HTTP/1.0" +:+ LF; "Host: example.org" +:+ LF; LF] in
  let r1 := match parse_request blank_tab_newline r with
            | Some (_, r1) => r1
            | None => r
            end in
  (∃ uri, r_uri r1 = Some uri ∧
    match determine_request_path sample_world uri with
    | None =>
        handle_request blank_tab_newline sample_world initial_globals r ∅
        = Some (error_response sample_world (set_path None r1) HTTP_STATUS_NOT_FOUND, ∅)
    | Some path =>
        let r2 := set_path (Some path) r1 in
        ∀ st_mode, lstat sample_world path = Some st_mode →
          handle_request blank_tab_newline sample_world initial_globals r ∅ =
            match file_type st_mode with
            | Directory =>
                res ← handle_browse_request sample_world r2;
                Some (routed sample_world res, ∅)
            | Regular =>
                if access_X_OK sample_world path
                then '(res, env') ← handle_cgi_request sample_world initial_globals r2 ∅;
                     Some (routed sample_world res, env')
                else res ← handle_file_request sample_world r2;
                     Some (routed sample_world res, ∅)
            | _ => Some (error_response sample_world r2 HTTP_STATUS_BAD_REQUEST, ∅)
            end
    end)
  ∧ ((λ x, (x.1.1, written (r_file x.1.2)))
       <$> handle_request blank_tab_newline sample_world initial_globals r ∅)
    = Some (HTTP_STATUS_BAD_REQUEST,
            "HTTP/1.0 400 Bad Request" +:+ CRLF +:+ "Content-Type: text/html" +:+ CRLF
              +:+ CRLF +:+ "<h1>400 Bad Request</h1>" +:+ CRLF).
Proof.
  intros r r1. split; [|vm_compute; reflexivity].
  apply (handle_request_dispatches_on_file_type blank_tab_newline sample_world
           initial_globals r r1 ∅).
  reflexivity.
Defined.

(** The four outcomes of the dispatch on the sample document root: a
    directory is listed, a script is run, a page is served, a device is
    refused, and a URI that does not resolve is not found. *)
Example dispatch_samples :
  let run uri :=
    fst <$> (fst <$> handle_request blank_tab_newline sample_world initial_globals
                       (fresh_request ["GET " +:+ uri +:+ " HTTP/1.0" +:+ LF; LF]) ∅) in
  run "/docs" = Some HTTP_STATUS_OK
  ∧ run "/hello.cgi" = Some HTTP_STATUS_OK
  ∧ run "/index.html" = Some HTTP_STATUS_OK
  ∧ run "/null" = Some HTTP_STATUS_BAD_REQUEST
  ∧ run "/missing" = Some HTTP_STATUS_NOT_FOUND.
Proof. vm_compute. done. Qed.

(* ===================================================================== *)
(** ** handler.c: the directory listing *)
(* ===================================================================== *)

Section Listing.

Variable w : World.

(** Writing the items one after the other appends their concatenation. *)
Lemma written_items (item : string → string) (entries : list string) : ∀ r,
  written (r_file (foldl (λ r d_name, fprintf r (item d_name)) r entries))
  = written (r_file r) +:+ concat_strings (map item entries)
  ∧ fflush_failed (foldl (λ r d_name, fprintf r (item d_name)) r entries)
    = fflush_failed r.
Proof.
  induction entries as [|e entries IH]; intros r; simpl.
  - by rewrite string_app_nil_r.
  - destruct (IH (fprintf r (item e))) as [-> ->].
    by rewrite written_fprintf, string_app_assoc, flush_fprintf.
Qed.

(** The item of [.] is empty, every other item is the anchor with the
    target the request URI selects. *)
Lemma browse_items_anchors uri path (entries : list string) :
  concat_strings (map (browse_item w uri path) entries)
  = concat_strings
      (map (λ n, anchor (if decide (uri = "/") then "/" +:+ n
                         else "/" +:+ basename w path +:+ "/" +:+ n) n)
           (filter (λ n, n ≠ ".") entries)).
Proof.
  induction entries as [|e entries IH]; [done|].
  rewrite filter_cons. simpl. unfold browse_item at 1.
  destruct (String.eqb_spec e ".") as [->|Hne].
  { rewrite decide_False by (by intros ?). by rewrite IH. }
  rewrite decide_True by done. simpl. rewrite <- IH. f_equal.
  unfold anchor.
  destruct (String.eqb_spec uri "/") as [->|Hu]; simpl.
  - by rewrite !string_app_assoc.
  - rewrite decide_False by done. by rewrite !string_app_assoc.
Qed.

Lemma StronglySorted_filter {A} (R : relation A) (P : A → Prop)
    `{∀ x, Decision (P x)} (l : list A) :
  StronglySorted R l → StronglySorted R (filter P l).
Proof.
  induction 1 as [|x l Hl IH Hx]; [constructor|].
  rewrite filter_cons. case_decide; [|done].
  constructor; [done|].
  apply Forall_forall. intros y [_ Hy]%list_elem_of_filter.
  by eapply Forall_forall in Hx.
Qed.

End Listing.

(** C6: for a directory that can be read, handle_browse_request writes
    the status line and headers and then, between [<ul>] and [</ul>], one
    anchor for each entry except [.]: the names are those of the
    directory without [.] ([..] and names that start with a dot stay), in
    lexicographic (byte-wise) order; the target of an anchor is [/name]
    when the request URI is exactly [/], and [/base/name] with the base
    name of the resolved path for any other URI. *)
Theorem handle_browse_request_lists_sorted_entries (w : World) (r : Request)
    (path uri : string) (entries : list string) :
  r_path r = Some path → r_uri r = Some uri → readdir w path = Some entries →
  ∃ names r',
    handle_browse_request w r
    = Some (if fflush_failed r then HTTP_STATUS_NOT_FOUND else HTTP_STATUS_OK, r')
    ∧ written (r_file r')
      = written (r_file r) +:+ "HTTP/1.0 200 OK" +:+ CRLF
          +:+ "Content-Type: text/html" +:+ CRLF +:+ CRLF +:+ "<ul>" +:+ CRLF
          +:+ concat_strings
                (map (λ n, anchor (if decide (uri = "/") then "/" +:+ n
                                   else "/" +:+ basename w path +:+ "/" +:+ n) n)
                     names)
          +:+ "</ul>" +:+ CRLF
    ∧ names ≡ₚ filter (λ n, n ≠ ".") entries
    ∧ StronglySorted String.le names.
Proof.
  intros Hpath Huri Hdir.
  exists (filter (λ n, n ≠ ".") (merge_sort alphasort entries)).
  unfold handle_browse_request, scandir. rewrite Hpath, Huri. simpl.
  rewrite Hdir. simpl.
  set (r0 := fprintf (fprintf (fprintf (fprintf r _) _) _) _).
  destruct (written_items (browse_item w uri path) (merge_sort alphasort entries) r0)
    as [Hw Hf].
  eexists. split_and!.
  - rewrite flush_fprintf, Hf.
    change (fflush_failed r0) with (fflush_failed r).
    by destruct (fflush_failed r).
  - rewrite written_fprintf, Hw, browse_items_anchors.
    subst r0. rewrite !written_fprintf. by rewrite !string_app_assoc.
  - by rewrite merge_sort_Permutation.
  - apply StronglySorted_filter, StronglySorted_merge_sort; apply _.
Qed.

Lemma handle_browse_request_lists_sorted_entries_witness :
  let r := set_path (Some "/srv/www/docs")
             (set_uri (Some "/docs") (fresh_request [])) in
  ∃ names r',
    handle_browse_request sample_world r
    = Some (if fflush_failed r then HTTP_STATUS_NOT_FOUND else HTTP_STATUS_OK, r')
    ∧ written (r_file r')
      = written (r_file r) +:+ "HTTP/1.0 200 OK" +:+ CRLF
          +:+ "Content-Type: text/html" +:+ CRLF +:+ CRLF +:+ "<ul>" +:+ CRLF
          +:+ concat_strings
                (map (λ n, anchor (if decide ("/docs" = "/") then "/" +:+ n
                                   else "/" +:+ basename sample_world "/srv/www/docs"
                                        +:+ "/" +:+ n) n)
                     names)
          +:+ "</ul>" +:+ CRLF
    ∧ names ≡ₚ filter (λ n, n ≠ ".") ["b.txt"; ".."; "."; ".hidden"; "a.txt"]
    ∧ StronglySorted String.le names.
Proof.
  intros r.
  apply (handle_browse_request_lists_sorted_entries sample_world r
           "/srv/www/docs" "/docs" ["b.txt"; ".."; "."; ".hidden"; "a.txt"]);
    reflexivity.
Defined.

(** The listing of the sample directory, and of the root. *)
Example browse_samples :
  (snd <$> handle_browse_request sample_world
             (set_path (Some "/srv/www/docs") (set_uri (Some "/docs") (fresh_request []))))
    = Some (fprintf (set_path (Some "/srv/www/docs") (set_uri (Some "/docs") (fresh_request [])))
              ("HTTP/1.0 200 OK" +:+ CRLF +:+ "Content-Type: text/html" +:+ CRLF +:+ CRLF
               +:+ "<ul>" +:+ CRLF
               +:+ anchor "/docs/.." ".." +:+ anchor "/docs/.hidden" ".hidden"
               +:+ anchor "/docs/a.txt" "a.txt" +:+ anchor "/docs/b.txt" "b.txt"
               +:+ "</ul>" +:+ CRLF))
  ∧ (written ∘ r_file ∘ snd <$> handle_browse_request sample_world
             (set_path (Some "/srv/www/") (set_uri (Some "/") (fresh_request []))))
    = Some ("HTTP/1.0 200 OK" +:+ CRLF +:+ "Content-Type: text/html" +:+ CRLF +:+ CRLF
            +:+ "<ul>" +:+ CRLF
            +:+ anchor "/.." ".." +:+ anchor "/docs" "docs"
            +:+ anchor "/hello.cgi" "hello.cgi" +:+ anchor "/index.html" "index.html"
            +:+ "</ul>" +:+ CRLF).
Proof. vm_compute. done. Qed.

(* ===================================================================== *)
(** ** Facts about C strings in a buffer *)
(* ===================================================================== *)

Section CStringFacts.

Implicit Types (pre tok l t : list ascii) (c x d : ascii).

Local Arguments Ascii.eqb : simpl never.
Local Arguments is_nul : simpl never.

Lemma deref_at pre x t n : n = length pre → deref (pre ++ x :: t) n = x.
Proof. intros ->. unfold deref. by rewrite list_lookup_middle. Qed.

Lemma drop_at pre l n : n = length pre → drop n (pre ++ l) = l.
Proof. intros ->. apply drop_app_length. Qed.

Lemma insert_at pre x y t n :
  n = length pre → <[n := y]> (pre ++ x :: t) = pre ++ y :: t.
Proof. intros ->. induction pre as [|a pre IH]; [done|]. simpl. by rewrite IH. Qed.

Lemma cstr_app_nul l t :
  forallb not_nul l = true → cstr (l ++ NUL :: t) = l.
Proof.
  induction l as [|c l IH]; simpl; [done|].
  intros [Hc Hl]%andb_prop. unfold not_nul in Hc.
  apply negb_true_iff in Hc. rewrite Hc. by rewrite IH.
Qed.

Lemma cstr_not_nul l : forallb not_nul (cstr l) = true.
Proof.
  induction l as [|c l IH]; [done|]. simpl.
  destruct (is_nul c) eqn:E; [done|]. simpl. unfold not_nul at 1. by rewrite E.
Qed.

(** A buffer is its C string, the NUL, and what lies behind. *)
Lemma cstr_split l : ∃ junk, l ++ [NUL] = cstr l ++ NUL :: junk.
Proof.
  induction l as [|c l [junk IH]]; simpl.
  - by exists [].
  - destruct (is_nul c) eqn:E.
    + exists (l ++ [NUL]). apply Ascii.eqb_eq in E. by rewrite E.
    + exists junk. by rewrite IH.
Qed.

Lemma token_byte_not_nul delim c : token_byte delim c = true → not_nul c = true.
Proof. by intros [? _]%andb_prop. Qed.

Lemma delim_byte_not_nul delim c : delim_byte delim c = true → not_nul c = true.
Proof. by intros [? _]%andb_prop. Qed.

Lemma forallb_impl (P Q : ascii → bool) l :
  (∀ c, P c = true → Q c = true) → forallb P l = true → forallb Q l = true.
Proof.
  intros HPQ. induction l as [|c l IH]; [done|]. simpl.
  intros [? ?]%andb_prop. rewrite HPQ by done. by rewrite IH.
Qed.

Lemma span_token delim c l : token_byte delim c = true → span delim (c :: l) = 0.
Proof.
  intros [Hn Hm]%andb_prop. simpl. rewrite Hn. simpl.
  apply negb_true_iff in Hm. by rewrite Hm.
Qed.

Lemma span_delims delim pre l :
  forallb (delim_byte delim) pre = true →
  span delim (pre ++ l) = length pre + span delim l.
Proof.
  induction pre as [|c pre IH]; [done|]. simpl.
  intros [Hc Hpre]%andb_prop. unfold delim_byte in Hc. rewrite Hc.
  by rewrite IH.
Qed.

Lemma span_nul delim t : span delim (NUL :: t) = 0.
Proof. done. Qed.

Lemma cspan_tokens delim tok l :
  forallb (token_byte delim) tok = true →
  cspan delim (tok ++ l) = length tok + cspan delim l.
Proof.
  induction tok as [|c tok IH]; [done|]. simpl.
  intros [Hc Htok]%andb_prop. apply andb_prop in Hc as [Hn Hm].
  apply negb_true_iff in Hn, Hm. rewrite Hn, Hm. simpl. by rewrite IH.
Qed.

Lemma cspan_delim delim d t : delim_byte delim d = true → cspan delim (d :: t) = 0.
Proof.
  intros [Hn Hm]%andb_prop. simpl. rewrite Hm. by rewrite orb_true_r.
Qed.

Lemma cspan_nul delim t : cspan delim (NUL :: t) = 0.
Proof. done. Qed.

Lemma find_char_here c pre t :
  forallb (λ x, not_nul x && negb (Ascii.eqb x c)) pre = true →
  find_char c (pre ++ c :: t) = Some (length pre).
Proof.
  induction pre as [|x pre IH]; simpl.
  - by rewrite Ascii.eqb_refl.
  - intros [[Hn Hx]%andb_prop Hpre]%andb_prop.
    apply negb_true_iff in Hn, Hx. rewrite Hx, Hn. by rewrite IH.
Qed.

Lemma find_char_absent c pre t :
  c ≠ NUL →
  forallb (λ x, negb (Ascii.eqb x c)) pre = true →
  find_char c (pre ++ NUL :: t) = None.
Proof.
  intros Hc. induction pre as [|x pre IH]; simpl.
  - intros _. destruct (Ascii.eqb_spec NUL c) as [E|_]; [congruence|done].
  - intros [Hx Hpre]%andb_prop. apply negb_true_iff in Hx. rewrite Hx.
    destruct (is_nul x); [done|]. by rewrite IH.
Qed.

(** [strtok] on a token that a delimiter ends: the delimiter turns into
    NUL and the saved pointer stands behind it. *)
Lemma strtok_token delim pre tok d t :
  tok ≠ [] → forallb (token_byte delim) tok = true → delim_byte delim d = true →
  strtok (pre ++ tok ++ d :: t) (length pre) delim
  = (Some (length pre), pre ++ tok ++ NUL :: t, length pre + length tok + 1).
Proof.
  intros Hne Htok Hd. destruct tok as [|c tok]; [done|].
  simpl in Htok. apply andb_prop in Htok as [Hc Htok].
  pose proof (token_byte_not_nul _ _ Hc) as Hcn.
  pose proof (delim_byte_not_nul _ _ Hd) as Hdn.
  unfold not_nul in Hcn, Hdn. apply negb_true_iff in Hcn, Hdn.
  unfold strtok, strspn, strcspn.
  change ((c :: tok) ++ d :: t) with (c :: (tok ++ d :: t)).
  rewrite (deref_at pre c) by done. rewrite Hcn.
  rewrite (drop_at pre) by done.
  rewrite (span_token delim c) by done. rewrite Nat.add_0_r.
  rewrite (deref_at pre c) by done. rewrite Hcn.
  rewrite (drop_at pre) by done.
  change (c :: tok ++ d :: t) with ((c :: tok) ++ d :: t).
  rewrite (cspan_tokens delim (c :: tok))
    by (simpl; by rewrite Hc, Htok).
  rewrite (cspan_delim delim d) by done. rewrite Nat.add_0_r.
  rewrite (app_assoc pre).
  rewrite (deref_at (pre ++ c :: tok) d) by (by rewrite length_app).
  rewrite Hdn.
  rewrite (insert_at (pre ++ c :: tok) d NUL) by (by rewrite length_app).
  by rewrite <- app_assoc.
Qed.

End CStringFacts.

(* ===================================================================== *)
(** ** request.c: the request line *)
(* ===================================================================== *)

(** Both sides of an equation between buffers, as one right-nested list. *)
Ltac flatten_app := cbn [app]; repeat (rewrite <- app_assoc; cbn [app]).

Section RequestLine.

Variable WHITESPACE : list ascii.
Implicit Types (pre l t : list ascii).

Lemma string_at_here pre l t n :
  n = length pre → forallb not_nul l = true →
  string_at (pre ++ l ++ NUL :: t) n = l.
Proof.
  intros -> Hl. unfold string_at. rewrite drop_at by done.
  by apply cstr_app_nul.
Qed.

Lemma strdup_here pre (s : string) t n :
  n = length pre → forallb not_nul (bytes s) = true →
  strdup (pre ++ bytes s ++ NUL :: t) n = s.
Proof.
  intros Hn Hs. unfold strdup. rewrite string_at_here by done.
  apply string_of_list_ascii_of_string.
Qed.

Lemma token_text_not_nul (s : string) :
  token_text WHITESPACE s = true → forallb not_nul (bytes s) = true.
Proof. apply forallb_impl. intros c. apply token_byte_not_nul. Qed.

(** The two [strtok] calls on a line that starts with two tokens, each
    ended by a delimiter. *)
Lemma strtok_method_uri (m u : list ascii) (d1 d2 : ascii) t :
  m ≠ [] → u ≠ [] →
  forallb (token_byte WHITESPACE) m = true →
  forallb (token_byte WHITESPACE) u = true →
  delim_byte WHITESPACE d1 = true → delim_byte WHITESPACE d2 = true →
  strtok (m ++ d1 :: u ++ d2 :: t) 0 WHITESPACE
  = (Some 0, m ++ NUL :: u ++ d2 :: t, length m + 1)
  ∧ strtok (m ++ NUL :: u ++ d2 :: t) (length m + 1) WHITESPACE
    = (Some (length m + 1), m ++ NUL :: u ++ NUL :: t,
       length m + 1 + length u + 1).
Proof.
  intros Hm Hu Htm Htu Hd1 Hd2. split.
  - apply (strtok_token WHITESPACE [] m d1 (u ++ d2 :: t) Hm Htm Hd1).
  - pose proof (strtok_token WHITESPACE (m ++ [NUL]) u d2 t Hu Htu Hd2) as H.
    rewrite length_app in H. simpl in H.
    by rewrite <- !app_assoc in H.
Qed.

End RequestLine.

(** The request line in the buffer: for a buffer content
    [METHOD URI?QUERY HTTP/V] with its newline, where METHOD, URI and
    QUERY hold no delimiter (and URI no [?]), parse_request_method
    succeeds and stores method = METHOD, uri = URI (the text before the
    first [?]) and query = QUERY (the text behind it); without [?] the
    query member is not assigned. *)
Lemma parse_request_method_on_request_line (WHITESPACE : list ascii)
    (r : Request) (METHOD URI : string) (QUERY : option string) (V : string)
    (rest : list (list ascii)) :
  delim_byte WHITESPACE " " = true → token_byte WHITESPACE "?" = true →
  METHOD ≠ EmptyString → token_text WHITESPACE METHOD = true →
  token_text WHITESPACE URI = true → no_question_mark URI = true →
  match QUERY with
  | Some q => token_text WHITESPACE q = true
  | None => URI ≠ EmptyString
  end →
  pending (r_file r) = request_line METHOD URI QUERY V :: rest →
  ∃ r', parse_request_method WHITESPACE r = (0%Z, r')
        ∧ r_method r' = Some METHOD
        ∧ r_uri r' = Some URI
        ∧ r_query r' = match QUERY with Some q => Some q | None => r_query r end
        ∧ pending (r_file r') = rest.
Proof.
  intros Hsp Hqm HM HtM HtU HnoQ HQ Hpending.
  assert (bytes METHOD ≠ []) as HM' by (by destruct METHOD).
  pose proof (token_text_not_nul _ _ HtM) as HnM.
  pose proof (token_text_not_nul _ _ HtU) as HnU.
  unfold parse_request_method, fgets. rewrite Hpending.
  set (t := bytes "HTTP/" ++ bytes V ++ ["010"%char] ++ [NUL]).
  set (f := mkFILE rest (written (r_file r)) (flush_fails (r_file r))).
  destruct QUERY as [q|].
  - (* URI?QUERY *)
    pose proof (token_text_not_nul _ _ HQ) as Hnq.
    set (u := bytes URI ++ "?"%char :: bytes q).
    assert (request_line METHOD URI (Some q) V ++ [NUL]
            = bytes METHOD ++ " "%char :: u ++ " "%char :: t) as ->.
    { unfold request_line, u, t, bytes. by flatten_app. }
    assert (u ≠ []) as Hu by (unfold u; by destruct (bytes URI)).
    assert (forallb (token_byte WHITESPACE) u = true) as Htu.
    { unfold u. rewrite forallb_app. simpl. unfold token_text in HtU, HQ.
      by rewrite HtU, Hqm, HQ. }
    destruct (strtok_method_uri WHITESPACE (bytes METHOD) u " " " " t
                HM' Hu HtM Htu Hsp Hsp) as [-> ->].
    set (uri := length (bytes METHOD) + 1).
    assert (bytes METHOD ++ NUL :: u ++ NUL :: t
            = (bytes METHOD ++ [NUL]) ++ bytes URI ++ "?"%char :: bytes q ++ NUL :: t)
      as Hb2.
    { unfold u. by flatten_app. }
    assert (uri = length (bytes METHOD ++ [NUL])) as Huri
      by (by rewrite length_app).
    assert (strchr (bytes METHOD ++ NUL :: u ++ NUL :: t) uri "?"
            = Some (uri + length (bytes URI))) as ->.
    { unfold strchr. rewrite Hb2, drop_at by done.
      rewrite find_char_here; [done|].
      unfold no_question_mark in HnoQ. clear -HnoQ HnU.
      induction (bytes URI) as [|c l IH]; [done|]. simpl in *.
      apply andb_prop in HnoQ as [-> ?], HnU as [-> ?]. simpl. by apply IH. }
    assert (strlen (bytes METHOD ++ NUL :: u ++ NUL :: t) uri = length u) as ->.
    { unfold strlen.
      replace (bytes METHOD ++ NUL :: u ++ NUL :: t)
        with ((bytes METHOD ++ [NUL]) ++ u ++ NUL :: t)
        by (by flatten_app).
      rewrite string_at_here; [done..|].
      eapply forallb_impl; [|exact Htu]. intros c. apply token_byte_not_nul. }
    assert (strlen (bytes METHOD ++ NUL :: u ++ NUL :: t) (uri + length (bytes URI) + 1)
            = length (bytes q)) as ->.
    { unfold strlen.
      replace (bytes METHOD ++ NUL :: u ++ NUL :: t)
        with ((bytes METHOD ++ [NUL] ++ bytes URI ++ ["?"%char]) ++ bytes q ++ NUL :: t)
        by (unfold u; by flatten_app).
      rewrite string_at_here; [done| |done].
      rewrite !length_app. simpl. unfold uri. lia. }
    replace (uri + length u - length (bytes q) - 1) with (uri + length (bytes URI))
      by (unfold u; rewrite length_app; simpl; lia).
    assert (<[uri + length (bytes URI) := NUL]> (bytes METHOD ++ NUL :: u ++ NUL :: t)
            = bytes METHOD ++ NUL :: bytes URI ++ NUL :: bytes q ++ NUL :: t) as ->.
    { rewrite Hb2, app_assoc.
      rewrite insert_at by (rewrite length_app; lia).
      by flatten_app. }
    eexists. split; [reflexivity|]. simpl. split_and!; [..|done].
    + f_equal. by apply (strdup_here [] METHOD).
    + f_equal.
      replace (bytes METHOD ++ NUL :: bytes URI ++ NUL :: bytes q ++ NUL :: t)
        with ((bytes METHOD ++ [NUL]) ++ bytes URI ++ NUL :: bytes q ++ NUL :: t)
        by (by flatten_app).
      by apply strdup_here.
    + f_equal.
      replace (bytes METHOD ++ NUL :: bytes URI ++ NUL :: bytes q ++ NUL :: t)
        with ((bytes METHOD ++ [NUL] ++ bytes URI ++ [NUL]) ++ bytes q ++ NUL :: t)
        by (by flatten_app).
      apply strdup_here; [|done]. rewrite !length_app. simpl. unfold uri. lia.
  - (* no query *)
    assert (bytes URI ≠ []) as HU' by (by destruct URI).
    assert (request_line METHOD URI None V ++ [NUL]
            = bytes METHOD ++ " "%char :: bytes URI ++ " "%char :: t) as ->.
    { unfold request_line, t, bytes. by flatten_app. }
    destruct (strtok_method_uri WHITESPACE (bytes METHOD) (bytes URI) " " " " t
                HM' HU' HtM HtU Hsp Hsp) as [-> ->].
    set (uri := length (bytes METHOD) + 1).
    assert (bytes METHOD ++ NUL :: bytes URI ++ NUL :: t
            = (bytes METHOD ++ [NUL]) ++ bytes URI ++ NUL :: t) as Hb2
      by (by flatten_app).
    assert (uri = length (bytes METHOD ++ [NUL])) as Huri
      by (by rewrite length_app).
    assert (strchr (bytes METHOD ++ NUL :: bytes URI ++ NUL :: t) uri "?" = None) as ->.
    { unfold strchr. rewrite Hb2, drop_at by done.
      by rewrite find_char_absent. }
    eexists. split; [reflexivity|]. simpl. split_and!; [..|done|done].
    + f_equal. by apply (strdup_here [] METHOD).
    + f_equal. rewrite Hb2. by apply strdup_here.
Qed.


Section Pieces.

Local Arguments Ascii.eqb : simpl never.

(** A line that fits is one piece. *)
Lemma fgets_piece_line (body more : list ascii) : ∀ n,
  newline_free body = true → length body < n →
  fgets_piece n (body ++ "010"%char :: more) = body ++ ["010"%char].
Proof.
  induction body as [|c body IH]; intros n Hb Hn.
  - destruct n; [lia|]. done.
  - destruct n; [simpl in Hn; lia|].
    simpl in Hb. apply andb_prop in Hb as [Hc Hb]. apply negb_true_iff in Hc.
    simpl. rewrite Hc. f_equal. apply IH; [done|simpl in Hn; lia].
Qed.

Lemma fgets_piece_nonempty n c input :
  0 < length (fgets_piece (S n) (c :: input)).
Proof. simpl. destruct (Ascii.eqb c "010"); simpl; lia. Qed.

(** Every call takes a byte, so the pieces do not depend on the passes
    allowed beyond the number of bytes. *)
Lemma fgets_loop_fuel n : ∀ fuel1 fuel2 input,
  length input ≤ fuel1 → length input ≤ fuel2 →
  fgets_loop fuel1 (S n) input = fgets_loop fuel2 (S n) input.
Proof.
  induction fuel1 as [|fuel1 IH]; intros fuel2 input H1 H2.
  - destruct input; [by destruct fuel2|simpl in H1; lia].
  - destruct input as [|c input]; [by destruct fuel2|].
    destruct fuel2 as [|fuel2]; [simpl in H2; lia|].
    cbn [fgets_loop]. f_equal.
    pose proof (fgets_piece_nonempty n c input).
    apply IH; rewrite length_drop; simpl in *; lia.
Qed.

Lemma fgets_pieces_line (BUFSIZ : nat) (body more : list ascii) :
  newline_free body = true → length body + 1 < BUFSIZ →
  fgets_pieces BUFSIZ ((body ++ ["010"%char]) ++ more)
  = (body ++ ["010"%char]) :: fgets_pieces BUFSIZ more.
Proof.
  intros Hb Hn. unfold fgets_pieces.
  destruct BUFSIZ as [|[|n]]; [lia..|].
  replace (S (S n) - 1) with (S n) by lia.
  rewrite <- app_assoc. cbn [app].
  destruct (body ++ "010"%char :: more) as [|c input] eqn:E;
    [by destruct body|].
  cbn [length fgets_loop]. rewrite <- E.
  rewrite fgets_piece_line by (done || lia).
  f_equal.
  replace (body ++ "010"%char :: more) with ((body ++ ["010"%char]) ++ more)
    by (by rewrite <- app_assoc).
  rewrite drop_app_length.
  apply fgets_loop_fuel; [|done].
  assert (length (c :: input) = length body + S (length more)) as Hl
    by (rewrite <- E, length_app; done).
  simpl in Hl. lia.
Qed.

End Pieces.

(** C2, as stated, fails for a request line that does not fit the buffer:
    parse_request_method reads with one [fgets] into a buffer of BUFSIZ
    bytes, so of a longer line it sees the first BUFSIZ - 1 bytes only.
    With BUFSIZ = 8192 and a URI of 9001 bytes, the stored URI has 8187
    bytes and the query, which lies behind them, is not stored. *)
Lemma parse_request_method_long_line_loses_query :
  let URI := "/" +:+ string_of_list_ascii (repeat "a"%char (9 * 1000)) in
  let line := request_line "GET" URI (Some "q=1") "1.0" in
  let r := mkRequest 0 (mkFILE (fgets_pieces (2 ^ 13) line) EmptyString false)
             None None None None EmptyString EmptyString None [] in
  (parse_request_method blank_tab_newline r).1 = 0%Z
  ∧ r_method (parse_request_method blank_tab_newline r).2 = Some "GET"
  ∧ r_query (parse_request_method blank_tab_newline r).2 = None
  ∧ (Z.of_nat ∘ String.length <$> r_uri (parse_request_method blank_tab_newline r).2)
    = Some 8187%Z
  ∧ Z.of_nat (String.length URI) = 9001%Z.
Proof. vm_compute. done. Qed.

(** C2, amended: for a request line [METHOD URI?QUERY HTTP/V] with its
    newline that fits the buffer (fewer than BUFSIZ bytes, the newline
    included), where METHOD, URI and QUERY hold no delimiter (and URI no
    [?]) and the line no newline but its last byte, parse_request_method
    succeeds and stores method = METHOD, uri = URI (the text before the
    first [?]) and query = QUERY (the text behind it); for a request line
    without [?] the query member is not assigned: it stays as it was,
    NULL for a request that comes from accept_request.  What follows the
    line in the stream is left for the header phase. *)
Theorem parse_request_method_splits_uri_and_query (WHITESPACE : list ascii)
    (BUFSIZ : nat) (r : Request) (METHOD URI : string) (QUERY : option string)
    (V : string) (more : list ascii) :
  delim_byte WHITESPACE " " = true → token_byte WHITESPACE "?" = true →
  METHOD ≠ EmptyString → token_text WHITESPACE METHOD = true →
  token_text WHITESPACE URI = true → no_question_mark URI = true →
  match QUERY with
  | Some q => token_text WHITESPACE q = true
  | None => URI ≠ EmptyString
  end →
  newline_free (bytes METHOD ++ bytes URI ++ bytes (default EmptyString QUERY)
                ++ bytes V) = true →
  length (request_line METHOD URI QUERY V) < BUFSIZ →
  pending (r_file r) = fgets_pieces BUFSIZ (request_line METHOD URI QUERY V ++ more) →
  ∃ r', parse_request_method WHITESPACE r = (0%Z, r')
        ∧ r_method r' = Some METHOD
        ∧ r_uri r' = Some URI
        ∧ r_query r' = match QUERY with Some q => Some q | None => r_query r end
        ∧ pending (r_file r') = fgets_pieces BUFSIZ more.
Proof.
  intros Hsp Hqm HM HtM HtU HnoQ HQ Hnl Hfit Hpending.
  apply (parse_request_method_on_request_line WHITESPACE r METHOD URI QUERY V
           (fgets_pieces BUFSIZ more)); try done.
  rewrite Hpending.
  set (body := bytes METHOD ++ [" "%char] ++ bytes URI
                 ++ match QUERY with
                    | Some q => ["?"%char] ++ bytes q
                    | None => []
                    end
                 ++ [" "%char] ++ bytes "HTTP/" ++ bytes V).
  assert (request_line METHOD URI QUERY V = body ++ ["010"%char]) as Hline.
  { unfold request_line, body. by rewrite <- !app_assoc. }
  rewrite Hline. apply fgets_pieces_line.
  - unfold newline_free in *. unfold body.
    rewrite !forallb_app in Hnl. rewrite !forallb_app.
    apply andb_prop in Hnl as [H1 [H2 [H3 H4]%andb_prop]%andb_prop].
    rewrite H1, H2, H4. destruct QUERY as [q|]; simpl in *; [by rewrite H3|done].
  - rewrite Hline, length_app in Hfit. simpl in Hfit. lia.
Qed.

Lemma parse_request_method_splits_uri_and_query_witness :
  let stream := bytes ("GET /cgi.script?q=foo HTTP/1.0" +:+ LF
                         +:+ "Host: example.org" +:+ LF +:+ LF) in
  let r := mkRequest 0 (mkFILE (fgets_pieces (2 ^ 13) stream) EmptyString false)
             None None None None EmptyString EmptyString None [] in
  ∃ r', parse_request_method blank_tab_newline r = (0%Z, r')
        ∧ r_method r' = Some "GET"
        ∧ r_uri r' = Some "/cgi.script"
        ∧ r_query r' = match Some "q=foo" with Some q => Some q | None => r_query r end
        ∧ pending (r_file r')
          = fgets_pieces (2 ^ 13) (bytes ("Host: example.org" +:+ LF +:+ LF)).
Proof.
  intros stream r.
  apply (parse_request_method_splits_uri_and_query blank_tab_newline (2 ^ 13) r
           "GET" "/cgi.script" (Some "q=foo") "1.0"
           (bytes ("Host: example.org" +:+ LF +:+ LF)));
    first [reflexivity | discriminate | (apply Nat.ltb_lt; reflexivity)].
Defined.

(** A request line without a query leaves the query member NULL. *)
Example parse_request_method_without_query :
  let '(ret, r) := parse_request_method blank_tab_newline
                     (fresh_request ["GET / HTTP/1.1" +:+ LF]) in
  ret = 0%Z ∧ r_method r = Some "GET" ∧ r_uri r = Some "/" ∧ r_query r = None.
Proof. vm_compute. done. Qed.

(* ===================================================================== *)
(** ** request.c: the header chain *)
(* ===================================================================== *)

Section HeaderChain.

Implicit Types (hs xs : list (string * string)) (x : string * string).

Lemma cstr_snoc_nul (l : list ascii) : cstr (l ++ [NUL]) = cstr l.
Proof.
  induction l as [|c l IH]; [done|]. simpl. by rewrite IH.
Qed.

Lemma streq_spec (line : list ascii) (lit : string) :
  streq (line ++ [NUL]) 0 lit = true ↔ cstr line = bytes lit.
Proof.
  unfold streq, string_at. rewrite drop_0, cstr_snoc_nul.
  by rewrite bool_decide_eq_true.
Qed.

Lemma streq_terminator (line : list ascii) :
  ¬ terminator line →
  streq (line ++ [NUL]) 0 (String "010" EmptyString)
  || streq (line ++ [NUL]) 0 (String "013" (String "010" EmptyString)) = false.
Proof.
  intros Hnt. apply orb_false_intro; apply not_true_is_false;
    rewrite streq_spec; intros H; apply Hnt; [by left|by right].
Qed.

Lemma streq_is_terminator (line : list ascii) :
  terminator line →
  streq (line ++ [NUL]) 0 (String "010" EmptyString)
  || streq (line ++ [NUL]) 0 (String "013" (String "010" EmptyString)) = true.
Proof.
  intros [H|H]; apply orb_true_intro; [left|right]; by apply streq_spec.
Qed.

Lemma length_store hs : length (store hs) = length hs.
Proof.
  destruct hs as [|a [|b tl]]; [done..|]. simpl. by rewrite length_map.
Qed.

(** Linking one more header: the head keeps the first cell, [curr] keeps
    the second, and it is the second cell whose [next] is overwritten. *)
Lemma link_step hs x :
  link_header (store hs ++ [cell x None]) (head_ptr hs) (curr_ptr hs)
              (length (store hs))
  = Some (store (hs ++ [x]), head_ptr (hs ++ [x]), curr_ptr (hs ++ [x])).
Proof.
  destruct hs as [|a [|b tl]]; [done..|].
  rewrite length_store.
  cbn [store head_ptr curr_ptr app link_header].
  cbn [lookup list_lookup fmap option_fmap option_map h_next cell mbind option_bind
       set_next h_name h_value insert list_insert].
  repeat f_equal.
  - destruct tl; simpl; f_equal; rewrite ?length_app; simpl; lia.
  - by rewrite map_app.
Qed.

(** The loop over a block of header lines, up to the terminator or the
    end of the stream. *)
Lemma headers_loop_block (lines : list (list ascii)) xs :
  Forall2 yields_header lines xs →
  ∀ hs tail,
    (tail = [] ∨ ∃ t rest, tail = t :: rest ∧ terminator t) →
    headers_loop (lines ++ tail) (store hs) (head_ptr hs) (curr_ptr hs)
    = Some (0%Z, List.tl tail, store (hs ++ xs), head_ptr (hs ++ xs)).
Proof.
  induction 1 as [|line x lines xs [Hnt Hsplit] _ IH]; intros hs tail Htail.
  - rewrite app_nil_r. simpl.
    destruct Htail as [->|(t & rest & -> & Ht)]; [done|].
    simpl. by rewrite streq_is_terminator.
  - simpl. rewrite streq_terminator by done. rewrite Hsplit.
    change (mkHeader x.1 (Some x.2) None) with (cell x None).
    rewrite link_step. rewrite (IH (hs ++ [x]) tail Htail).
    by rewrite <- !app_assoc.
Qed.

Lemma lookup_last {A} (l : list A) (c : A) :
  (c :: l) !! length l = Some (List.last l c).
Proof.
  destruct l as [|y l _] using rev_ind; [done|].
  rewrite List.last_last, app_comm_cons.
  apply list_lookup_middle. rewrite length_app. simpl. lia.
Qed.

Lemma last_map {A B} (f : A → B) (l : list A) (c : A) :
  List.last (map f l) (f c) = f (List.last l c).
Proof.
  destruct l as [|y l _] using rev_ind; [done|].
  rewrite map_app. simpl. by rewrite !List.last_last.
Qed.

(** Reading the chain back gives the first, the second and the last. *)
Lemma chain_store hs :
  map (λ h, (h_name h, h_value h)) (chain (length (store hs)) (store hs) (head_ptr hs))
  = map (λ x, (x.1, Some x.2)) (kept_headers hs).
Proof.
  destruct hs as [|a [|b [|c tl]]]; [done..|].
  rewrite length_store. cbn [length store head_ptr kept_headers chain].
  cbn [lookup list_lookup h_next cell].
  change (map (λ x, cell x None) (c :: tl))
    with (cell c None :: map (λ x, cell x None) tl).
  cbn [length lookup list_lookup].
  replace (map (λ x, cell x None) tl !! length tl)
    with (@None Header)
    by (symmetry; apply lookup_ge_None; by rewrite length_map).
  assert ((cell c None :: map (λ x, cell x None) tl) !! length tl
          = Some (cell (List.last tl c) None)) as Hlast.
  { replace (length tl) with (length (map (λ x, cell x None) tl))
      by apply length_map.
    rewrite lookup_last. f_equal.
    apply (last_map (λ x, cell x None)). }
  match goal with
  | |- context [match ?t with Some _ => _ | None => _ end] =>
      change t with ((cell c None :: map (λ x, cell x None) tl) !! length tl)
  end.
  rewrite Hlast. cbn [h_next cell]. by destruct (length tl).
Qed.

End HeaderChain.

(** C1: a block of header lines does not end up as a list of all its
    headers in order.  When the lines of the block yield the headers [xs]
    in order of arrival, parse_request_headers succeeds and leaves the
    request with the chain first, second, last: the branch that links a
    third or later header assigns [curr->next] without advancing [curr],
    so each of them replaces the one linked before it.  Up to two headers
    are all kept; of four, the third is lost. *)
Theorem parse_request_headers_keeps_first_second_last (r : Request)
    (lines tail : list (list ascii)) (xs : list (string * string)) :
  r_headers r = None → r_cells r = [] →
  Forall2 yields_header lines xs →
  (tail = [] ∨ ∃ t rest, tail = t :: rest ∧ terminator t) →
  pending (r_file r) = lines ++ tail →
  ∃ r', parse_request_headers r = Some (0%Z, r')
        ∧ header_pairs r' = map (λ x, (x.1, Some x.2)) (kept_headers xs)
        ∧ pending (r_file r') = List.tl tail.
Proof.
  intros Hh Hc Hlines Htail Hpending.
  unfold parse_request_headers. rewrite Hpending, Hh, Hc.
  pose proof (headers_loop_block lines xs Hlines [] tail Htail) as Hloop.
  change (headers_loop (lines ++ tail) [] None None
          = Some (0%Z, List.tl tail, store xs, head_ptr xs)) in Hloop.
  rewrite Hloop.
  eexists. split; [reflexivity|]. split; [|done].
  unfold header_pairs, header_list. simpl. apply chain_store.
Qed.

Lemma parse_request_headers_keeps_first_second_last_witness :
  let block := map bytes ["Host: example.org" +:+ LF; "Accept: text/html" +:+ LF;
                          "Connection: close" +:+ LF; "User-Agent: curl" +:+ LF] in
  let r := mkRequest 0 (mkFILE (block ++ [bytes LF]) EmptyString false)
             (Some "GET") (Some "/") None None EmptyString EmptyString None [] in
  ∃ r', parse_request_headers r = Some (0%Z, r')
        ∧ header_pairs r'
          = map (λ x, (x.1, Some x.2))
              (kept_headers [("Host", "example.org"); ("Accept", "text/html");
                             ("Connection", "close"); ("User-Agent", "curl")])
        ∧ pending (r_file r') = List.tl [bytes LF].
Proof.
  intros block r.
  apply (parse_request_headers_keeps_first_second_last r block [bytes LF]
           [("Host", "example.org"); ("Accept", "text/html");
            ("Connection", "close"); ("User-Agent", "curl")]).
  - reflexivity.
  - reflexivity.
  - repeat constructor; try reflexivity; intros [H|H]; discriminate H.
  - right. exists (bytes LF), []. split; [reflexivity|]. left. reflexivity.
  - reflexivity.
Defined.

(** The same block through the whole parser: the request arrives with
    four headers and is left with three; [Connection] is gone. *)
Example parse_request_loses_third_header :
  (λ '(ret, r), (ret, header_pairs r))
    <$> parse_request blank_tab_newline
          (fresh_request ["GET / HTTP/1.0" +:+ LF;
                          "Host: example.org" +:+ LF; "Accept: text/html" +:+ LF;
                          "Connection: close" +:+ LF; "User-Agent: curl" +:+ LF; LF])
  = Some (0%Z, [("Host", Some "example.org"); ("Accept", Some "text/html");
                ("User-Agent", Some "curl")]).
Proof. vm_compute. done. Qed.

(* ===================================================================== *)
(** ** request.c and handler.c: duplicate headers *)
(* ===================================================================== *)

Section Duplicates.

Lemma last_filter_cons {A} (P : A → Prop) `{!∀ x, Decision (P x)} (x : A) (l : list A) :
  last (filter P (x :: l)) =
    match last (filter P l) with
    | Some y => Some y
    | None => if decide (P x) then Some x else None
    end.
Proof.
  rewrite filter_cons.
  destruct (decide (P x)); [|by destruct (last _)].
  destruct (filter P l) as [|y l'] eqn:E; [done|].
  rewrite last_cons. by destruct (last (y :: l')) eqn:E'; [|by destruct l'].
Qed.

(** A chain that holds the headers [ks], each with its value: the last
    header of a name in the chain is the last of that name in [ks]. *)
Lemma last_named_pairs (name : string) : ∀ (hs : list Header) (ks : list (string * string)),
  map (λ h, (h_name h, h_value h)) hs = map (λ x, (x.1, Some x.2)) ks →
  Forall (λ h, is_Some (h_value h)) hs
  ∧ (h_value <$> last_named name hs)
    = ((λ x, Some x.2) <$> last (filter (λ x, x.1 = name) ks)).
Proof.
  induction hs as [|h hs IH]; intros [|k ks] Hmap; try done.
  injection Hmap as Hn Hv Hmap.
  destruct (IH ks Hmap) as [Hall Hlast].
  split; [constructor; [by rewrite Hv|done]|].
  rewrite last_named_cons, last_filter_cons.
  destruct (last_named name hs) as [h'|], (last (filter _ ks)) as [k'|];
    try done.
  rewrite Hn. destruct (decide (k.1 = name)); [|done].
  simpl. by rewrite Hv.
Qed.

End Duplicates.

(** C10 fails on the code, by the defect of C1.  The loop of
    handle_cgi_request does let a later header overwrite what an earlier
    one of the same name set, but it runs over the chain the parser
    left, and that chain holds the first, the second and the last header
    of the block only.  For a request whose header block yields the
    headers [xs] in order of arrival, the variable of an allow-listed
    name has the value of the last header of that name among the headers
    kept, not among the headers that arrived: a duplicate that arrives
    third or later, and not last, is never seen. *)
Theorem cgi_exports_last_kept_duplicate (g : Globals) (r : Request)
    (lines tail : list (list ascii)) (xs : list (string * string))
    (path name : string) (env : gmap string string) :
  r_headers r = None → r_cells r = [] →
  is_Some (r_method r) → is_Some (r_uri r) →
  Forall2 yields_header lines xs →
  (tail = [] ∨ ∃ t rest, tail = t :: rest ∧ terminator t) →
  pending (r_file r) = lines ++ tail →
  name ∈ exported_names →
  ∃ r' env',
    parse_request_headers r = Some (0%Z, r')
    ∧ cgi_environment g (set_path (Some path) r') env = Some env'
    ∧ env' !! cgi_variable name
      = match last_kept name xs with
        | Some x => Some x.2
        | None => env !! cgi_variable name
        end.
Proof.
  intros Hh Hc Hm Hu Hlines Htail Hpending Hname.
  unfold parse_request_headers. rewrite Hpending, Hh, Hc.
  pose proof (headers_loop_block lines xs Hlines [] tail Htail) as Hloop.
  change (headers_loop (lines ++ tail) [] None None
          = Some (0%Z, List.tl tail, store xs, head_ptr xs)) in Hloop.
  rewrite Hloop.
  set (r' := set_headers (head_ptr xs) (store xs) _).
  assert (header_list (set_path (Some path) r')
          = chain (length (store xs)) (store xs) (head_ptr xs)) as Hlist by done.
  destruct (last_named_pairs name _ _ (chain_store xs)) as [Hall Hlast].
  destruct (cgi_environment_base g (set_path (Some path) r') env) as (env8 & He & Hbase);
    [done|done|by eexists|].
  rewrite Hlist in He.
  destruct (export_headers_spec _ env8 Hall) as (env' & He' & Hn & _).
  exists r', env'. split; [done|]. split; [by rewrite He|].
  rewrite (Hn name Hname). unfold last_kept.
  destruct (last_named name _) as [h|], (last (filter _ (kept_headers xs))) as [x|];
    try done.
  - by injection Hlast.
  - by apply Hbase, cgi_variable_not_base.
Qed.

Lemma cgi_exports_last_kept_duplicate_witness :
  let block := map bytes ["Accept: text/html" +:+ LF; "Host: example.org" +:+ LF;
                          "Accept: image/png" +:+ LF; "Connection: close" +:+ LF] in
  let r := mkRequest 0 (mkFILE (block ++ [bytes LF]) EmptyString false)
             (Some "GET") (Some "/hello.cgi") None None EmptyString EmptyString None [] in
  ∃ r' env',
    parse_request_headers r = Some (0%Z, r')
    ∧ cgi_environment initial_globals (set_path (Some "/srv/www/hello.cgi") r') ∅
      = Some env'
    ∧ env' !! cgi_variable "Accept" = Some "text/html".
Proof.
  intros block r.
  apply (cgi_exports_last_kept_duplicate initial_globals r block [bytes LF]
           [("Accept", "text/html"); ("Host", "example.org");
            ("Accept", "image/png"); ("Connection", "close")]
           "/srv/www/hello.cgi" "Accept" ∅).
  - reflexivity.
  - reflexivity.
  - simpl. eauto.
  - simpl. eauto.
  - repeat constructor; try reflexivity; intros [H|H]; discriminate H.
  - right. exists (bytes LF), []. split; [reflexivity|]. left. reflexivity.
  - reflexivity.
  - unfold exported_names. rewrite !elem_of_cons. tauto.
Defined.

(* ===================================================================== *)
(** ** request.c: request lines that lack a token *)
(* ===================================================================== *)

Section MissingToken.

Variable WHITESPACE : list ascii.
Implicit Types (pre p tok post s t : list ascii) (d : ascii).

Local Arguments Ascii.eqb : simpl never.
Local Arguments is_nul : simpl never.

(** Nothing but delimiters up to the terminator: [strtok] returns NULL. *)
Lemma strtok_none pre s t :
  forallb (delim_byte WHITESPACE) s = true →
  (strtok (pre ++ s ++ NUL :: t) (length pre) WHITESPACE).1.1 = None.
Proof.
  intros Hs. unfold strtok, strspn.
  destruct (is_nul (deref _ (length pre))); [done|].
  rewrite (drop_at pre) by done.
  rewrite (span_delims WHITESPACE s) by done. rewrite span_nul, Nat.add_0_r.
  rewrite app_assoc.
  rewrite (deref_at (pre ++ s) NUL) by (by rewrite length_app).
  done.
Qed.

Lemma head_not_nul pre p tok t :
  tok ≠ [] → forallb (delim_byte WHITESPACE) p = true →
  forallb (token_byte WHITESPACE) tok = true →
  is_nul (deref (pre ++ p ++ tok ++ t) (length pre)) = false.
Proof.
  intros Hne Hp Htok. destruct p as [|c p].
  - destruct tok as [|c tok]; [done|]. simpl in Htok.
    apply andb_prop in Htok as [[Hc _]%andb_prop _].
    simpl. rewrite (deref_at pre c) by done. by apply negb_true_iff.
  - simpl in Hp. apply andb_prop in Hp as [[Hc _]%andb_prop _].
    simpl. rewrite (deref_at pre c) by done. by apply negb_true_iff.
Qed.

(** Leading delimiters, then a token: [strtok] returns the token, and
    either replaces the delimiter behind it by NUL or, at the end of the
    string, leaves the buffer alone. *)
Lemma strtok_leading pre p tok d t :
  tok ≠ [] → forallb (delim_byte WHITESPACE) p = true →
  forallb (token_byte WHITESPACE) tok = true →
  (delim_byte WHITESPACE d = true →
     strtok (pre ++ p ++ tok ++ d :: t) (length pre) WHITESPACE
     = (Some (length pre + length p), pre ++ p ++ tok ++ NUL :: t,
        length pre + length p + length tok + 1))
  ∧ strtok (pre ++ p ++ tok ++ NUL :: t) (length pre) WHITESPACE
    = (Some (length pre + length p), pre ++ p ++ tok ++ NUL :: t,
       length pre + length p + length tok).
Proof.
  intros Hne Hp Htok.
  assert (∀ x, strtok (pre ++ p ++ tok ++ x :: t) (length pre) WHITESPACE
               = if is_nul x || mem x WHITESPACE
                 then if is_nul x
                      then (Some (length pre + length p),
                            pre ++ p ++ tok ++ x :: t,
                            length pre + length p + length tok)
                      else (Some (length pre + length p),
                            pre ++ p ++ tok ++ NUL :: t,
                            length pre + length p + length tok + 1)
                 else strtok (pre ++ p ++ tok ++ x :: t) (length pre) WHITESPACE)
    as Hgen.
  { intros x. destruct (is_nul x || mem x WHITESPACE) eqn:Hx; [|done].
    unfold strtok at 1, strspn, strcspn.
    rewrite (head_not_nul pre p tok (x :: t)) by done.
    rewrite (drop_at pre) by done.
    rewrite (span_delims WHITESPACE p) by done.
    destruct tok as [|c tok]; [done|].
    simpl in Htok. apply andb_prop in Htok as [Hc Htok].
    change ((c :: tok) ++ x :: t) with (c :: (tok ++ x :: t)).
    rewrite (span_token WHITESPACE c) by done. rewrite Nat.add_0_r.
    rewrite (app_assoc pre p).
    rewrite (deref_at (pre ++ p) c) by (by rewrite length_app).
    pose proof (token_byte_not_nul _ _ Hc) as Hcn.
    unfold not_nul in Hcn. apply negb_true_iff in Hcn. rewrite Hcn.
    rewrite (drop_at (pre ++ p)) by (by rewrite length_app).
    change (c :: tok ++ x :: t) with ((c :: tok) ++ x :: t).
    rewrite (cspan_tokens WHITESPACE (c :: tok)) by (simpl; by rewrite Hc, Htok).
    assert (cspan WHITESPACE (x :: t) = 0) as -> by (simpl; by rewrite Hx).
    rewrite Nat.add_0_r.
    rewrite (app_assoc (pre ++ p)).
    rewrite (deref_at ((pre ++ p) ++ c :: tok) x)
      by (rewrite !length_app; simpl; lia).
    destruct (is_nul x) eqn:Hnx.
    - by rewrite <- !app_assoc.
    - rewrite (insert_at ((pre ++ p) ++ c :: tok) x NUL)
        by (rewrite !length_app; simpl; lia).
      by rewrite <- !app_assoc. }
  split.
  - intros [Hdn Hdm]%andb_prop. rewrite Hgen.
    unfold not_nul in Hdn. apply negb_true_iff in Hdn. rewrite Hdn, Hdm. done.
  - by rewrite Hgen.
Qed.

Lemma parse_request_method_frame r m r1 line rest :
  pending (r_file r) = line :: rest →
  parse_request_method WHITESPACE r = (m, r1) →
  pending (r_file r1) = rest
  ∧ flush_fails (r_file r1) = flush_fails (r_file r)
  ∧ r_headers r1 = r_headers r ∧ r_cells r1 = r_cells r.
Proof.
  intros Hp. unfold parse_request_method, fgets. rewrite Hp.
  destruct (strtok _ 0 WHITESPACE) as [[[method|] b1] save]; [|by intros [= <- <-]].
  destruct (strtok b1 save WHITESPACE) as [[[uri|] b2] save2]; [|by intros [= <- <-]].
  destruct (strchr b2 uri "?") as [temp|]; by intros [= <- <-].
Qed.

Lemma parse_request_method_written r m r1 :
  parse_request_method WHITESPACE r = (m, r1) →
  written (r_file r1) = written (r_file r).
Proof.
  unfold parse_request_method, fgets.
  destruct (pending (r_file r)) as [|line rest]; [by intros [= _ <-]|].
  destruct (strtok _ 0 WHITESPACE) as [[[method|] b1] save]; [|by intros [= _ <-]].
  destruct (strtok b1 save WHITESPACE) as [[[uri|] b2] save2]; [|by intros [= _ <-]].
  destruct (strchr b2 uri "?") as [temp|]; by intros [= _ <-].
Qed.

(** A request line without a method or without a URI fails. *)
Lemma parse_request_method_incomplete r line rest :
  pending (r_file r) = line :: rest →
  no_token WHITESPACE line ∨ one_token WHITESPACE line →
  ∃ r1, parse_request_method WHITESPACE r = ((-1)%Z, r1)
        ∧ flush_fails (r_file r1) = flush_fails (r_file r).
Proof.
  intros Hp Hline.
  unfold parse_request_method, fgets. rewrite Hp.
  destruct (cstr_split line) as [junk ->].
  destruct Hline as [Hnone|(p & tok & post & -> & Hpd & Hne & Htok & Hpost)].
  - pose proof (strtok_none [] (cstr line) junk Hnone) as H.
    simpl in H.
    destruct (strtok (cstr line ++ NUL :: junk) 0 WHITESPACE) as [[o b1] save].
    simpl in H. subst o. eauto.
  - rewrite <- !app_assoc.
    destruct post as [|d post].
    + destruct (strtok_leading [] p tok NUL junk Hne Hpd Htok) as [_ H].
      simpl in H. simpl. rewrite H.
      unfold strtok.
      rewrite (app_assoc p tok).
      rewrite (deref_at (p ++ tok) NUL) by (by rewrite length_app).
      eauto.
    + simpl in Hpost. apply andb_prop in Hpost as [Hd Hpost].
      destruct (strtok_leading [] p tok d (post ++ NUL :: junk) Hne Hpd Htok)
        as [H _].
      simpl in H. simpl. rewrite (H Hd).
      pose proof (strtok_none (p ++ tok ++ [NUL]) post junk Hpost) as H2.
      rewrite !length_app in H2. simpl in H2.
      rewrite <- !app_assoc in H2. simpl in H2.
      rewrite Nat.add_assoc in H2.
      destruct (strtok _ (length p + length tok + 1) WHITESPACE) as [[o b1] save].
      simpl in H2. subst o. eauto.
Qed.

End MissingToken.

(* ===================================================================== *)
(** ** request.c: header lines without a colon *)
(* ===================================================================== *)

Section HeaderLines.

Implicit Types (s l t junk : list ascii) (c : ascii).

Local Arguments Ascii.eqb : simpl never.
Local Arguments is_nul : simpl never.
Local Arguments isspace : simpl never.

Lemma find_char_spec c l :
  c ≠ NUL →
  match find_char c l with
  | Some i => cstr l !! i = Some c
  | None => c ∉ cstr l
  end.
Proof.
  intros Hc. induction l as [|x l IH]; simpl.
  - apply not_elem_of_nil.
  - destruct (Ascii.eqb_spec x c) as [->|Hx].
    + destruct (Ascii.eqb_spec c NUL) as [?|Hn]; [done|].
      unfold is_nul. by rewrite (proj2 (Ascii.eqb_neq c NUL) Hn).
    + destruct (is_nul x); [apply not_elem_of_nil|].
      destruct (find_char c l) as [i|]; simpl; [done|].
      rewrite not_elem_of_cons. by split; [congruence|].
Qed.

Lemma run_nonspace_le s t : run_nonspace (s ++ NUL :: t) ≤ length s.
Proof.
  induction s as [|c s IH]; simpl; [done|].
  destruct (is_nul c || isspace c); lia.
Qed.

Lemma run_space_le s t : run_space (s ++ NUL :: t) ≤ length s.
Proof.
  induction s as [|c s IH]; simpl; [done|].
  destruct (negb (is_nul c) && isspace c); lia.
Qed.

Lemma skip_nonwhitespace_le s junk p :
  p ≤ length s → skip_nonwhitespace (s ++ NUL :: junk) p ≤ length s.
Proof.
  intros Hp. unfold skip_nonwhitespace. rewrite drop_app_le by done.
  pose proof (run_nonspace_le (drop p s) junk) as H.
  rewrite length_drop in H. lia.
Qed.

Lemma skip_whitespace_le s junk p :
  p ≤ length s → skip_whitespace (s ++ NUL :: junk) p ≤ length s.
Proof.
  intros Hp. unfold skip_whitespace. rewrite drop_app_le by done.
  pose proof (run_space_le (drop p s) junk) as H.
  rewrite length_drop in H. lia.
Qed.

Lemma trim_back_ge (b : list ascii) (value : nat) : ∀ fuel (back : Z),
  (Z.of_nat value - 1 ≤ back)%Z →
  (Z.of_nat value - 1 ≤ trim_back fuel b value back)%Z.
Proof.
  induction fuel as [|fuel IH]; intros back Hb; simpl; [done|].
  destruct (Z.ltb_spec (Z.of_nat value) back); simpl; [|done].
  destruct (isspace _); [|done]. apply IH. lia.
Qed.

Lemma cstr_app_not_nul s l :
  forallb not_nul s = true → cstr (s ++ l) = s ++ cstr l.
Proof.
  induction s as [|c s IH]; simpl; [done|].
  intros [Hc Hs]%andb_prop. unfold not_nul in Hc.
  apply negb_true_iff in Hc. rewrite Hc. by rewrite IH.
Qed.

(** With no NUL among its first [p] bytes, a string is [p] longer than
    its suffix at [p]. *)
Lemma strlen_suffix (b : list ascii) p :
  p ≤ length b → forallb not_nul (take p b) = true →
  strlen b 0 = p + strlen b p.
Proof.
  intros Hp Hn. unfold strlen, string_at. rewrite drop_0.
  rewrite <- (take_drop p b) at 1.
  rewrite cstr_app_not_nul by done.
  rewrite length_app, length_take. lia.
Qed.

Lemma forallb_take (P : ascii → bool) n s :
  forallb P s = true → forallb P (take n s) = true.
Proof.
  revert n. induction s as [|c s IH]; intros [|n]; simpl; try done.
  intros [-> ?]%andb_prop. by rewrite IH.
Qed.

Lemma forallb_drop (P : ascii → bool) n s :
  forallb P s = true → forallb P (drop n s) = true.
Proof.
  revert n. induction s as [|c s IH]; intros [|n]; simpl; try done.
  intros [_ ?]%andb_prop. by apply IH.
Qed.

(** A buffer content without a colon takes the [goto fail]. *)
Lemma split_header_no_colon (line : list ascii) :
  ¬ has_colon line → split_header (line ++ [NUL]) = NoColon.
Proof.
  intros Hnc. unfold split_header, strchr. rewrite drop_0.
  pose proof (find_char_spec ":" (line ++ [NUL])) as H.
  rewrite cstr_snoc_nul in H.
  destruct (find_char ":" (line ++ [NUL])) as [i|]; [|done].
  destruct Hnc. unfold has_colon. eapply list_elem_of_lookup_2. by apply H.
Qed.

(** A buffer content with a colon yields a header, unless it is the
    lone colon: the offset [strlen(name) - strlen(value) - 2] of the
    write that cuts the name is 2 below the value pointer, and the
    value pointer is at least 2 in every other case. *)
Lemma split_header_defined (line : list ascii) :
  has_colon line → ¬ lone_colon line →
  ∃ name value, split_header (line ++ [NUL]) = Split name value.
Proof.
  intros Hc Hlone. unfold split_header, strchr. rewrite drop_0.
  pose proof (find_char_spec ":" (line ++ [NUL])) as Hf.
  rewrite cstr_snoc_nul in Hf.
  destruct (find_char ":" (line ++ [NUL])) as [i|]; [|by destruct Hf].
  specialize (Hf ltac:(done)). simpl.
  destruct (cstr_split line) as [junk Hb]. rewrite Hb.
  set (s := cstr line) in *. set (b := s ++ NUL :: junk).
  pose proof (cstr_not_nul line) as Hs. fold s in Hs.
  pose proof (lookup_lt_Some _ _ _ Hf) as Hi.
  set (split := skip_nonwhitespace b i).
  set (value := skip_whitespace b split).
  assert (split ≤ length s) as Hsplit
    by (apply skip_nonwhitespace_le; lia).
  assert (value ≤ length s) as Hvalue
    by (by apply skip_whitespace_le).
  assert (2 ≤ value) as Hv2.
  { assert (split ≤ value) by (unfold value, skip_whitespace; lia).
    assert (drop i b = ":"%char :: drop (S i) b) as Hdrop.
    { apply drop_S. unfold b. by rewrite lookup_app_l. }
    assert (split = S i + run_nonspace (drop (S i) b)) as Hsp.
    { unfold split, skip_nonwhitespace. rewrite Hdrop. simpl. lia. }
    destruct i as [|i]; [|lia].
    destruct s as [|c0 [|c s']] eqn:Es; [done| |].
    { destruct Hlone. unfold lone_colon. fold s. rewrite Es.
      simpl in Hf. by injection Hf as ->. }
    simpl in Hs. apply andb_prop in Hs as [_ [Hcn _]%andb_prop].
    unfold not_nul in Hcn. apply negb_true_iff in Hcn.
    assert (drop 1 b = c :: (s' ++ NUL :: junk)) as Hd1 by done.
    rewrite Hd1 in Hsp. simpl in Hsp. rewrite Hcn in Hsp. simpl in Hsp.
    destruct (isspace c) eqn:Hsc; [|lia].
    assert (split = 1) as Hs1 by lia.
    unfold value, skip_whitespace. rewrite Hs1, Hd1. simpl.
    rewrite Hcn, Hsc. simpl. lia. }
  set (back := trim_back (length b) b value
                 (Z.of_nat value + Z.of_nat (strlen b value) - 1)%Z).
  assert (Z.of_nat value - 1 ≤ back)%Z as Hback
    by (apply trim_back_ge; lia).
  set (b' := <[Z.to_nat (back + 1) := NUL]> b).
  assert (strlen b' 0 = value + strlen b' value) as Hlen.
  { apply strlen_suffix.
    - unfold b', b. rewrite length_insert, length_app. simpl. lia.
    - unfold b'. rewrite take_insert_ge by lia.
      unfold b. rewrite take_app_le by done. by apply forallb_take. }
  rewrite Hlen.
  destruct (Z.ltb_spec (Z.of_nat 0 + Z.of_nat (value + strlen b' value)
                        - Z.of_nat (strlen b' value) - 2) 0); [lia|].
  eauto.
Qed.

(** The fuel given to the trimming loop is enough: where it ends, the
    loop condition is false. *)
Lemma trim_back_stops (b : list ascii) (value : nat) : ∀ fuel (back : Z),
  (back - Z.of_nat value < Z.of_nat fuel)%Z →
  (Z.of_nat value <? trim_back fuel b value back)%Z
  && isspace (deref b (Z.to_nat (trim_back fuel b value back))) = false.
Proof.
  induction fuel as [|fuel IH]; intros back Hfuel; simpl.
  - destruct (Z.ltb_spec (Z.of_nat value) back); [lia|done].
  - destruct ((Z.of_nat value <? back)%Z && isspace (deref b (Z.to_nat back))) eqn:E;
      [|done].
    apply IH. lia.
Qed.

(** Trailing whitespace behind a value whose last byte is none: the loop
    steps back over all of it and stops on that byte. *)
Lemma trim_back_spaces pre v sp : ∀ t fuel,
  v ≠ [] → isspace (List.last v NUL) = false →
  forallb isspace sp = true → length sp ≤ fuel →
  trim_back fuel (pre ++ v ++ sp ++ t) (length pre)
    (Z.of_nat (length pre) + Z.of_nat (length v) + Z.of_nat (length sp) - 1)%Z
  = (Z.of_nat (length pre) + Z.of_nat (length v) - 1)%Z.
Proof.
  induction sp as [|x sp IH] using rev_ind; intros t fuel Hv Hlast Hsp Hfuel.
  - rewrite Z.add_0_r. destruct fuel as [|fuel]; [done|]. simpl.
    destruct (Z.ltb_spec (Z.of_nat (length pre))
                (Z.of_nat (length pre) + Z.of_nat (length v) - 1)); [|done].
    simpl.
    destruct v as [|c v _] using rev_ind; [done|].
    rewrite List.last_last in Hlast.
    rewrite length_app in *. simpl in *.
    replace (Z.to_nat (Z.of_nat (length pre) + Z.of_nat (length v + 1) - 1))
      with (length (pre ++ v)) by (rewrite length_app; lia).
    rewrite <- (app_assoc v). simpl. rewrite (app_assoc pre v).
    rewrite deref_at by done. by rewrite Hlast.
  - rewrite forallb_app in Hsp. apply andb_prop in Hsp as [Hsp Hx].
    simpl in Hx. rewrite andb_true_r in Hx.
    rewrite length_app in *. simpl in *.
    destruct fuel as [|fuel]; [lia|]. simpl.
    assert (0 < length v) by (destruct v; [done|simpl; lia]).
    destruct (Z.ltb_spec (Z.of_nat (length pre))
                (Z.of_nat (length pre) + Z.of_nat (length v)
                 + Z.of_nat (length sp + 1) - 1)); [|lia].
    simpl.
    replace (Z.to_nat (Z.of_nat (length pre) + Z.of_nat (length v)
                       + Z.of_nat (length sp + 1) - 1))
      with (length (pre ++ v ++ sp)) by (rewrite !length_app; lia).
    assert (pre ++ v ++ (sp ++ [x]) ++ t = (pre ++ v ++ sp) ++ x :: t) as ->
      by (by rewrite <- !app_assoc).
    rewrite deref_at by done. rewrite Hx.
    assert ((pre ++ v ++ sp) ++ x :: t = pre ++ v ++ sp ++ x :: t) as ->
      by (by rewrite <- !app_assoc).
    replace (Z.of_nat (length pre) + Z.of_nat (length v)
             + Z.of_nat (length sp + 1) - 1 - 1)%Z
      with (Z.of_nat (length pre) + Z.of_nat (length v) + Z.of_nat (length sp) - 1)%Z
      by lia.
    apply IH; [done..|lia].
Qed.

(** A header line of the protocol's form yields its name and its value. *)
Lemma split_header_name_value (NAME VALUE : string) (eol : list ascii) :
  name_text NAME = true → value_text VALUE = true → eol_text eol = true →
  split_header (header_line NAME VALUE eol ++ [NUL]) = Split NAME VALUE.
Proof.
  intros HN HV He. unfold header_line.
  set (n := bytes NAME).
  unfold name_text in HN. fold n in HN. unfold value_text in HV.
  destruct (bytes VALUE) as [|c v'] eqn:Ev; [done|].
  apply andb_prop in HV as [[HVn Hc]%andb_prop Hl].
  apply negb_true_iff in Hc, Hl.
  destruct eol as [|e eol']; [done|]. unfold eol_text in He.
  assert (forallb not_nul (e :: eol') = true) as Hen.
  { eapply forallb_impl; [|exact He]. by intros ? [? _]%andb_prop. }
  assert (forallb isspace (e :: eol') = true) as Hes.
  { eapply forallb_impl; [|exact He]. by intros ? [_ ?]%andb_prop. }
  assert (forallb not_nul n = true) as Hnn.
  { eapply forallb_impl; [|exact HN]. by intros ? [? _]%andb_prop. }
  assert (is_nul c = false) as Hcn.
  { simpl in HVn. apply andb_prop in HVn as [H _]. by apply negb_true_iff. }
  set (b := (n ++ [":"%char; " "%char] ++ (c :: v') ++ e :: eol') ++ [NUL]).
  assert (b = n ++ ":"%char :: " "%char :: c :: (v' ++ e :: eol' ++ [NUL])) as Hb
    by (unfold b; by flatten_app).
  unfold split_header.
  assert (strchr b 0 ":" = Some (length n)) as ->.
  { unfold strchr. rewrite drop_0, Hb. rewrite find_char_here; [done|].
    eapply forallb_impl; [|exact HN]. done. }
  assert (skip_nonwhitespace b (length n) = length n + 1) as ->.
  { unfold skip_nonwhitespace. rewrite Hb, drop_at by done. done. }
  assert (skip_whitespace b (length n + 1) = length n + 2) as ->.
  { unfold skip_whitespace.
    replace b with ((n ++ [":"%char]) ++ " "%char :: c :: (v' ++ e :: eol' ++ [NUL]))
      by (rewrite Hb; by flatten_app).
    rewrite drop_at by (by rewrite length_app).
    cbn [run_space]. rewrite Hcn, Hc. simpl. lia. }
  set (pre := n ++ [":"%char; " "%char]).
  assert (length pre = length n + 2) as Hpre by (unfold pre; by rewrite length_app).
  assert (b = pre ++ (c :: v') ++ (e :: eol') ++ [NUL]) as Hb2
    by (rewrite Hb; unfold pre; by flatten_app).
  assert (strlen b (length n + 2) = length (c :: v') + length (e :: eol')) as ->.
  { assert (b = pre ++ ((c :: v') ++ e :: eol') ++ NUL :: []) as ->
      by (rewrite Hb2; by flatten_app).
    unfold strlen.
    rewrite string_at_here; [by rewrite length_app|done|].
    by rewrite forallb_app, HVn, Hen. }
  assert (trim_back (length b) b (length n + 2)
            (Z.of_nat (length n + 2) + Z.of_nat (length (c :: v') + length (e :: eol')) - 1)
          = (Z.of_nat (length n + 2) + Z.of_nat (length (c :: v')) - 1)%Z) as ->.
  { rewrite <- Hpre. rewrite Hb2 at 2.
    rewrite Nat2Z.inj_add, Z.add_assoc.
    apply trim_back_spaces; [done| |done|].
    - destruct v' as [|y v'' _] using rev_ind; [done|].
      rewrite app_comm_cons, List.last_last.
      by rewrite List.last_last in Hl.
    - rewrite Hb2, !length_app. lia. }
  replace (Z.to_nat (Z.of_nat (length n + 2) + Z.of_nat (length (c :: v')) - 1 + 1))
    with (length (pre ++ c :: v')) by (rewrite length_app; lia).
  assert (<[length (pre ++ c :: v') := NUL]> b
          = pre ++ (c :: v') ++ NUL :: eol' ++ [NUL]) as ->.
  { rewrite Hb2, (app_assoc pre). simpl.
    rewrite (insert_at (pre ++ c :: v') e NUL) by done. by flatten_app. }
  set (b1 := pre ++ (c :: v') ++ NUL :: eol' ++ [NUL]).
  assert (strdup b1 (length n + 2) = VALUE) as ->.
  { unfold b1. rewrite <- Ev. apply strdup_here; [done|]. by rewrite Ev. }
  assert (strlen b1 0 = length n + 2 + length (c :: v')) as ->.
  { unfold strlen, b1.
    change (pre ++ (c :: v') ++ NUL :: eol' ++ [NUL])
      with ([] ++ pre ++ (c :: v') ++ NUL :: eol' ++ [NUL]).
    rewrite (app_assoc pre).
    rewrite (string_at_here [] (pre ++ c :: v')); [|done|].
    - rewrite length_app. lia.
    - unfold pre. rewrite !forallb_app, Hnn, HVn. done. }
  assert (strlen b1 (length n + 2) = length (c :: v')) as ->.
  { unfold strlen, b1. by rewrite string_at_here. }
  destruct (Z.ltb_spec (Z.of_nat 0 + Z.of_nat (length n + 2 + length (c :: v'))
                        - Z.of_nat (length (c :: v')) - 2) 0); [lia|].
  replace (Z.to_nat (Z.of_nat 0 + Z.of_nat (length n + 2 + length (c :: v'))
                     - Z.of_nat (length (c :: v')) - 2))
    with (length n) by lia.
  f_equal.
  unfold b1, pre. rewrite <- (app_assoc n). simpl.
  rewrite (insert_at n ":"%char NUL) by done.
  apply (strdup_here [] NAME); [done|]. exact Hnn.
Qed.

Lemma header_line_yields_header (NAME VALUE : string) (eol : list ascii) :
  name_text NAME = true → value_text VALUE = true → eol_text eol = true →
  yields_header (header_line NAME VALUE eol) (NAME, VALUE).
Proof.
  intros HN HV He. split; [|by apply split_header_name_value].
  assert (3 ≤ length (cstr (header_line NAME VALUE eol))) as Hlen.
  { unfold header_line.
    pose proof (cstr_snoc_nul (bytes NAME ++ [":"%char; " "%char] ++ bytes VALUE ++ eol))
      as Hc.
    rewrite <- Hc. rewrite <- !app_assoc. simpl.
    rewrite cstr_app_not_nul
      by (eapply forallb_impl; [|exact HN]; by intros ? [? _]%andb_prop).
    unfold value_text in HV.
    destruct (bytes VALUE) as [|c v]; [done|].
    apply andb_prop in HV as [[HVn _]%andb_prop _].
    simpl in HVn. apply andb_prop in HVn as [Hcn _].
    unfold not_nul in Hcn. apply negb_true_iff in Hcn.
    rewrite length_app. cbn [cstr app length].
    change (is_nul ":") with false. change (is_nul " ") with false.
    rewrite Hcn. cbn [length]. lia. }
  intros [H|H]; rewrite H in Hlen; simpl in Hlen; lia.
Qed.

(** Lines that are not of that form are not read as the text around the
    first colon: without the blank the value is lost and the name keeps
    bytes of it, and with two blanks the name keeps the colon. *)
Example split_header_other_spacing :
  split_header (bytes ("Host:localhost" +:+ LF) ++ [NUL]) = Split "Host:localhos" EmptyString
  ∧ split_header (bytes ("Host:  localhost" +:+ LF) ++ [NUL]) = Split "Host:" "localhost"
  ∧ split_header (bytes ":" ++ [NUL]) = Undefined.
Proof. vm_compute. done. Qed.

(** The header loop on a block whose first line without a colon is
    [bad]: it returns -1 there and leaves what follows unread. *)
Lemma headers_loop_fails (hdrs : list (list ascii)) (bad : list ascii)
    (rest : list (list ascii)) :
  Forall (λ l, ¬ terminator l ∧ has_colon l ∧ ¬ lone_colon l) hdrs →
  ¬ terminator bad → ¬ has_colon bad →
  ∀ hs, ∃ cells headers,
    headers_loop (hdrs ++ bad :: rest) (store hs) (head_ptr hs) (curr_ptr hs)
    = Some ((-1)%Z, rest, cells, headers).
Proof.
  intros Hhdrs Hnt Hnc.
  induction Hhdrs as [|line hdrs (Hlt & Hc & Hll) _ IH]; intros hs; simpl.
  - rewrite streq_terminator by done.
    rewrite split_header_no_colon by done. eauto.
  - rewrite streq_terminator by done.
    destruct (split_header_defined line Hc Hll) as (name & value & ->).
    change (mkHeader name (Some value) None) with (cell (name, value) None).
    rewrite link_step. apply IH.
Qed.

End HeaderLines.

(** C5, as stated, fails: for a request line without a URI that is
    followed by a header and the empty line, BadRequest does go to the
    Error Responder, but what handle_request returns as the final status
    is InternalServerError.  The lines behind the failing one are still
    unread when the error page is written, and the flush fails. *)
Lemma parse_failure_with_unread_input_is_internal_error :
  let r := fresh_request ["GET" +:+ LF; "Host: example.org" +:+ LF; LF] in
  (fst <$> parse_request blank_tab_newline r) = Some (-1)%Z
  ∧ ((λ x, x.1.1) <$> handle_request blank_tab_newline sample_world initial_globals r ∅)
    = Some HTTP_STATUS_INTERNAL_SERVER_ERROR.
Proof. vm_compute. done. Qed.

(** C5, amended: a request whose request line lacks the method or the
    URI token, or whose request line parses and whose header block holds
    a line without a colon before its terminator (the lines before it
    being headers, none of them the lone colon on which the C program's
    behaviour is undefined), fails to parse, and handle_request sends
    BadRequest through the Error Responder and returns what the responder
    returns: the page for BadRequest is written, and the final status is
    BadRequest when the flush succeeds and InternalServerError when it
    fails, as it does when lines behind the failing one are unread. *)
Theorem parse_failure_yields_bad_request (WHITESPACE : list ascii) (w : World)
    (g : Globals) (r : Request) (env : gmap string string)
    (unread : list (list ascii)) :
  r_headers r = None → r_cells r = [] →
  request_line_incomplete WHITESPACE (pending (r_file r)) unread
  ∨ (parse_request_method WHITESPACE r).1 = 0%Z
    ∧ header_without_colon (pending (r_file r)) unread →
  ∃ i r',
    parse_request WHITESPACE r = Some (i, r') ∧ i ≠ 0%Z
    ∧ pending (r_file r') = unread
    ∧ handle_request WHITESPACE w g r env
      = Some (error_response w r' HTTP_STATUS_BAD_REQUEST, env)
    ∧ (error_response w r' HTTP_STATUS_BAD_REQUEST).1
      = (if flush_fails (r_file r) || bool_decide (unread ≠ [])
         then HTTP_STATUS_INTERNAL_SERVER_ERROR
         else HTTP_STATUS_BAD_REQUEST)
    ∧ written (r_file (error_response w r' HTTP_STATUS_BAD_REQUEST).2)
      = written (r_file r) +:+ error_page w HTTP_STATUS_BAD_REQUEST.
Proof.
  intros Hh Hc Hbad.
  assert (∃ i r', parse_request WHITESPACE r = Some (i, r')
                  ∧ (i = (-1)%Z ∨ i = (-2)%Z)
                  ∧ pending (r_file r') = unread
                  ∧ flush_fails (r_file r') = flush_fails (r_file r)
                  ∧ written (r_file r') = written (r_file r))
    as (i & r' & Hparse & Hi & Hpend & Hflush & Hwr).
  { unfold parse_request.
    destruct Hbad as [(line & Hp & Hline)
                     |(Hm0 & reqline & hdrs & bad & Hp & Hhdrs & Hnt & Hnc)].
    - destruct (parse_request_method_incomplete WHITESPACE r line unread Hp Hline)
        as (r1 & Hm & Hf).
      destruct (parse_request_method_frame WHITESPACE r _ r1 _ _ Hp Hm)
        as (Hp1 & _ & _ & _).
      pose proof (parse_request_method_written WHITESPACE r _ r1 Hm) as Hw1.
      rewrite Hm. simpl. eauto 8.
    - destruct (parse_request_method WHITESPACE r) as [m r1] eqn:Hm.
      simpl in Hm0. subst m.
      destruct (parse_request_method_frame WHITESPACE r _ r1 _ _ Hp Hm)
        as (Hp1 & Hf1 & Hh1 & Hc1).
      pose proof (parse_request_method_written WHITESPACE r _ r1 Hm) as Hw1.
      simpl. unfold parse_request_headers. rewrite Hp1, Hh1, Hc1, Hh, Hc.
      destruct (headers_loop_fails hdrs bad unread Hhdrs Hnt Hnc [])
        as (cells & headers & Hloop).
      change (headers_loop (hdrs ++ bad :: unread) [] None None
              = Some ((-1)%Z, unread, cells, headers)) in Hloop.
      rewrite Hloop. simpl. eexists _, _. split; [reflexivity|].
      split; [by right|]. by simpl. }
  exists i, r'. split; [done|]. split; [by destruct Hi as [-> | ->]|].
  split; [done|]. split_and!.
  - unfold handle_request. rewrite Hparse. simpl.
    rewrite <- handle_error_is_error_response.
    by destruct Hi as [-> | ->].
  - unfold error_response, fflush_failed. simpl. by rewrite Hflush, Hpend.
  - unfold error_response. simpl. by rewrite Hwr.
Qed.

Lemma parse_failure_yields_bad_request_witness :
  let r := fresh_request ["GET / HTTP/1.0" +:+ LF; "Host: example.org" +:+ LF;
                          "Broken header" +:+ LF] in
  ∃ i r',
    parse_request blank_tab_newline r = Some (i, r') ∧ i ≠ 0%Z
    ∧ pending (r_file r') = []
    ∧ handle_request blank_tab_newline sample_world initial_globals r ∅
      = Some (error_response sample_world r' HTTP_STATUS_BAD_REQUEST, ∅)
    ∧ (error_response sample_world r' HTTP_STATUS_BAD_REQUEST).1
      = HTTP_STATUS_BAD_REQUEST
    ∧ written (r_file (error_response sample_world r' HTTP_STATUS_BAD_REQUEST).2)
      = written (r_file r) +:+ error_page sample_world HTTP_STATUS_BAD_REQUEST.
Proof.
  intros r.
  apply (parse_failure_yields_bad_request blank_tab_newline sample_world
           initial_globals r ∅ []).
  - reflexivity.
  - reflexivity.
  - right. split; [reflexivity|].
    exists (bytes ("GET / HTTP/1.0" +:+ LF)), [bytes ("Host: example.org" +:+ LF)],
           (bytes ("Broken header" +:+ LF)).
    split; [reflexivity|]. split; [|split].
    + apply Forall_cons. split; [|constructor]. split_and!.
      * intros [H|H]; discriminate H.
      * unfold has_colon. apply list_elem_of_In. vm_compute. tauto.
      * intros H; discriminate H.
    + intros [H|H]; discriminate H.
    + unfold has_colon. rewrite list_elem_of_In. vm_compute.
      intuition discriminate.
Defined.

(** A request line that is only a method, and one that is blank. *)
Example parse_request_missing_tokens :
  (fst <$> parse_request blank_tab_newline (fresh_request ["GET" +:+ LF; LF]))
    = Some (-1)%Z
  ∧ (fst <$> parse_request blank_tab_newline (fresh_request [" " +:+ LF; LF]))
    = Some (-1)%Z
  ∧ (fst <$> parse_request blank_tab_newline
               (fresh_request ["GET / HTTP/1.0" +:+ LF; "Host example.org" +:+ LF; LF]))
    = Some (-2)%Z.
Proof. vm_compute. done. Qed.

(* ===================================================================== *)
(** ** Parser and CGI environment together *)
(* ===================================================================== *)

(** The loop of handle_cgi_request sees the chain the parser left, not
    the lines of the request: of two Accept headers the second is
    exported when it is still in the chain, and the first when the second
    was a third or later header that a later one replaced. *)
Example cgi_environment_after_parse :
  let accept lines :=
    '(_, r) ← parse_request blank_tab_newline (fresh_request lines);
    env ← cgi_environment initial_globals (set_path (Some "/srv/www/hello.cgi") r) ∅;
    env !! "HTTP_ACCEPT" in
  accept ["GET /hello.cgi HTTP/1.0" +:+ LF;
          "Accept: text/html" +:+ LF; "Accept: image/png" +:+ LF; LF]
    = Some "image/png"
  ∧ accept ["GET /hello.cgi HTTP/1.0" +:+ LF;
            "Accept: text/html" +:+ LF; "Host: example.org" +:+ LF;
            "Accept: image/png" +:+ LF; "Connection: close" +:+ LF; LF]
    = Some "text/html".
Proof. vm_compute. done. Qed.

(* ===================================================================== *)
(** ** forking.c: the loop while no fork fails *)
(* ===================================================================== *)

Section ForkingServes.

Lemma forking_from_open (arrivals : list Arrival) : ∀ s,
  sfd_open s = true →
  Forall (λ a, (0 ≤ fork_ret a)%Z) arrivals →
  sfd_open (foldl forking_iteration s arrivals) = true
  ∧ children (foldl forking_iteration s arrivals)
    = children s ++ omap (λ a, (accept_request true (conn a)).1) arrivals.
Proof.
  induction arrivals as [|a arrivals IH]; intros s Hs Hf.
  { simpl. by rewrite app_nil_r. }
  apply Forall_cons in Hf as [Ha Hf]. simpl.
  assert (sfd_open (forking_iteration s a) = true
          ∧ children (forking_iteration s a)
            = children s ++ match (accept_request true (conn a)).1 with
                            | Some r => [r]
                            | None => []
                            end) as [Ho Hc].
  { unfold forking_iteration. rewrite Hs.
    destruct (accept_request true (conn a)) as [[r|] err]; simpl.
    - destruct (Z.ltb_spec (fork_ret a) 0); [lia|]. done.
    - by rewrite app_nil_r. }
  destruct (IH _ Ho Hf) as [-> ->]. split; [done|].
  rewrite Hc, <- app_assoc. f_equal.
  by destruct (accept_request true (conn a)).1.
Qed.

End ForkingServes.

(** X1: as long as no [fork] fails, the forking server keeps its
    listening socket open and hands every accepted connection to exactly
    one child, in order of arrival; a connection that accept_request
    gives up produces no child and stops nothing. *)
Theorem forking_server_serves_all_accepted (arrivals : list Arrival) :
  Forall (λ a, (0 ≤ fork_ret a)%Z) arrivals →
  sfd_open (forking_server arrivals) = true
  ∧ children (forking_server arrivals)
    = omap (λ a, (accept_request true (conn a)).1) arrivals.
Proof.
  intros Hf. unfold forking_server.
  by destruct (forking_from_open arrivals (mkServer true [] []) eq_refl Hf).
Qed.

Lemma forking_server_serves_all_accepted_witness :
  let ok := mkConnection 4 0 (Some (mkFILE [] EmptyString false)) in
  let refused := mkConnection (-1) 0 None in
  sfd_open (forking_server [mkArrival ok 7; mkArrival refused 0; mkArrival ok 8]) = true
  ∧ children (forking_server [mkArrival ok 7; mkArrival refused 0; mkArrival ok 8])
    = omap (λ a, (accept_request true (conn a)).1)
        [mkArrival ok 7; mkArrival refused 0; mkArrival ok 8].
Proof.
  intros ok refused.
  apply (forking_server_serves_all_accepted
           [mkArrival ok 7; mkArrival refused 0; mkArrival ok 8]).
  repeat constructor; simpl; lia.
Defined.

(* ===================================================================== *)
(** ** spidey.c: option parsing on known flags *)
(* ===================================================================== *)

Section KnownOptions.

Variable argv : list string.
Hypothesis known : Forall (λ a, unknown_flag a = false) argv.

(** On a flag that is not unknown the body ends the function or moves
    [argind] on by two. *)
Lemma loop_body_progress o :
  loop_condition argv o = true →
  match loop_body argv o with
  | Continue o' => argind o' = S (S (argind o))
  | _ => True
  end.
Proof.
  unfold loop_condition, loop_body.
  destruct (arg argv (argind o)) as [a|] eqn:Ha; [|done].
  intros Hc. apply andb_prop in Hc as [Hlen Hdash].
  assert (unknown_flag a = false) as Hk.
  { eapply Forall_forall in known; [exact known|].
    eapply list_elem_of_lookup_2. exact Ha. }
  unfold unknown_flag in Hk. rewrite Hlen, Hdash in Hk. simpl in Hk.
  unfold take_value.
  destruct (String.eqb a "-h"); [done|].
  destruct (String.eqb a "-c").
  { destruct (arg argv (S (argind o))) as [ptr|]; [|done].
    destruct (String.eqb ptr "Single"); [done|].
    by destruct (String.eqb ptr "Forking"). }
  destruct (String.eqb a "-m").
  { destruct (arg argv (S (argind o))) as [ptr|]; [|done].
    by destruct (starts_with_dash ptr). }
  destruct (String.eqb a "-M").
  { destruct (arg argv (S (argind o))) as [ptr|]; [|done].
    by destruct (starts_with_dash ptr). }
  destruct (String.eqb a "-p").
  { destruct (arg argv (S (argind o))) as [ptr|]; [|done].
    by destruct (starts_with_dash ptr). }
  destruct (String.eqb a "-r").
  { destruct (arg argv (S (argind o))) as [ptr|]; [|done].
    by destruct (starts_with_dash ptr). }
  done.
Qed.

Lemma loop_condition_in_range o :
  loop_condition argv o = true → argind o < length argv.
Proof.
  unfold loop_condition, arg.
  destruct (argv !! argind o) eqn:Ha; [|done].
  intros _. by eapply lookup_lt_Some.
Qed.

Lemma options_loop_returns : ∀ fuel o,
  length argv - argind o < fuel →
  ∃ c, options_loop fuel argv o = Some c ∧ ∀ o', c ≠ Continue o'.
Proof.
  induction fuel as [|fuel IH]; intros o Hfuel; [lia|].
  simpl. destruct (loop_condition argv o) eqn:Hc; [|by eexists].
  pose proof (loop_body_progress o Hc) as Hp.
  pose proof (loop_condition_in_range o Hc) as Hr.
  destruct (loop_body argv o) as [o'| |]; [|by eexists..].
  apply IH. lia.
Qed.

End KnownOptions.

(** X2: on an argument vector without an unknown flag parse_options
    terminates: after at most as many passes as there are arguments (and
    one) its loop has returned or has left through [usage].  The loop can
    only fail to end on an unknown flag. *)
Theorem parse_options_terminates_on_known_flags (argv : list string) (g : Globals) :
  Forall (λ a, unknown_flag a = false) argv →
  ∃ c, parse_options (S (length argv)) argv g = Some c ∧ ∀ o, c ≠ Continue o.
Proof.
  intros Hk. unfold parse_options. apply options_loop_returns; [done|].
  simpl. lia.
Qed.

Lemma parse_options_terminates_on_known_flags_witness :
  ∃ c, parse_options (S (length ["spidey"; "-c"; "Forking"; "-p"; "8080"; "www"]))
         ["spidey"; "-c"; "Forking"; "-p"; "8080"; "www"] initial_globals = Some c
       ∧ ∀ o, c ≠ Continue o.
Proof.
  apply (parse_options_terminates_on_known_flags
           ["spidey"; "-c"; "Forking"; "-p"; "8080"; "www"] initial_globals).
  repeat constructor.
Defined.

Section ModeOption.

Variable argv : list string.
Hypothesis no_c : "-c" ∉ argv.

Lemma loop_body_keeps_mode o :
  mode o = None →
  match loop_body argv o with
  | Continue o' | Return _ o' => mode o' = None
  | Exit _ => True
  end.
Proof.
  intros Hm. unfold loop_body.
  destruct (arg argv (argind o)) as [a|] eqn:Ha; [|done].
  destruct (String.eqb a "-h"); [done|].
  destruct (String.eqb_spec a "-c") as [->|_].
  { destruct no_c. eapply list_elem_of_lookup_2. exact Ha. }
  unfold take_value.
  repeat match goal with
         | |- context [if String.eqb a ?lit then _ else _] =>
             destruct (String.eqb a lit);
             [destruct (arg argv (S (argind o))) as [ptr|]; [|done];
              by destruct (starts_with_dash ptr)|]
         end.
  done.
Qed.

Lemma options_loop_keeps_mode : ∀ fuel o,
  mode o = None →
  match options_loop fuel argv o with
  | Some (Continue o') | Some (Return _ o') => mode o' = None
  | _ => True
  end.
Proof.
  induction fuel as [|fuel IH]; intros o Hm; [done|].
  simpl. destruct (loop_condition argv o); [|done].
  pose proof (loop_body_keeps_mode o Hm) as Hb.
  destruct (loop_body argv o) as [o'|b o'|]; [by apply IH|done..].
Qed.

End ModeOption.

(** X3: parse_options assigns the server mode only in its [-c] branch:
    when [-c] is not among the arguments, the caller's mode variable is
    still unassigned when parse_options returns, so [main] goes on to
    compare a variable it never initialised. *)
Theorem parse_options_leaves_mode_unassigned (argv : list string) (g : Globals) :
  "-c" ∉ argv →
  (∀ fuel b o, parse_options fuel argv g = Some (Return b o) → mode o = None)
  ∧ (∀ fuel o, main fuel argv = Some (Listen o) → mode o = None).
Proof.
  intros Hc.
  assert (∀ fuel g', match parse_options fuel argv g' with
                     | Some (Continue o') | Some (Return _ o') => mode o' = None
                     | _ => True
                     end) as H.
  { intros fuel g'. unfold parse_options. by apply options_loop_keeps_mode. }
  split.
  - intros fuel b o Hp. specialize (H fuel g). by rewrite Hp in H.
  - intros fuel o. unfold main. specialize (H fuel initial_globals).
    destruct (parse_options fuel argv initial_globals) as [[o'|[] o'|]|];
      intros [= <-]; done.
Qed.

Lemma parse_options_leaves_mode_unassigned_witness :
  (∀ fuel b o, parse_options fuel ["spidey"; "-p"; "8080"] initial_globals
               = Some (Return b o) → mode o = None)
  ∧ (∀ fuel o, main fuel ["spidey"; "-p"; "8080"] = Some (Listen o) → mode o = None).
Proof.
  apply (parse_options_leaves_mode_unassigned ["spidey"; "-p"; "8080"] initial_globals).
  rewrite !not_elem_of_cons. split_and!; try discriminate. apply not_elem_of_nil.
Defined.

(* ===================================================================== *)
(** ** request.c: free_request *)
(* ===================================================================== *)

(** X4: a request that accept_request returned, handed to free_request
    as it is, has descriptor 0 passed to [close], whatever descriptor
    [accept] had returned: accept_request stores 0 in the [fd] member and
    gives the client descriptor to [fdopen] only.  What [close] gets is
    the descriptor of the client connection only when [accept] returned
    0; the stream that [fclose] gets is the one [fdopen] opened; no
    header cell is freed. *)
Theorem free_request_closes_descriptor_zero (c : Connection) (r : Request) :
  (accept_request true c).1 = Some r →
  ∃ rel, free_request (Some r) = Some (Some rel)
         ∧ closed_fd rel = 0%Z
         ∧ (closed_fd rel = accept_ret c ↔ accept_ret c = 0%Z)
         ∧ fdopen_ret c = Some (closed_stream rel)
         ∧ freed_cells rel = [].
Proof.
  unfold accept_request, accept.
  destruct (accept_ret c <? 0)%Z; [done|].
  destruct (negb (getnameinfo_ret c =? 0)%Z); [done|].
  destruct (fdopen_ret c) as [f|]; [|done].
  intros [= <-]. eexists. split; [reflexivity|]. simpl.
  split_and!; first [done | split; congruence].
Qed.

Lemma free_request_closes_descriptor_zero_witness :
  let c := mkConnection 4 0 (Some (mkFILE [] EmptyString false)) in
  ∃ rel, free_request (Some (fresh_request [])) = Some (Some rel)
         ∧ closed_fd rel = 0%Z
         ∧ (closed_fd rel = accept_ret c ↔ accept_ret c = 0%Z)
         ∧ fdopen_ret c = Some (closed_stream rel)
         ∧ freed_cells rel = [].
Proof.
  intros c.
  apply (free_request_closes_descriptor_zero c (fresh_request [])).
  reflexivity.
Defined.

(** X5: of the header cells that parse_request_headers allocates, one
    for every header of the block, free_request frees at most two: the
    head of the chain and the cell behind it.  With three or more headers
    the other cells stay allocated. *)
Theorem free_request_frees_two_header_cells (r : Request)
    (lines tail : list (list ascii)) (xs : list (string * string)) :
  r_headers r = None → r_cells r = [] →
  Forall2 yields_header lines xs →
  (tail = [] ∨ ∃ t rest, tail = t :: rest ∧ terminator t) →
  pending (r_file r) = lines ++ tail →
  ∃ r' rel, parse_request_headers r = Some (0%Z, r')
            ∧ length (r_cells r') = length xs
            ∧ free_request (Some r') = Some (Some rel)
            ∧ freed_cells rel = match xs with
                                | [] => []
                                | [_] => [0]
                                | _ => [1; 0]
                                end.
Proof.
  intros Hh Hc Hlines Htail Hpending.
  unfold parse_request_headers. rewrite Hpending, Hh, Hc.
  pose proof (headers_loop_block lines xs Hlines [] tail Htail) as Hloop.
  change (headers_loop (lines ++ tail) [] None None
          = Some (0%Z, List.tl tail, store xs, head_ptr xs)) in Hloop.
  rewrite Hloop.
  eexists. exists (mkReleased (r_fd r)
                     (mkFILE (List.tl tail) (written (r_file r)) (flush_fails (r_file r)))
                     (match xs with [] => [] | [_] => [0] | _ => [1; 0] end)).
  split; [reflexivity|]. simpl.
  split; [apply length_store|].
  split; [|done].
  destruct xs as [|a [|b tl]]; done.
Qed.

Lemma free_request_frees_two_header_cells_witness :
  let block := map bytes ["Host: example.org" +:+ LF; "Accept: text/html" +:+ LF;
                          "Connection: close" +:+ LF] in
  let xs := [("Host", "example.org"); ("Accept", "text/html"); ("Connection", "close")] in
  let r := mkRequest 0 (mkFILE (block ++ [bytes LF]) EmptyString false)
             (Some "GET") (Some "/") None None EmptyString EmptyString None [] in
  ∃ r' rel, parse_request_headers r = Some (0%Z, r')
            ∧ length (r_cells r') = length xs
            ∧ free_request (Some r') = Some (Some rel)
            ∧ freed_cells rel = match xs with
                                | [] => []
                                | [_] => [0]
                                | _ => [1; 0]
                                end.
Proof.
  intros block xs r.
  apply (free_request_frees_two_header_cells r block [bytes LF] xs).
  - reflexivity.
  - reflexivity.
  - repeat constructor; try reflexivity; intros [H|H]; discriminate H.
  - right. exists (bytes LF), []. split; [reflexivity|]. left. reflexivity.
  - reflexivity.
Defined.

(* ===================================================================== *)
(** ** single.c *)
(* ===================================================================== *)

Section SingleServer.

Variable WHITESPACE : list ascii.
Variables (w : World) (g : Globals).

Lemma single_server_app (l1 l2 : list Connection) : ∀ s,
  single_server WHITESPACE w g (l1 ++ l2) s
  = (single_server WHITESPACE w g l1 s ≫= single_server WHITESPACE w g l2).
Proof.
  induction l1 as [|c l1 IH]; intros s; [done|].
  simpl. destruct (single_iteration WHITESPACE w g s c) as [s'|]; [|done].
  simpl. apply IH.
Qed.

End SingleServer.

(** X6: the sequential server skips a connection that accept_request
    gives up (failed [accept], [getnameinfo] or [fdopen]): the requests
    served and the environment are the same as if that connection had
    never arrived, whatever came before and whatever comes after. *)
Theorem single_server_skips_failed_accept (WHITESPACE : list ascii) (w : World)
    (g : Globals) (pre post : list Connection) (c : Connection) (s : Single) :
  (accept_request true c).1 = None →
  single_server WHITESPACE w g (pre ++ c :: post) s
  = single_server WHITESPACE w g (pre ++ post) s.
Proof.
  intros Hc. rewrite !single_server_app.
  destruct (single_server WHITESPACE w g pre s) as [s'|]; [|done].
  simpl. unfold single_iteration.
  destruct (accept_request true c) as [[r|] err]; [done|]. done.
Qed.

Lemma single_server_skips_failed_accept_witness :
  let hello := mkConnection 4 0
                 (Some (mkFILE [bytes ("GET /index.html HTTP/1.0" +:+ LF); bytes LF]
                          EmptyString false)) in
  let unresolved := mkConnection 5 (-2) (Some (mkFILE [] EmptyString false)) in
  single_server blank_tab_newline sample_world initial_globals
    ([hello] ++ unresolved :: [hello]) (mkSingle ∅ [])
  = single_server blank_tab_newline sample_world initial_globals
      ([hello] ++ [hello]) (mkSingle ∅ []).
Proof.
  intros hello unresolved.
  apply (single_server_skips_failed_accept blank_tab_newline sample_world
           initial_globals [hello] [hello] unresolved (mkSingle ∅ [])).
  reflexivity.
Defined.

(* ===================================================================== *)
(** ** handler.c: the copy loop of handle_file_request *)
(* ===================================================================== *)

Section CopyLoop.

Lemma copy_file_spec (BUFSIZ : nat) : 0 < BUFSIZ →
  ∀ fuel fs r, length fs < fuel →
    copy_file fuel BUFSIZ fs r
    = Some (if decide (fs = []) then r else fwrite fs r).
Proof.
  intros Hb. induction fuel as [|fuel IH]; intros fs r Hfuel; [lia|].
  simpl. destruct fs as [|c fs].
  { by rewrite take_nil. }
  rewrite decide_False by done.
  destruct BUFSIZ as [|n]; [lia|].
  cbn [take length]. simpl "=?".
  rewrite IH by (rewrite length_drop; simpl in *; lia).
  f_equal. unfold fwrite.
  case_decide as Hd.
  - change (drop (S n) (c :: fs)) with (drop n fs) in Hd.
    rewrite <- (take_drop n fs) at 2. rewrite Hd, app_nil_r. done.
  - rewrite fprintf_fprintf. f_equal.
    rewrite <- string_of_list_ascii_app. f_equal.
    change (drop (S n) (c :: fs)) with (drop n fs).
    cbn [app]. f_equal. apply take_drop.
Qed.

End CopyLoop.

(** X7: the loop of handle_file_request that reads the file in pieces of
    BUFSIZ bytes and writes each piece to the client ends, for any
    positive BUFSIZ, after at most one pass per byte and one more, and
    has then written exactly the bytes of the file, in order and once.
    Nothing else of the request or of its stream is changed: not the
    unread input, the descriptor, the method, the URI, the path, the
    query, the host, the port, or the headers. *)
Theorem copy_file_writes_whole_file (BUFSIZ fuel : nat) (fs : list ascii) (r : Request) :
  0 < BUFSIZ → length fs < fuel →
  ∃ r', copy_file fuel BUFSIZ fs r = Some r'
        ∧ written (r_file r') = written (r_file r) +:+ string_of_list_ascii fs
        ∧ pending (r_file r') = pending (r_file r)
        ∧ flush_fails (r_file r') = flush_fails (r_file r)
        ∧ r_fd r' = r_fd r
        ∧ r_method r' = r_method r ∧ r_uri r' = r_uri r
        ∧ r_path r' = r_path r ∧ r_query r' = r_query r
        ∧ r_host r' = r_host r ∧ r_port r' = r_port r
        ∧ r_headers r' = r_headers r ∧ r_cells r' = r_cells r.
Proof.
  intros Hb Hfuel. rewrite copy_file_spec by done.
  eexists. split; [reflexivity|].
  case_decide as Hd; [|by split_and!].
  subst fs. simpl. rewrite string_app_nil_r. by split_and!.
Qed.

Lemma copy_file_writes_whole_file_witness :
  let r := fresh_request [] in
  ∃ r', copy_file 13 4 (bytes "<p>hello</p>") r = Some r'
        ∧ written (r_file r')
          = written (r_file r) +:+ string_of_list_ascii (bytes "<p>hello</p>")
        ∧ pending (r_file r') = pending (r_file r)
        ∧ flush_fails (r_file r') = flush_fails (r_file r)
        ∧ r_fd r' = r_fd r
        ∧ r_method r' = r_method r ∧ r_uri r' = r_uri r
        ∧ r_path r' = r_path r ∧ r_query r' = r_query r
        ∧ r_host r' = r_host r ∧ r_port r' = r_port r
        ∧ r_headers r' = r_headers r ∧ r_cells r' = r_cells r.
Proof.
  intros r.
  apply (copy_file_writes_whole_file 4 13 (bytes "<p>hello</p>") r);
    unfold bytes; simpl; lia.
Defined.

(* ===================================================================== *)
(** ** handler.c: the status handle_request returns *)
(* ===================================================================== *)

Section HandlerStatus.

Variable WHITESPACE : list ascii.
Variables (w : World) (g : Globals).

Local Arguments finish : simpl never.
Local Arguments handle_error : simpl never.
Local Arguments copy_file : simpl never.

(** The copy loop of handle_cgi_request writes, piece after piece, what
    [fputs] sees of each. *)
Lemma foldl_copy_piece (pieces : list (list ascii)) : ∀ r,
  foldl copy_piece r pieces
  = fprintf r (concat_strings
                 (map (λ piece, string_of_list_ascii (string_at (piece ++ [NUL]) 0))
                      pieces)).
Proof.
  induction pieces as [|piece pieces IH]; intros r; simpl.
  - by rewrite fprintf_empty.
  - rewrite IH. unfold copy_piece. by rewrite fprintf_fprintf.
Qed.

(** The copy loop of handle_file_request, with the passes it is given. *)
Lemma copy_file_all (n : nat) (fs : list ascii) r :
  0 < n →
  copy_file (S (length fs)) n fs r = Some (fprintf r (string_of_list_ascii fs)).
Proof.
  intros Hn. rewrite copy_file_spec by (done || lia).
  case_decide as Hd; [|done]. subst fs. by rewrite fprintf_empty.
Qed.

Lemma copy_file_returns (n : nat) (fs : list ascii) r :
  ∃ r', copy_file (S (length fs)) n fs r = Some r'
        ∧ fflush_failed r' = fflush_failed r.
Proof.
  destruct n as [|n].
  - exists r. by destruct fs.
  - rewrite copy_file_all by lia. eexists. split; [done|]. apply flush_fprintf.
Qed.

(** handle_file_request on a file that opens. *)
Lemma handle_file_request_opened r path contents :
  r_path r = Some path → fopen_r w path = Some contents → 0 < BUFSIZ w →
  handle_file_request w r
  = if fflush_failed r then None
    else Some (HTTP_STATUS_OK,
               fprintf r ("HTTP/1.0 200 OK" +:+ CRLF
                          +:+ "Content-Type: " +:+ determine_mimetype w path +:+ CRLF
                          +:+ CRLF +:+ contents)).
Proof.
  intros Hp Ho Hb. unfold handle_file_request. rewrite Hp. simpl. rewrite Ho.
  rewrite copy_file_all by done. simpl. rewrite !flush_fprintf.
  destruct (fflush_failed r); [done|].
  rewrite !fprintf_fprintf. unfold bytes.
  rewrite string_of_list_ascii_of_string. by rewrite !string_app_assoc.
Qed.

Lemma parse_request_method_flush r m r1 :
  parse_request_method WHITESPACE r = (m, r1) →
  flush_fails (r_file r1) = flush_fails (r_file r).
Proof.
  unfold parse_request_method, fgets.
  destruct (pending (r_file r)) as [|line rest]; [by intros [= <- <-]|].
  destruct (strtok _ 0 WHITESPACE) as [[[method|] b1] save]; [|by intros [= <- <-]].
  destruct (strtok b1 save WHITESPACE) as [[[uri|] b2] save2]; [|by intros [= <- <-]].
  destruct (strchr b2 uri "?") as [temp|]; by intros [= <- <-].
Qed.

Lemma parse_request_flush r i r1 :
  parse_request WHITESPACE r = Some (i, r1) →
  flush_fails (r_file r1) = flush_fails (r_file r).
Proof.
  unfold parse_request.
  destruct (parse_request_method WHITESPACE r) as [m r0] eqn:Hm.
  apply parse_request_method_flush in Hm.
  destruct (negb (m =? 0)%Z); [by intros [= <- <-]|].
  unfold parse_request_headers.
  destruct (headers_loop _ _ _ _) as [[[[ret rest] cells] headers]|]; [|done].
  destruct (negb (ret =? 0)%Z); by intros [= <- <-].
Qed.


(** A handler reports success only when its flush succeeded, and leaves
    the stream as fit or unfit for flushing as it was. *)
Lemma handle_browse_request_flush r st r1 :
  handle_browse_request w r = Some (st, r1) →
  fflush_failed r1 = fflush_failed r
  ∧ (st = HTTP_STATUS_OK → fflush_failed r = false).
Proof.
  unfold handle_browse_request.
  destruct (r_path r) as [path|]; [|done]. destruct (r_uri r) as [uri|]; [|done].
  simpl. destruct (scandir w path) as [entries|]; [|by intros [= <- <-]].
  rewrite flush_fprintf.
  destruct (written_items (browse_item w uri path) entries
              (fprintf (fprintf (fprintf (fprintf r ("HTTP/1.0 200 OK" +:+ CRLF))
                 ("Content-Type: text/html" +:+ CRLF)) CRLF) ("<ul>" +:+ CRLF)))
    as [_ Hf].
  rewrite Hf, !flush_fprintf.
  destruct (fflush_failed r) eqn:E; intros [= <- <-];
    by rewrite flush_fprintf, Hf, !flush_fprintf.
Qed.

Lemma handle_file_request_flush r st r1 :
  handle_file_request w r = Some (st, r1) →
  fflush_failed r1 = fflush_failed r
  ∧ (st = HTTP_STATUS_OK → fflush_failed r = false).
Proof.
  unfold handle_file_request.
  destruct (r_path r) as [path|]; [|done]. simpl.
  destruct (fopen_r w path) as [contents|]; [|by intros [= <- <-]].
  match goal with
  | |- context [copy_file _ ?n ?fs ?r0] =>
      destruct (copy_file_returns n fs r0) as (r' & -> & Hf)
  end.
  simpl. rewrite !flush_fprintf in Hf.
  destruct (fflush_failed r') eqn:E; [done|].
  intros [= <- <-]. by rewrite E, <- Hf.
Qed.

Lemma handle_cgi_request_flush r env st r1 env1 :
  handle_cgi_request w g r env = Some (st, r1, env1) →
  fflush_failed r1 = fflush_failed r
  ∧ (st = HTTP_STATUS_OK → fflush_failed r = false).
Proof.
  unfold handle_cgi_request.
  destruct (cgi_environment g r env) as [env'|]; [|done]. simpl.
  destruct (r_path r) as [path|]; [|done]. simpl.
  destruct (popen_r w path env') as [output|]; [|by intros [= <- <- <-]].
  rewrite foldl_copy_piece, flush_fprintf.
  destruct (fflush_failed r) eqn:E; intros [= <- <- <-];
    by rewrite flush_fprintf.
Qed.

(** What [finish] makes of a handler's result. *)
Lemma finish_cases st r1 :
  (st = HTTP_STATUS_OK ∧ finish w (st, r1) = (st, r1))
  ∨ (st ≠ HTTP_STATUS_OK ∧ finish w (st, r1) = handle_error w r1 st).
Proof. destruct st; simpl; [left|right..]; done. Qed.

(** Every way through the dispatch ends either with a handler that
    succeeded, or in the Error Responder. *)
Lemma dispatch_cases r env st r' env' :
  dispatch w g r env = Some (st, r', env') →
  (st = HTTP_STATUS_OK ∧ fflush_failed r = false ∧ fflush_failed r' = false)
  ∨ ∃ r0 s, s ≠ HTTP_STATUS_OK ∧ handle_error w r0 s = (st, r')
            ∧ fflush_failed r0 = fflush_failed r.
Proof.
  unfold dispatch. destruct (r_path r) as [path|]; [|done]. simpl.
  destruct (Z.land (default (stack_st_mode w) (lstat w path)) S_IFMT =? S_IFDIR)%Z.
  { destruct (handle_browse_request w r) as [[s r0]|] eqn:Hh; [|done].
    simpl. apply handle_browse_request_flush in Hh as [Hf Hok].
    destruct (finish_cases s r0) as [[-> ->]|[Hs ->]].
    - intros [= <- <- <-]. left. rewrite Hf. auto.
    - intros [= He <-]. right. by exists r0, s. }
  destruct (Z.land (default (stack_st_mode w) (lstat w path)) S_IFMT =? S_IFREG)%Z.
  { destruct (access_X_OK w path).
    - destruct (handle_cgi_request w g r env) as [[[s r0] e0]|] eqn:Hh; [|done].
      simpl. apply handle_cgi_request_flush in Hh as [Hf Hok].
      destruct (finish_cases s r0) as [[-> ->]|[Hs ->]].
      + intros [= <- <- <-]. left. rewrite Hf. auto.
      + intros [= He <-]. right. by exists r0, s.
    - destruct (handle_file_request w r) as [[s r0]|] eqn:Hh; [|done].
      simpl. apply handle_file_request_flush in Hh as [Hf Hok].
      destruct (finish_cases s r0) as [[-> ->]|[Hs ->]].
      + intros [= <- <- <-]. left. rewrite Hf. auto.
      + intros [= He <-]. right. by exists r0, s. }
  destruct (finish_cases HTTP_STATUS_BAD_REQUEST r) as [[? _]|[_ ->]]; [done|].
  intros [= He <-]. right. by exists r, HTTP_STATUS_BAD_REQUEST.
Qed.

(** The same for handle_request, where [r1] is the request as the parser
    left it: what is still unread of the input is unread in [r1]. *)
Lemma handle_request_cases r env st r' env' :
  handle_request WHITESPACE w g r env = Some (st, r', env') →
  ∃ r1, flush_fails (r_file r1) = flush_fails (r_file r)
    ∧ ((st = HTTP_STATUS_OK ∧ fflush_failed r1 = false ∧ fflush_failed r' = false)
       ∨ ∃ r0 s, s ≠ HTTP_STATUS_OK ∧ handle_error w r0 s = (st, r')
                 ∧ fflush_failed r0 = fflush_failed r1).
Proof.
  unfold handle_request.
  destruct (parse_request WHITESPACE r) as [[i r1]|] eqn:Hp; [|done].
  apply parse_request_flush in Hp. simpl.
  destruct (i =? -1)%Z.
  { intros [= He <-]. exists r1. split; [done|]. right.
    by exists r1, HTTP_STATUS_BAD_REQUEST. }
  destruct (i =? -2)%Z.
  { intros [= He <-]. exists r1. split; [done|]. right.
    by exists r1, HTTP_STATUS_BAD_REQUEST. }
  destruct (r_uri r1) as [uri|]; [|done]. simpl.
  destruct (determine_request_path w uri) as [path|]; simpl.
  - intros Hd. apply dispatch_cases in Hd.
    exists (set_path (Some path) r1). by split.
  - intros [= He <-]. exists (set_path None r1). split; [done|]. right.
    by exists (set_path None r1), HTTP_STATUS_NOT_FOUND.
Qed.

End HandlerStatus.

(** X8: every status other than OK that handle_request returns has
    been through the Error Responder: the status and the request it
    returns are what handle_error returned for some status that is not
    OK, so the error page is the last thing written to the client.
    And handle_request returns OK only when flushing the stream
    succeeded. *)
Theorem handle_request_errors_pass_through_handle_error (WHITESPACE : list ascii)
    (w : World) (g : Globals) (r : Request) (env : gmap string string) :
  match handle_request WHITESPACE w g r env with
  | Some (st, r', _) =>
      (st = HTTP_STATUS_OK ∧ flush_fails (r_file r) = false)
      ∨ ∃ r0 s, s ≠ HTTP_STATUS_OK ∧ handle_error w r0 s = (st, r')
  | None => True
  end.
Proof.
  destruct (handle_request WHITESPACE w g r env) as [[[st r'] env']|] eqn:H; [|done].
  apply handle_request_cases in H as (r1 & Hff & [(-> & Hf & _)|(r0 & s & Hs & He & _)]).
  - left. split; [done|]. rewrite <- Hff.
    unfold fflush_failed in Hf. by apply orb_false_elim in Hf as [? _].
  - right. by exists r0, s.
Qed.


(** A listing asked for with a body behind the empty line, and one asked
    for over a descriptor that refuses the write. *)
Example handle_request_flush_failure_samples :
  ((λ x, x.1.1)
     <$> handle_request blank_tab_newline sample_world initial_globals
           (fresh_request ["POST /docs HTTP/1.0" +:+ LF; LF; "a=1"]) ∅)
  = Some HTTP_STATUS_INTERNAL_SERVER_ERROR
  ∧ ((λ x, x.1.1)
       <$> handle_request blank_tab_newline sample_world initial_globals
             (mkRequest 0 (mkFILE [bytes ("GET /docs HTTP/1.0" +:+ LF); bytes LF]
                             EmptyString true)
                None None None None EmptyString EmptyString None []) ∅)
    = Some HTTP_STATUS_INTERNAL_SERVER_ERROR.
Proof. vm_compute. done. Qed.

(* ===================================================================== *)
(** ** handler.c: static files and scripts *)
(* ===================================================================== *)

Section FilesAndScripts.

Variables (w : World) (g : Globals).

Local Arguments Ascii.eqb : simpl never.
Local Arguments is_nul : simpl never.

Lemma file_type_regular st_mode :
  file_type st_mode = Regular →
  (Z.land st_mode S_IFMT =? S_IFDIR)%Z = false
  ∧ (Z.land st_mode S_IFMT =? S_IFREG)%Z = true.
Proof.
  unfold file_type, S_IFDIR, S_IFREG. generalize (Z.land st_mode S_IFMT). intros t.
  destruct (t =? 16384)%Z; [done|]. destruct (t =? 32768)%Z; [done|].
  repeat match goal with
         | |- context [(t =? ?k)%Z] => destruct (t =? k)%Z
         end; done.
Qed.



End FilesAndScripts.

(** X10: a resolved path that is a regular file without execute
    permission goes to handle_file_request.  When the file opens and the
    flush succeeds, the status is OK and the response is the status line
    [HTTP/1.0 200 OK], a Content-Type with the type determine_mimetype
    gives for the path, an empty line and the bytes of the file, which
    the loop copies in pieces of BUFSIZ bytes.  When the file opens and
    the flush fails, the file is closed a second time and the behaviour
    of the program is undefined.  When the file does not open, nothing is
    written but the Error Responder's page for InternalServerError. *)
Theorem dispatch_serves_regular_file (w : World) (g : Globals) (r : Request)
    (env : gmap string string) (path : string) (st_mode : Z) :
  r_path r = Some path → lstat w path = Some st_mode →
  file_type st_mode = Regular → access_X_OK w path = false →
  0 < BUFSIZ w →
  match fopen_r w path with
  | Some contents =>
      if fflush_failed r then dispatch w g r env = None
      else
        ∃ r', dispatch w g r env = Some (HTTP_STATUS_OK, r', env)
              ∧ written (r_file r')
                = written (r_file r) +:+ "HTTP/1.0 200 OK" +:+ CRLF
                    +:+ "Content-Type: " +:+ determine_mimetype w path +:+ CRLF
                    +:+ CRLF +:+ contents
  | None =>
      dispatch w g r env
      = Some (error_response w r HTTP_STATUS_INTERNAL_SERVER_ERROR, env)
  end.
Proof.
  intros Hp Hl Ht Ha Hb.
  destruct (file_type_regular st_mode Ht) as [Hd Hr].
  unfold dispatch. rewrite Hp. simpl. rewrite Hl. simpl. rewrite Hd, Hr, Ha.
  destruct (fopen_r w path) as [contents|] eqn:Ho.
  - rewrite (handle_file_request_opened w r path contents Hp Ho Hb).
    destruct (fflush_failed r); [done|]. simpl.
    eexists. split; [reflexivity|].
    by rewrite written_fprintf.
  - unfold handle_file_request. rewrite Hp. simpl. rewrite Ho. simpl.
    by rewrite handle_error_is_error_response.
Qed.

Lemma dispatch_serves_regular_file_witness :
  let r := set_path (Some "/srv/www/index.html")
             (set_uri (Some "/index.html") (fresh_request [])) in
  match fopen_r sample_world "/srv/www/index.html" with
  | Some contents =>
      if fflush_failed r then dispatch sample_world initial_globals r ∅ = None
      else
        ∃ r', dispatch sample_world initial_globals r ∅ = Some (HTTP_STATUS_OK, r', ∅)
              ∧ written (r_file r')
                = written (r_file r) +:+ "HTTP/1.0 200 OK" +:+ CRLF
                    +:+ "Content-Type: "
                    +:+ determine_mimetype sample_world "/srv/www/index.html" +:+ CRLF
                    +:+ CRLF +:+ contents
  | None =>
      dispatch sample_world initial_globals r ∅
      = Some (error_response sample_world r HTTP_STATUS_INTERNAL_SERVER_ERROR, ∅)
  end.
Proof.
  intros r.
  apply (dispatch_serves_regular_file sample_world initial_globals r ∅
           "/srv/www/index.html" 33188%Z);
    first [reflexivity | (apply Nat.ltb_lt; reflexivity)].
Defined.



(* ===================================================================== *)
(** ** handler.c: the variables of the CGI environment *)
(* ===================================================================== *)

Section CgiVariables.

Implicit Types (env : gmap string string).

Lemma base_variable_not_exported (var : string) :
  var ∈ cgi_base_variables → var ∉ map cgi_variable exported_names.
Proof.
  unfold cgi_base_variables. rewrite !elem_of_cons, elem_of_nil.
  rewrite cgi_variable_table, !not_elem_of_cons.
  intros [->|[->|[->|[->|[->|[->|[->|[->|[]]]]]]]]];
    split_and!; first [by intros [=] | apply not_elem_of_nil].
Qed.

End CgiVariables.

(** X12: the environment handle_cgi_request builds for a parsed and
    resolved request holds DOCUMENT_ROOT and SERVER_PORT from the
    configuration, QUERY_STRING with the query of the request or the
    empty string when there is none, REMOTE_ADDR and REMOTE_PORT with the
    peer host and port, and REQUEST_METHOD, REQUEST_URI and
    SCRIPT_FILENAME with the method, the URI and the resolved path; no
    header of the request changes any of them. *)
Theorem cgi_environment_request_variables (g : Globals) (r : Request)
    (env : gmap string string) (method uri path : string) :
  r_method r = Some method → r_uri r = Some uri → r_path r = Some path →
  Forall (λ h, is_Some (h_value h)) (header_list r) →
  ∃ env', cgi_environment g r env = Some env'
    ∧ env' !! "DOCUMENT_ROOT" = Some (RootPath g)
    ∧ env' !! "QUERY_STRING" = Some (default EmptyString (r_query r))
    ∧ env' !! "REMOTE_ADDR" = Some (r_host r)
    ∧ env' !! "REMOTE_PORT" = Some (r_port r)
    ∧ env' !! "REQUEST_METHOD" = Some method
    ∧ env' !! "REQUEST_URI" = Some uri
    ∧ env' !! "SCRIPT_FILENAME" = Some path
    ∧ env' !! "SERVER_PORT" = Some (Port g).
Proof.
  intros Hm Hu Hp Hall. unfold cgi_environment. rewrite Hm, Hu, Hp.
  assert (∀ var, var ∈ cgi_base_variables →
                 var ∉ map cgi_variable exported_names) as Hbase
    by apply base_variable_not_exported.
  destruct (r_query r) as [q|]; simpl.
  all: match goal with
       | |- context [export_headers _ ?e] =>
           destruct (export_headers_spec (header_list r) e Hall)
             as (env' & He & _ & Ho)
       end.
  all: exists env'; split; [exact He|].
  all: rewrite !Ho
         by (apply Hbase; unfold cgi_base_variables; rewrite !elem_of_cons; tauto).
  all: split_and!; by simplify_map_eq.
Qed.

Lemma cgi_environment_request_variables_witness :
  let r := set_path (Some "/srv/www/hello.cgi")
             (set_uri (Some "/hello.cgi")
                (set_method (Some "GET")
                   (set_headers (Some 0)
                      [mkHeader "Host" (Some "example.org") None]
                      (fresh_request [])))) in
  ∃ env', cgi_environment initial_globals r ∅ = Some env'
    ∧ env' !! "DOCUMENT_ROOT" = Some (RootPath initial_globals)
    ∧ env' !! "QUERY_STRING" = Some (default EmptyString (r_query r))
    ∧ env' !! "REMOTE_ADDR" = Some (r_host r)
    ∧ env' !! "REMOTE_PORT" = Some (r_port r)
    ∧ env' !! "REQUEST_METHOD" = Some "GET"
    ∧ env' !! "REQUEST_URI" = Some "/hello.cgi"
    ∧ env' !! "SCRIPT_FILENAME" = Some "/srv/www/hello.cgi"
    ∧ env' !! "SERVER_PORT" = Some (Port initial_globals).
Proof.
  intros r.
  apply (cgi_environment_request_variables initial_globals r ∅
           "GET" "/hello.cgi" "/srv/www/hello.cgi"); try reflexivity.
  repeat constructor; simpl; eauto.
Defined.

(** X13: the variables exported from headers stay in the process
    environment.  When the environment that one request left is the one
    the next request is handled in, as in the sequential server, and the
    next request has no header of an allow-listed name that the earlier
    one had, the script of the next request still sees the earlier
    request's value for it. *)
Theorem cgi_environment_keeps_earlier_header (g : Globals) (r1 r2 : Request)
    (env : gmap string string) (name : string) (h : Header) :
  is_Some (r_method r1) → is_Some (r_uri r1) → is_Some (r_path r1) →
  is_Some (r_method r2) → is_Some (r_uri r2) → is_Some (r_path r2) →
  Forall (λ h, is_Some (h_value h)) (header_list r1) →
  Forall (λ h, is_Some (h_value h)) (header_list r2) →
  name ∈ exported_names →
  last_named name (header_list r1) = Some h →
  last_named name (header_list r2) = None →
  ∃ env1 env2, cgi_environment g r1 env = Some env1
               ∧ cgi_environment g r2 env1 = Some env2
               ∧ env2 !! cgi_variable name = h_value h.
Proof.
  intros Hm1 Hu1 Hp1 Hm2 Hu2 Hp2 Hall1 Hall2 Hin Hl1 Hl2.
  destruct (cgi_environment_base g r1 env Hm1 Hu1 Hp1) as (e1 & Hc1 & _).
  destruct (export_headers_spec (header_list r1) e1 Hall1) as (env1 & He1 & Hn1 & _).
  destruct (cgi_environment_base g r2 env1 Hm2 Hu2 Hp2) as (e2 & Hc2 & Hb2).
  destruct (export_headers_spec (header_list r2) e2 Hall2) as (env2 & He2 & Hn2 & _).
  exists env1, env2. split_and!; [congruence..|].
  rewrite (Hn2 name Hin), Hl2.
  rewrite Hb2 by (by apply cgi_variable_not_base).
  by rewrite (Hn1 name Hin), Hl1.
Qed.

Lemma cgi_environment_keeps_earlier_header_witness :
  let ready hs := set_path (Some "/srv/www/hello.cgi")
                    (set_uri (Some "/hello.cgi")
                       (set_method (Some "GET")
                          (set_headers (Some 0) hs (fresh_request [])))) in
  let r1 := ready [mkHeader "User-Agent" (Some "curl") None] in
  let r2 := ready [mkHeader "Host" (Some "example.org") None] in
  ∃ env1 env2, cgi_environment initial_globals r1 ∅ = Some env1
               ∧ cgi_environment initial_globals r2 env1 = Some env2
               ∧ env2 !! cgi_variable "User-Agent" = Some "curl".
Proof.
  intros ready r1 r2.
  apply (cgi_environment_keeps_earlier_header initial_globals r1 r2 ∅ "User-Agent"
           (mkHeader "User-Agent" (Some "curl") None)).
  1-6: simpl; eauto.
  - repeat constructor; simpl; eauto.
  - repeat constructor; simpl; eauto.
  - unfold exported_names. rewrite !elem_of_cons. tauto.
  - reflexivity.
  - reflexivity.
Defined.

(* ===================================================================== *)
(** ** request.c and handler.c: header values *)
(* ===================================================================== *)

Section HeaderValues.

Local Abbreviation has_value := (λ h : Header, is_Some (h_value h)).

Lemma set_next_values a n cells cells' :
  Forall has_value cells → set_next a n cells = Some cells' →
  Forall has_value cells'.
Proof.
  intros Hall. unfold set_next.
  destruct (cells !! a) as [c|] eqn:Hc; [|done]. simpl. intros [= <-].
  apply Forall_insert; [done|].
  eapply Forall_lookup in Hall; [|exact Hc]. exact Hall.
Qed.

Lemma link_header_values cells headers curr temp cells' headers' curr' :
  Forall has_value cells →
  link_header cells headers curr temp = Some (cells', headers', curr') →
  Forall has_value cells'.
Proof.
  intros Hall. unfold link_header.
  destruct headers as [head|]; [|by intros [= <- _ _]].
  destruct (h_next <$> cells !! head) as [[n|]|]; [| |done].
  - destruct curr as [c|]; [|done]. simpl.
    destruct (set_next c (Some temp) cells) as [cs|] eqn:Hs; [|done].
    simpl. intros [= <- _ _]. by eapply set_next_values.
  - simpl. destruct (set_next head (Some temp) cells) as [cs|] eqn:Hs; [|done].
    simpl. intros [= <- _ _]. by eapply set_next_values.
Qed.

Lemma headers_loop_values (lines : list (list ascii)) :
  ∀ cells headers curr ret rest cells' headers',
    Forall has_value cells →
    headers_loop lines cells headers curr = Some (ret, rest, cells', headers') →
    Forall has_value cells'.
Proof.
  induction lines as [|line lines IH];
    intros cells headers curr ret rest cells' headers' Hall; simpl.
  { by intros [= _ _ <- _]. }
  destruct (streq _ 0 _ || streq _ 0 _); [by intros [= _ _ <- _]|].
  destruct (split_header (line ++ [NUL])) as [| |name value];
    [by intros [= _ _ <- _]|done|].
  destruct (link_header _ headers curr (length cells)) as [[[cs hd] cu]|] eqn:Hl;
    [|done].
  apply IH. eapply link_header_values; [|exact Hl].
  apply Forall_app. split; [done|]. repeat constructor. by eexists.
Qed.

Lemma chain_values cells : Forall has_value cells →
  ∀ fuel p, Forall has_value (chain fuel cells p).
Proof.
  intros Hall. induction fuel as [|fuel IH]; intros p; [by destruct p|].
  destruct p as [a|]; [|constructor]. simpl.
  destruct (cells !! a) as [c|] eqn:Hc; [|constructor].
  constructor; [|apply IH]. eapply Forall_lookup in Hall; [|exact Hc]. exact Hall.
Qed.

End HeaderValues.

(** X14: every header that parse_request_headers leaves in a request's
    list carries a value, whatever the lines of the block are and also
    when the block fails: the NULL case that handle_cgi_request provides
    for under Host never occurs after the parser, and the loop that
    exports the headers never hands [setenv] a NULL value. *)
Theorem parsed_headers_carry_values (r : Request) :
  Forall (λ h, is_Some (h_value h)) (r_cells r) →
  match parse_request_headers r with
  | Some (_, r') =>
      Forall (λ h, is_Some (h_value h)) (header_list r')
      ∧ ∀ env, is_Some (export_headers (header_list r') env)
  | None => True
  end.
Proof.
  intros Hall. unfold parse_request_headers.
  destruct (headers_loop _ _ _ _) as [[[[ret rest] cells] headers]|] eqn:Hl; [|done].
  pose proof (headers_loop_values _ _ _ _ _ _ _ _ Hall Hl) as Hc.
  assert (Forall (λ h, is_Some (h_value h))
            (header_list (set_headers headers cells
               (set_file (mkFILE rest (written (r_file r)) (flush_fails (r_file r))) r))))
    as Hh by (apply chain_values; exact Hc).
  split; [exact Hh|]. intros env.
  destruct (export_headers_spec _ env Hh) as (env' & -> & _). by eexists.
Qed.

Lemma parsed_headers_carry_values_witness :
  match parse_request_headers
          (mkRequest 0 (mkFILE (map bytes ["Host:example.org" +:+ LF; "Accept" +:+ LF])
                          EmptyString false)
             (Some "GET") (Some "/") None None EmptyString EmptyString None []) with
  | Some (_, r') =>
      Forall (λ h, is_Some (h_value h)) (header_list r')
      ∧ ∀ env, is_Some (export_headers (header_list r') env)
  | None => True
  end.
Proof.
  apply (parsed_headers_carry_values
           (mkRequest 0 (mkFILE (map bytes ["Host:example.org" +:+ LF; "Accept" +:+ LF])
                           EmptyString false)
              (Some "GET") (Some "/") None None EmptyString EmptyString None [])).
  constructor.
Defined.

(* ===================================================================== *)
(** ** request.c: what the parser leaves in the request *)
(* ===================================================================== *)

Section ParserOutcome.

Variable WHITESPACE : list ascii.

Lemma parse_request_method_outcome r :
  let '(m, r') := parse_request_method WHITESPACE r in
  (m = 0%Z ∧ is_Some (r_method r') ∧ is_Some (r_uri r'))
  ∨ (m = (-1)%Z ∧ r_method r' = r_method r ∧ r_uri r' = r_uri r
     ∧ r_query r' = r_query r).
Proof.
  unfold parse_request_method, fgets.
  destruct (pending (r_file r)) as [|line rest]; [by right|].
  destruct (strtok _ 0 WHITESPACE) as [[[method|] b1] save]; [|by right].
  destruct (strtok b1 save WHITESPACE) as [[[uri|] b2] save2]; [|by right].
  destruct (strchr b2 uri "?") as [temp|]; left; simpl; eauto.
Qed.

End ParserOutcome.

(** X15: parse_request returns 0, -1 or -2 and nothing else.  With -1
    (the request line failed) the method, the URI and the query of the
    request are as they were before; with 0 and with -2 (the headers
    failed) the method and the URI are both set: the request never holds
    one of the two without the other. *)
Theorem parse_request_method_and_uri_together (WHITESPACE : list ascii) (r : Request) :
  match parse_request WHITESPACE r with
  | Some (i, r') =>
      ((i = 0%Z ∨ i = (-2)%Z) ∧ is_Some (r_method r') ∧ is_Some (r_uri r'))
      ∨ (i = (-1)%Z ∧ r_method r' = r_method r ∧ r_uri r' = r_uri r
         ∧ r_query r' = r_query r)
  | None => True
  end.
Proof.
  unfold parse_request.
  pose proof (parse_request_method_outcome WHITESPACE r) as Hm.
  destruct (parse_request_method WHITESPACE r) as [m r0].
  destruct Hm as [(-> & Hme & Hu)|(-> & Hme & Hu & Hq)]; simpl; [|by right].
  unfold parse_request_headers.
  destruct (headers_loop _ _ _ _) as [[[[ret rest] cells] headers]|]; [|done].
  destruct (negb (ret =? 0)%Z); left; simpl; auto.
Qed.

(* ===================================================================== *)
(** ** request.c: what the header loop makes of a buffer *)
(* ===================================================================== *)

Section HeaderShapes.

Implicit Types (s l t junk : list ascii) (c : ascii).

Local Arguments Ascii.eqb : simpl never.
Local Arguments is_nul : simpl never.
Local Arguments isspace : simpl never.

(** The lone colon: the value pointer is 1, both lengths are as short as
    they get, and the write that cuts the name goes to [name - 1]. *)
Lemma split_header_lone_colon line :
  lone_colon line → split_header (line ++ [NUL]) = Undefined.
Proof.
  intros H. destruct (cstr_split line) as [junk ->].
  unfold lone_colon in H. rewrite H. reflexivity.
Qed.

Lemma lone_colon_has_colon line : lone_colon line → has_colon line.
Proof. unfold lone_colon, has_colon. intros ->. apply list_elem_of_here. Qed.

Lemma forallb_lookup (P : ascii → bool) s i c :
  forallb P s = true → s !! i = Some c → P c = true.
Proof.
  revert i. induction s as [|x s IH]; intros [|i]; simpl; try done.
  - by intros [? _]%andb_prop [= <-].
  - intros [_ ?]%andb_prop. by apply IH.
Qed.

Lemma string_at_prefix s junk p :
  forallb not_nul s = true → p ≤ length s →
  string_at (s ++ NUL :: junk) p = drop p s.
Proof.
  intros Hs Hp. unfold string_at. rewrite drop_app_le by done.
  apply cstr_app_nul. by apply forallb_drop.
Qed.

(** Writing a NUL into a string, or onto its terminator, cuts it there. *)
Lemma insert_nul_prefix s junk k :
  k ≤ length s →
  ∃ junk', <[k := NUL]> (s ++ NUL :: junk) = take k s ++ NUL :: junk'.
Proof.
  intros Hk. rewrite insert_take_drop by (rewrite length_app; simpl; lia).
  rewrite take_app_le by done. eauto.
Qed.

(** [skip_whitespace] stops on the terminator or on a byte that is not
    whitespace. *)
Lemma run_space_stops l :
  negb (is_nul (deref l (run_space l))) && isspace (deref l (run_space l)) = false.
Proof.
  induction l as [|c l IH]; [reflexivity|]. simpl.
  destruct (negb (is_nul c) && isspace c) eqn:E; [exact IH|exact E].
Qed.

Lemma skip_whitespace_stops b p :
  negb (is_nul (deref b (skip_whitespace b p)))
  && isspace (deref b (skip_whitespace b p)) = false.
Proof.
  unfold skip_whitespace, deref. rewrite <- lookup_drop. apply run_space_stops.
Qed.

Lemma trim_back_le (b : list ascii) (value : nat) : ∀ fuel (back : Z),
  (trim_back fuel b value back ≤ back)%Z.
Proof.
  induction fuel as [|fuel IH]; intros back; simpl; [done|].
  destruct (_ && _); [|done]. specialize (IH (back - 1)%Z). lia.
Qed.

End HeaderShapes.

(** X16: the three things the body of the header loop can make of a
    buffer, told apart by the buffer's text up to its terminator: without
    a colon it is the [goto fail]; the text that is a colon and nothing
    else makes the write that cuts the name land one byte below the
    buffer; every other text with a colon gives a header. *)
Theorem split_header_three_cases (line : list ascii) :
  (split_header (line ++ [NUL]) = NoColon ↔ ¬ has_colon line)
  ∧ (split_header (line ++ [NUL]) = Undefined ↔ lone_colon line)
  ∧ ((∃ name value, split_header (line ++ [NUL]) = Split name value)
     ↔ has_colon line ∧ ¬ lone_colon line).
Proof.
  destruct (decide (has_colon line)) as [Hc|Hc].
  - destruct (decide (cstr line = [":"%char])) as [Hl|Hl].
    + rewrite (split_header_lone_colon line Hl).
      split_and!; split; try done.
      * intros (? & ? & [=]).
      * by intros [_ ?].
    + destruct (split_header_defined line Hc Hl) as (n & v & ->).
      split_and!; split; try done. eauto.
  - rewrite (split_header_no_colon line Hc).
    assert (¬ lone_colon line) as Hl
      by (intros Hl; by apply Hc, lone_colon_has_colon).
    split_and!; split; try done.
    + intros (? & ? & [=]).
    + by intros [? _].
Qed.

(** X17: the value of a header never starts and never ends with
    whitespace, whatever the buffer holds: [skip_whitespace] leaves the
    value pointer on a byte that is not whitespace (or on the terminator),
    and the loop that steps [back] down stops on such a byte or on the
    value pointer. *)
Theorem split_header_value_trimmed (line : list ascii) (name value : string) :
  split_header (line ++ [NUL]) = Split name value → trimmed value.
Proof.
  unfold split_header, strchr. rewrite drop_0.
  pose proof (find_char_spec ":" (line ++ [NUL])) as Hf.
  rewrite cstr_snoc_nul in Hf.
  destruct (find_char ":" (line ++ [NUL])) as [i|]; [|done].
  specialize (Hf ltac:(done)). simpl.
  destruct (cstr_split line) as [junk Hb]. rewrite Hb.
  set (s := cstr line) in *. set (b := s ++ NUL :: junk).
  pose proof (cstr_not_nul line) as Hs. fold s in Hs.
  pose proof (lookup_lt_Some _ _ _ Hf) as Hi.
  set (split := skip_nonwhitespace b i).
  assert (split ≤ length s) as Hsplit by (apply skip_nonwhitespace_le; lia).
  pose proof (skip_whitespace_stops b split) as Hstop.
  set (v := skip_whitespace b split) in *.
  assert (v ≤ length s) as Hv by (by apply skip_whitespace_le).
  assert (strlen b v = length s - v) as Hlen.
  { unfold strlen, b. rewrite string_at_prefix by done. apply length_drop. }
  rewrite Hlen.
  pose proof (trim_back_ge b v (length b)
                (Z.of_nat v + Z.of_nat (length s - v) - 1)%Z ltac:(lia)) as Hge.
  pose proof (trim_back_le b v (length b)
                (Z.of_nat v + Z.of_nat (length s - v) - 1)%Z) as Hle.
  pose proof (trim_back_stops b v (length b)
                (Z.of_nat v + Z.of_nat (length s - v) - 1)%Z) as Hback.
  assert (length b = S (length s + length junk)) as Hlb
    by (unfold b; rewrite length_app; simpl; lia).
  specialize (Hback ltac:(lia)).
  set (back := trim_back (length b) b v
                 (Z.of_nat v + Z.of_nat (length s - v) - 1)%Z) in *.
  set (k := Z.to_nat (back + 1)).
  assert (v ≤ k ≤ length s) as Hk by (unfold k; lia).
  destruct (insert_nul_prefix s junk k ltac:(lia)) as [junk' Hb'].
  fold b in Hb'. rewrite Hb'.
  destruct (_ <? 0)%Z; [done|]. intros [= _ <-].
  unfold trimmed, strdup, bytes. rewrite list_ascii_of_string_of_list_ascii.
  rewrite string_at_prefix
    by (by apply forallb_take || (rewrite length_take_le; lia)).
  destruct (drop v (take k s)) as [|c l] eqn:E; [done|].
  assert (S (length l) = k - v) as Hl.
  { change (S (length l)) with (length (c :: l)). rewrite <- E.
    rewrite length_drop, length_take_le; lia. }
  assert (s !! v = Some c) as Hc.
  { assert ((c :: l) !! 0 = Some c) as H0 by done.
    rewrite <- E, lookup_drop, lookup_take_lt in H0 by lia.
    by rewrite Nat.add_0_r in H0. }
  assert (s !! (v + length l) = Some (List.last l c)) as Hlast.
  { pose proof (lookup_last l c) as H0.
    rewrite <- E, lookup_drop, lookup_take_lt in H0 by lia. done. }
  assert (∀ p x, s !! p = Some x → deref b p = x) as Hderef.
  { intros p x Hp. unfold deref, b.
    rewrite lookup_app_l by (by eapply lookup_lt_Some). by rewrite Hp. }
  assert (isspace c = false) as Hfirst.
  { rewrite (Hderef v c Hc) in Hstop.
    pose proof (forallb_lookup not_nul s v c Hs Hc) as Hn.
    unfold not_nul in Hn. by rewrite Hn in Hstop. }
  split; [done|].
  destruct (Z.ltb_spec (Z.of_nat v) back) as [Hlt|Hnlt].
  - simpl in Hback.
    replace (Z.to_nat back) with (v + length l) in Hback by lia.
    by rewrite (Hderef _ _ Hlast) in Hback.
  - assert (length l = 0) as Hl0 by lia.
    destruct l; [done|simpl in Hl0; lia].
Qed.

Lemma split_header_value_trimmed_witness :
  split_header (bytes ("Accept:   text/html, */*  " +:+ CRLF) ++ [NUL])
  = Split "Accept: " "text/html, */*"
  ∧ trimmed "text/html, */*".
Proof.
  assert (split_header (bytes ("Accept:   text/html, */*  " +:+ CRLF) ++ [NUL])
          = Split "Accept: " "text/html, */*") as H by (vm_compute; reflexivity).
  split; [exact H|].
  exact (split_header_value_trimmed _ _ _ H).
Defined.

(* ===================================================================== *)
(** ** request.c: request lines of any spacing *)
(* ===================================================================== *)

Section TwoTokens.

Variable WHITESPACE : list ascii.
Implicit Types (pre m sep u t : list ascii) (d x : ascii).

Local Arguments Ascii.eqb : simpl never.
Local Arguments is_nul : simpl never.

(** The two [strtok] calls on a buffer that holds delimiters, a token,
    one delimiter or more, and a token that a delimiter or the terminator
    ends. *)
Lemma strtok_two_tokens pre m d sep u x t :
  m ≠ [] → u ≠ [] →
  forallb (delim_byte WHITESPACE) pre = true →
  forallb (token_byte WHITESPACE) m = true →
  delim_byte WHITESPACE d = true →
  forallb (delim_byte WHITESPACE) sep = true →
  forallb (token_byte WHITESPACE) u = true →
  delim_byte WHITESPACE x = true ∨ x = NUL →
  strtok (pre ++ m ++ d :: sep ++ u ++ x :: t) 0 WHITESPACE
  = (Some (length pre), pre ++ m ++ NUL :: sep ++ u ++ x :: t,
     length pre + length m + 1)
  ∧ ∃ save,
      strtok (pre ++ m ++ NUL :: sep ++ u ++ x :: t)
        (length pre + length m + 1) WHITESPACE
      = (Some (length pre + length m + 1 + length sep),
         pre ++ m ++ NUL :: sep ++ u ++ NUL :: t, save).
Proof.
  intros Hm Hu Hpre Htm Hd Hsep Htu Hx. split.
  - destruct (strtok_leading WHITESPACE [] pre m d (sep ++ u ++ x :: t) Hm Hpre Htm)
      as [H _].
    exact (H Hd).
  - destruct (strtok_leading WHITESPACE (pre ++ m ++ [NUL]) sep u x t Hu Hsep Htu)
      as [H1 H2].
    assert (length (pre ++ m ++ [NUL]) = length pre + length m + 1) as Hlen
      by (rewrite !length_app; simpl; lia).
    assert (∀ y, (pre ++ m ++ [NUL]) ++ sep ++ u ++ y :: t
                 = pre ++ m ++ NUL :: sep ++ u ++ y :: t) as Hflat
      by (intros y; by flatten_app).
    rewrite Hlen, !Hflat in H1. rewrite Hlen, !Hflat in H2.
    destruct Hx as [Hx| ->]; [rewrite (H1 Hx)|rewrite H2]; eauto.
Qed.

End TwoTokens.

(** X18: parse_request_method takes the first two tokens of the buffer
    and looks at nothing else.  Delimiters before the method, any number
    of them between the method and the URI token, and whatever follows the
    URI token (a protocol version, something else, or nothing at all) make
    no difference: the method is the first token, the URI the second up to
    its first [?], the query what follows that [?], and the call returns
    0. *)
Theorem parse_request_method_reads_two_tokens (WHITESPACE : list ascii)
    (r : Request) (pre sep tail : list ascii) (METHOD URI : string)
    (QUERY : option string) (rest : list (list ascii)) :
  token_byte WHITESPACE "?" = true →
  forallb (delim_byte WHITESPACE) pre = true →
  METHOD ≠ EmptyString → token_text WHITESPACE METHOD = true →
  sep ≠ [] → forallb (delim_byte WHITESPACE) sep = true →
  token_text WHITESPACE URI = true → no_question_mark URI = true →
  match QUERY with
  | Some q => token_text WHITESPACE q = true
  | None => URI ≠ EmptyString
  end →
  token_end WHITESPACE tail →
  pending (r_file r)
  = (pre ++ bytes METHOD ++ sep ++ uri_token URI QUERY ++ tail) :: rest →
  ∃ r', parse_request_method WHITESPACE r = (0%Z, r')
        ∧ r_method r' = Some METHOD
        ∧ r_uri r' = Some URI
        ∧ r_query r' = match QUERY with Some q => Some q | None => r_query r end
        ∧ pending (r_file r') = rest.
Proof.
  intros Hqm Hpre HM HtM Hsep Hsepd HtU HnoQ HQ Htail Hpending.
  assert (bytes METHOD ≠ []) as HM' by (by destruct METHOD).
  pose proof (token_text_not_nul _ _ HtM) as HnM.
  pose proof (token_text_not_nul _ _ HtU) as HnU.
  destruct sep as [|d sep]; [done|]. simpl in Hsepd.
  apply andb_prop in Hsepd as [Hd Hsepd].
  assert (∃ x t, tail ++ [NUL] = x :: t
                 ∧ (delim_byte WHITESPACE x = true ∨ x = NUL))
    as (x & t & Ht & Hx).
  { destruct tail as [|x tl]; [exists NUL, []; auto|].
    exists x, (tl ++ [NUL]). split; [done|exact Htail]. }
  unfold parse_request_method, fgets. rewrite Hpending.
  set (u := uri_token URI QUERY).
  assert ((pre ++ bytes METHOD ++ (d :: sep) ++ u ++ tail) ++ [NUL]
          = pre ++ bytes METHOD ++ d :: sep ++ u ++ x :: t) as ->.
  { rewrite <- Ht. by flatten_app. }
  assert (u ≠ []) as Hu.
  { unfold u, uri_token. destruct QUERY; [by destruct (bytes URI)|].
    rewrite app_nil_r. by destruct URI. }
  assert (forallb (token_byte WHITESPACE) u = true) as Htu.
  { unfold u, uri_token. rewrite forallb_app. unfold token_text in HtU.
    rewrite HtU. destruct QUERY as [q|]; [|done].
    simpl. unfold token_text in HQ. by rewrite Hqm, HQ. }
  destruct (strtok_two_tokens WHITESPACE pre (bytes METHOD) d sep u x t
              HM' Hu Hpre HtM Hd Hsepd Htu Hx) as [-> [save ->]].
  set (P := pre ++ bytes METHOD ++ NUL :: sep).
  set (uri := length pre + length (bytes METHOD) + 1 + length sep).
  assert (uri = length P) as Huri
    by (unfold uri, P; rewrite !length_app; simpl; lia).
  assert (∀ l, pre ++ bytes METHOD ++ NUL :: sep ++ l = P ++ l) as HP
    by (intros l; unfold P; by flatten_app).
  assert (∀ l, strdup (P ++ l) (length pre) = METHOD) as Hmethod.
  { intros l. unfold P.
    replace ((pre ++ bytes METHOD ++ NUL :: sep) ++ l)
      with (pre ++ bytes METHOD ++ NUL :: (sep ++ l)) by (by flatten_app).
    by apply strdup_here. }
  rewrite HP. unfold u, uri_token. destruct QUERY as [q|].
  - (* URI?QUERY *)
    pose proof (token_text_not_nul _ _ HQ) as Hnq.
    set (b2 := P ++ (bytes URI ++ "?"%char :: bytes q) ++ NUL :: t).
    assert (b2 = P ++ bytes URI ++ "?"%char :: bytes q ++ NUL :: t) as Hb2
      by (unfold b2; by flatten_app).
    assert (strchr b2 uri "?" = Some (uri + length (bytes URI))) as ->.
    { unfold strchr. rewrite Hb2, drop_at by done.
      rewrite find_char_here; [done|].
      unfold no_question_mark in HnoQ. clear -HnoQ HnU.
      induction (bytes URI) as [|c l IH]; [done|]. simpl in *.
      apply andb_prop in HnoQ as [-> ?], HnU as [-> ?]. simpl. by apply IH. }
    assert (strlen b2 uri = length (bytes URI) + 1 + length (bytes q)) as ->.
    { unfold strlen, b2. rewrite string_at_here; [|done|].
      - rewrite length_app. simpl. lia.
      - rewrite forallb_app. simpl. by rewrite HnU, Hnq. }
    assert (strlen b2 (uri + length (bytes URI) + 1) = length (bytes q)) as ->.
    { unfold strlen.
      replace b2 with ((P ++ bytes URI ++ ["?"%char]) ++ bytes q ++ NUL :: t)
        by (rewrite Hb2; by flatten_app).
      rewrite string_at_here; [done| |done].
      rewrite !length_app. simpl. lia. }
    replace (uri + (length (bytes URI) + 1 + length (bytes q)) - length (bytes q) - 1)
      with (uri + length (bytes URI)) by lia.
    assert (<[uri + length (bytes URI) := NUL]> b2
            = P ++ bytes URI ++ NUL :: bytes q ++ NUL :: t) as ->.
    { rewrite Hb2, app_assoc.
      rewrite insert_at by (rewrite length_app; lia).
      by flatten_app. }
    eexists. split; [reflexivity|]. simpl. split_and!; [..|done].
    + f_equal. apply Hmethod.
    + f_equal. by apply strdup_here.
    + f_equal.
      replace (P ++ bytes URI ++ NUL :: bytes q ++ NUL :: t)
        with ((P ++ bytes URI ++ [NUL]) ++ bytes q ++ NUL :: t)
        by (by flatten_app).
      apply strdup_here; [|done]. rewrite !length_app. simpl. lia.
  - (* no query *)
    rewrite app_nil_r.
    assert (strchr (P ++ bytes URI ++ NUL :: t) uri "?" = None) as ->.
    { unfold strchr. rewrite drop_at by done. by rewrite find_char_absent. }
    eexists. split; [reflexivity|]. simpl. split_and!; [..|done|done].
    + f_equal. apply Hmethod.
    + f_equal. by apply strdup_here.
Qed.

Lemma parse_request_method_reads_two_tokens_witness :
  let r := fresh_request [String "009" " POST  " +:+ String "009" "/form?a=1&b=?"] in
  ∃ r', parse_request_method blank_tab_newline r = (0%Z, r')
        ∧ r_method r' = Some "POST"
        ∧ r_uri r' = Some "/form"
        ∧ r_query r' = Some "a=1&b=?"
        ∧ pending (r_file r') = [].
Proof.
  intros r.
  apply (parse_request_method_reads_two_tokens blank_tab_newline r
           ["009"; " "]%char [" "; " "; "009"]%char [] "POST" "/form" (Some "a=1&b=?") []);
    try reflexivity; try discriminate.
Defined.

(* ===================================================================== *)
(** ** spidey.c: arguments behind the options *)
(* ===================================================================== *)

Section Operands.

Variables argv post : list string.

Lemma loop_condition_prefix o :
  argind o < length argv →
  loop_condition (argv ++ post) o = loop_condition argv o.
Proof.
  intros Hlt. unfold loop_condition, arg. by rewrite lookup_app_l.
Qed.

(** The loop body reads [argv[argind]] and, in the branches that take a
    value, [argv[argind + 1]]; where that one is the NULL behind the
    arguments, the body returns false. *)
Lemma loop_body_prefix o :
  argind o < length argv →
  loop_body (argv ++ post) o = loop_body argv o
  ∨ ∃ o', loop_body argv o = Return false o'.
Proof.
  intros Hlt. unfold loop_body, take_value, arg.
  rewrite lookup_app_l by done.
  destruct (argv !! argind o) as [a|]; [|by left].
  destruct (decide (S (argind o) < length argv)) as [Hs|Hs].
  { left. by rewrite lookup_app_l. }
  rewrite (lookup_ge_None_2 argv (S (argind o))) by lia.
  repeat match goal with
         | |- context [String.eqb a ?f] => destruct (String.eqb a f)
         end; eauto.
Qed.

Lemma options_loop_prefix : ∀ fuel o0 o,
  options_loop fuel argv o0 = Some (Return true o) →
  argind o < length argv →
  options_loop fuel (argv ++ post) o0 = Some (Return true o).
Proof.
  induction fuel as [|fuel IH]; intros o0 o Hloop Hlt; [done|].
  simpl in *.
  destruct (decide (argind o0 < length argv)) as [H0|H0].
  - rewrite loop_condition_prefix by done.
    destruct (loop_condition argv o0); [|done].
    destruct (loop_body_prefix o0 H0) as [->|[o' Hb]].
    + destruct (loop_body argv o0); [by apply IH|done..].
    + rewrite Hb in Hloop. done.
  - unfold loop_condition, arg in Hloop.
    rewrite (lookup_ge_None_2 argv (argind o0)) in Hloop by lia.
    injection Hloop as <-. lia.
Qed.

End Operands.

(** X19: parse_options stops at the first argument that is not a flag
    (one that does not start with [-], or is a single character) and
    reads nothing behind it: when it returns true with arguments left
    over, the result is the same whatever follows, also flags that would
    otherwise have been rejected or have changed the configuration. *)
Theorem parse_options_ignores_arguments_behind_operand (fuel : nat)
    (argv post : list string) (g : Globals) (o : Options) :
  parse_options fuel argv g = Some (Return true o) →
  argind o < length argv →
  parse_options fuel (argv ++ post) g = Some (Return true o).
Proof. apply options_loop_prefix. Qed.

Lemma parse_options_ignores_arguments_behind_operand_witness :
  let o := mkOptions 3 None (set_Port "8080" initial_globals) in
  parse_options 5 (["spidey"; "-p"; "8080"; "www"] ++ ["-c"; "Neither"; "-r"])
    initial_globals
  = Some (Return true o).
Proof.
  intros o.
  apply (parse_options_ignores_arguments_behind_operand 5
           ["spidey"; "-p"; "8080"; "www"] ["-c"; "Neither"; "-r"] initial_globals o).
  - reflexivity.
  - simpl. lia.
Defined.

(* ===================================================================== *)
(** ** handler.c: how a response begins *)
(* ===================================================================== *)

Section StatusLine.

Variables (WHITESPACE : list ascii) (w : World) (g : Globals).

Local Arguments finish : simpl never.
Local Arguments handle_error : simpl never.
Local Arguments copy_file : simpl never.

Lemma begins_fprintf r r' s :
  begins_with_status_line r r' → begins_with_status_line r (fprintf r' s).
Proof.
  intros [rest H]. exists (rest +:+ s).
  by rewrite written_fprintf, H, !string_app_assoc.
Qed.

Lemma begins_foldl (item : string → string) (entries : list string) : ∀ r r',
  begins_with_status_line r r' →
  begins_with_status_line r (foldl (λ r d_name, fprintf r (item d_name)) r' entries).
Proof.
  induction entries as [|e entries IH]; intros r r' H; [done|].
  simpl. by apply IH, begins_fprintf.
Qed.

Lemma begins_first r rest :
  begins_with_status_line r (fprintf r ("HTTP/1.0 " +:+ rest)).
Proof. exists rest. apply written_fprintf. Qed.

Lemma handle_error_written r status :
  written (r_file (handle_error w r status).2)
  = written (r_file r) +:+ "HTTP/1.0 " +:+ http_status_string w status +:+ CRLF
      +:+ "Content-Type: " +:+ "text/html" +:+ CRLF +:+ CRLF
      +:+ "<h1>" +:+ http_status_string w status +:+ "</h1>" +:+ CRLF.
Proof.
  unfold handle_error.
  set (r4 := fprintf (fprintf (fprintf (fprintf r _) _) _) _).
  assert (written (r_file r4)
          = written (r_file r) +:+ "HTTP/1.0 " +:+ http_status_string w status +:+ CRLF
              +:+ "Content-Type: " +:+ "text/html" +:+ CRLF +:+ CRLF
              +:+ "<h1>" +:+ http_status_string w status +:+ "</h1>" +:+ CRLF) as H.
  { unfold r4. rewrite !written_fprintf. by rewrite !string_app_assoc. }
  by destruct (fflush_failed r4).
Qed.

Lemma begins_handle_error r status :
  begins_with_status_line r (handle_error w r status).2.
Proof. eexists. apply handle_error_written. Qed.

Lemma begins_then_handle_error r r' status :
  begins_with_status_line r r' →
  begins_with_status_line r (handle_error w r' status).2.
Proof.
  intros [rest H]. eexists.
  rewrite handle_error_written, H. rewrite !string_app_assoc. reflexivity.
Qed.

(** A handler has either written nothing and failed, or begun its
    response with the status line. *)
Lemma handle_browse_request_begins r st r1 :
  handle_browse_request w r = Some (st, r1) →
  (r1 = r ∧ st ≠ HTTP_STATUS_OK) ∨ begins_with_status_line r r1.
Proof.
  unfold handle_browse_request.
  destruct (r_path r) as [path|]; [|done]. destruct (r_uri r) as [uri|]; [|done].
  simpl. destruct (scandir w path) as [entries|]; [|intros [= <- <-]; by left].
  intros H. right.
  assert (begins_with_status_line r
            (fprintf
               (foldl (λ r d_name, fprintf r (browse_item w uri path d_name))
                  (fprintf (fprintf (fprintf (fprintf r ("HTTP/1.0 " +:+ "200 OK" +:+ CRLF))
                     ("Content-Type: text/html" +:+ CRLF)) CRLF) ("<ul>" +:+ CRLF))
                  entries)
               ("</ul>" +:+ CRLF))) as Hb.
  { apply begins_fprintf, begins_foldl. do 3 apply begins_fprintf. apply begins_first. }
  destruct (fflush_failed _); injection H as <- <-; exact Hb.
Qed.

Lemma handle_file_request_begins r st r1 :
  handle_file_request w r = Some (st, r1) →
  (r1 = r ∧ st ≠ HTTP_STATUS_OK) ∨ begins_with_status_line r r1.
Proof.
  unfold handle_file_request.
  destruct (r_path r) as [path|]; [|done]. simpl.
  destruct (fopen_r w path) as [contents|]; [|intros [= <- <-]; by left].
  intros H. right.
  match type of H with
  | context [copy_file ?f ?n ?fs ?r0] =>
      assert (begins_with_status_line r r0) as Hb0
        by (do 2 apply begins_fprintf; apply (begins_first r ("200 OK" +:+ CRLF)));
      assert (∃ r', copy_file f n fs r0 = Some r' ∧ begins_with_status_line r r')
        as (r' & Hc & Hb)
  end.
  { destruct (BUFSIZ w) as [|n].
    - eexists. split; [by destruct (bytes contents)|done].
    - rewrite copy_file_all by lia. eexists. split; [done|]. by apply begins_fprintf. }
  rewrite Hc in H. simpl in H.
  destruct (fflush_failed r'); [done|]. by injection H as <- <-.
Qed.

Lemma finish_begins r st r1 :
  (r1 = r ∧ st ≠ HTTP_STATUS_OK) ∨ begins_with_status_line r r1 →
  begins_with_status_line r (finish w (st, r1)).2.
Proof.
  intros [[-> Hst]|Hb].
  - destruct (finish_cases w st r) as [[? _]|[_ ->]]; [done|].
    apply begins_handle_error.
  - destruct (finish_cases w st r1) as [[_ ->]|[_ ->]]; [done|].
    by apply begins_then_handle_error.
Qed.

Lemma parse_request_written r i r1 :
  parse_request WHITESPACE r = Some (i, r1) →
  written (r_file r1) = written (r_file r)
  ∧ (i = 0%Z ∨ i = (-1)%Z ∨ i = (-2)%Z).
Proof.
  unfold parse_request.
  destruct (parse_request_method WHITESPACE r) as [m r0] eqn:Hm.
  apply parse_request_method_written in Hm.
  destruct (negb (m =? 0)%Z); [intros [= <- <-]; auto|].
  unfold parse_request_headers.
  destruct (headers_loop _ _ _ _) as [[[[ret rest] cells] headers]|]; [|done].
  destruct (negb (ret =? 0)%Z); intros [= <- <-]; auto.
Qed.

Lemma begins_from r0 r r' :
  written (r_file r) = written (r_file r0) →
  begins_with_status_line r r' → begins_with_status_line r0 r'.
Proof. intros H [rest Hb]. exists rest. by rewrite Hb, H. Qed.

End StatusLine.

(** X20: whatever handle_request has written to the client stream when
    it returns begins with a status line [HTTP/1.0 ...], on every path
    through it but one: a request that parses and resolves to a regular
    file with execute permission, whose response is left to the
    script. *)
Theorem handle_request_begins_with_status_line (WHITESPACE : list ascii)
    (w : World) (g : Globals) (r : Request) (env : gmap string string) :
  match handle_request WHITESPACE w g r env with
  | Some (_, r', _) =>
      begins_with_status_line r r' ∨ requests_script WHITESPACE w r
  | None => True
  end.
Proof.
  unfold handle_request.
  destruct (parse_request WHITESPACE r) as [[i r1]|] eqn:Hp; [|done].
  destruct (parse_request_written WHITESPACE r i r1 Hp) as [Hw Hi]. simpl.
  assert (∀ r0 s, written (r_file r0) = written (r_file r) →
            let (_, r') := handle_error w r0 s in
            begins_with_status_line r r' ∨ requests_script WHITESPACE w r) as Herr.
  { intros r0 s H0. destruct (handle_error w r0 s) as [st r'] eqn:Hf.
    left. eapply begins_from; [exact H0|].
    change r' with (st, r').2. rewrite <- Hf. apply begins_handle_error. }
  assert (∀ r0 s res,
            written (r_file r0) = written (r_file r) →
            (res.2 = r0 ∧ s ≠ HTTP_STATUS_OK) ∨ begins_with_status_line r0 res.2 →
            res.1 = s →
            let (_, r') := finish w res in
            begins_with_status_line r r' ∨ requests_script WHITESPACE w r) as Hfin.
  { intros r0 s [s' r3] H0 Hb Hs. simpl in Hb, Hs. subst s'.
    destruct (finish w (s, r3)) as [st r'] eqn:Hf.
    left. eapply begins_from; [exact H0|].
    change r' with (st, r').2. rewrite <- Hf. by apply finish_begins. }
  destruct (i =? -1)%Z eqn:E1; [by apply Herr|].
  destruct (i =? -2)%Z eqn:E2; [by apply Herr|].
  assert (i = 0%Z) as -> by lia.
  destruct (r_uri r1) as [uri|] eqn:Hu; [|done]. simpl.
  destruct (determine_request_path w uri) as [path|] eqn:Hpath; simpl;
    [|by apply Herr].
  unfold dispatch. simpl.
  set (r2 := set_path (Some path) r1).
  assert (written (r_file r2) = written (r_file r)) as Hw2 by exact Hw.
  destruct (Z.land (default (stack_st_mode w) (lstat w path)) S_IFMT =? S_IFDIR)%Z.
  { destruct (handle_browse_request w r2) as [[s r0]|] eqn:Hh; [|done]. simpl.
    apply (Hfin r2 s (s, r0)); [done| |done].
    by eapply handle_browse_request_begins. }
  destruct (Z.eqb_spec (Z.land (default (stack_st_mode w) (lstat w path)) S_IFMT) S_IFREG)
    as [Hreg|_].
  { destruct (access_X_OK w path) eqn:Hx.
    - destruct (handle_cgi_request w g r2 env) as [[[s r0] e0]|]; [|done]. simpl.
      match goal with |- let (_, _) := ?res in _ => destruct res end.
      right. by exists r1, uri, path.
    - destruct (handle_file_request w r2) as [[s r0]|] eqn:Hh; [|done]. simpl.
      apply (Hfin r2 s (s, r0)); [done| |done].
      by eapply handle_file_request_begins. }
  apply (Hfin r2 HTTP_STATUS_BAD_REQUEST (HTTP_STATUS_BAD_REQUEST, r2)); [done| |done].
  by left.
Qed.

(* ===================================================================== *)
(** ** request.c: where the header loop cuts the buffer *)
(* ===================================================================== *)

Section HeaderCuts.

Implicit Types (s l t junk : list ascii) (c : ascii).

Local Arguments Ascii.eqb : simpl never.
Local Arguments is_nul : simpl never.
Local Arguments isspace : simpl never.

(** The bytes the trimming loop has stepped over are whitespace. *)
Lemma trim_back_skipped (b : list ascii) (value : nat) : ∀ fuel (back : Z) (p : nat),
  (trim_back fuel b value back < Z.of_nat p ≤ back)%Z →
  isspace (deref b p) = true.
Proof.
  induction fuel as [|fuel IH]; intros back p Hp; simpl in Hp; [lia|].
  destruct ((Z.of_nat value <? back)%Z && isspace (deref b (Z.to_nat back))) eqn:E;
    [|lia].
  apply andb_prop in E as [_ E].
  destruct (decide (Z.of_nat p = back)) as [<-|Hne].
  - by rewrite Nat2Z.id in E.
  - apply (IH (back - 1)%Z). lia.
Qed.

Lemma forallb_of_lookup (P : ascii → bool) l :
  (∀ i c, l !! i = Some c → P c = true) → forallb P l = true.
Proof.
  induction l as [|x l IH]; intros H; [done|]. simpl.
  rewrite (H 0 x) by done. apply IH. intros i c Hi. by apply (H (S i)).
Qed.

(** The two offsets at which the body of the header loop cuts the text
    [s] of the buffer: the name is what lies before [v - 2], the value
    what lies between the value pointer [v] and [k], and behind [k]
    there is whitespace only. *)
Lemma split_header_offsets (line : list ascii) (name value : string) :
  split_header (line ++ [NUL]) = Split name value →
  ∃ v k, 2 ≤ v ∧ v ≤ k ∧ k ≤ length (cstr line)
         ∧ bytes name = take (v - 2) (cstr line)
         ∧ bytes value = drop v (take k (cstr line))
         ∧ forallb isspace (drop k (cstr line)) = true.
Proof.
  unfold split_header, strchr. rewrite drop_0.
  pose proof (find_char_spec ":" (line ++ [NUL])) as Hf.
  rewrite cstr_snoc_nul in Hf.
  destruct (find_char ":" (line ++ [NUL])) as [i|]; [|done].
  specialize (Hf ltac:(done)). simpl.
  destruct (cstr_split line) as [junk Hb]. rewrite Hb.
  set (s := cstr line) in *. set (b := s ++ NUL :: junk).
  pose proof (cstr_not_nul line) as Hs. fold s in Hs.
  pose proof (lookup_lt_Some _ _ _ Hf) as Hi.
  set (split := skip_nonwhitespace b i).
  assert (split ≤ length s) as Hsplit by (apply skip_nonwhitespace_le; lia).
  set (v := skip_whitespace b split) in *.
  assert (v ≤ length s) as Hv by (by apply skip_whitespace_le).
  assert (strlen b v = length s - v) as Hlen.
  { unfold strlen, b. rewrite string_at_prefix by done. apply length_drop. }
  rewrite Hlen.
  pose proof (trim_back_ge b v (length b)
                (Z.of_nat v + Z.of_nat (length s - v) - 1)%Z ltac:(lia)) as Hge.
  pose proof (trim_back_le b v (length b)
                (Z.of_nat v + Z.of_nat (length s - v) - 1)%Z) as Hle.
  pose proof (trim_back_skipped b v (length b)
                (Z.of_nat v + Z.of_nat (length s - v) - 1)%Z) as Hskip.
  set (back := trim_back (length b) b v
                 (Z.of_nat v + Z.of_nat (length s - v) - 1)%Z) in *.
  set (k := Z.to_nat (back + 1)).
  assert (v ≤ k ≤ length s) as Hk by (unfold k; lia).
  destruct (insert_nul_prefix s junk k ltac:(lia)) as [junk' Hb'].
  fold b in Hb'. rewrite Hb'.
  assert (forallb not_nul (take k s) = true) as Hks by (by apply forallb_take).
  assert (length (take k s) = k) as Hlk by (rewrite length_take_le; lia).
  assert (strlen (take k s ++ NUL :: junk') v = k - v) as Hlv.
  { unfold strlen. rewrite string_at_prefix by (done || lia).
    rewrite length_drop. lia. }
  assert (strlen (take k s ++ NUL :: junk') 0 = k) as Hl0.
  { unfold strlen. rewrite string_at_prefix by (done || lia). by rewrite drop_0. }
  rewrite Hlv, Hl0.
  destruct (Z.ltb_spec (Z.of_nat 0 + Z.of_nat k - Z.of_nat (k - v) - 2) 0) as [|Hcut];
    [done|].
  replace (Z.to_nat (Z.of_nat 0 + Z.of_nat k - Z.of_nat (k - v) - 2)) with (v - 2)
    by lia.
  intros [= <- <-]. exists v, k.
  split_and!; [lia|lia|lia| | |].
  - destruct (insert_nul_prefix (take k s) junk' (v - 2) ltac:(lia)) as [junk2 ->].
    unfold strdup, bytes. rewrite list_ascii_of_string_of_list_ascii.
    rewrite string_at_prefix by (by apply forallb_take || lia).
    rewrite drop_0, take_take. f_equal. lia.
  - unfold strdup, bytes. rewrite list_ascii_of_string_of_list_ascii.
    by rewrite string_at_prefix by (done || lia).
  - apply forallb_of_lookup. intros j c Hj.
    rewrite lookup_drop in Hj.
    pose proof (lookup_lt_Some _ _ _ Hj) as Hlt.
    assert (deref b (k + j) = c) as <-.
    { unfold deref, b. rewrite lookup_app_l by done. by rewrite Hj. }
    apply Hskip. unfold k. lia.
Qed.

End HeaderCuts.

(** X21: the header loop does not cut the buffer at the colon.  The
    value is what [skip_whitespace] finds behind the first whitespace
    after the colon, without its trailing whitespace, and the name is
    everything up to two bytes before the value, whatever these two bytes
    are: the text of the buffer is the name, two bytes, the value and
    whitespace.  Only for the form [Name: Value] are the two bytes the
    colon and the blank. *)
Theorem split_header_drops_two_bytes_before_value (line : list ascii)
    (name value : string) :
  split_header (line ++ [NUL]) = Split name value →
  ∃ x y trail,
    cstr line = bytes name ++ [x; y] ++ bytes value ++ trail
    ∧ forallb isspace trail = true.
Proof.
  intros H.
  destruct (split_header_offsets line name value H)
    as (v & k & Hv2 & Hvk & Hk & -> & -> & Htrail).
  set (s := cstr line) in *.
  assert (length (drop (v - 2) (take v s)) = 2) as Hlen
    by (rewrite length_drop, length_take_le; lia).
  destruct (drop (v - 2) (take v s)) as [|x [|y [|z l]]] eqn:E; try done.
  exists x, y, (drop k s). split; [|done].
  rewrite <- (take_drop v s) at 1.
  rewrite <- (drop_take_drop s v k) by done.
  rewrite <- (take_drop (v - 2) (take v s)), E.
  rewrite take_take. rewrite <- !app_assoc.
  by replace ((v - 2) `min` v) with (v - 2) by lia.
Qed.

Lemma split_header_drops_two_bytes_before_value_witness :
  split_header (bytes ("Host:localhost:8888" +:+ CRLF) ++ [NUL])
  = Split "Host:localhost:8888" EmptyString
  ∧ ∃ x y trail,
      cstr (bytes ("Host:localhost:8888" +:+ CRLF))
      = bytes "Host:localhost:8888" ++ [x; y] ++ bytes EmptyString ++ trail
      ∧ forallb isspace trail = true.
Proof.
  assert (split_header (bytes ("Host:localhost:8888" +:+ CRLF) ++ [NUL])
          = Split "Host:localhost:8888" EmptyString) as H by (vm_compute; reflexivity).
  split; [exact H|].
  exact (split_header_drops_two_bytes_before_value _ _ _ H).
Defined.

(* ===================================================================== *)
(** ** request.c and handler.c: the peer address of a script *)
(* ===================================================================== *)

Section Peer.

Variables (WHITESPACE : list ascii) (w : World) (g : Globals).

Lemma parse_request_method_keeps r r0 :
  parse_request_method WHITESPACE r = (0%Z, r0) →
  is_Some (r_method r0) ∧ r_host r0 = r_host r ∧ r_port r0 = r_port r
  ∧ r_cells r0 = r_cells r.
Proof.
  unfold parse_request_method.
  destruct (fgets (r_file r)) as [[buffer f]|]; [|by intros [=]].
  destruct (strtok buffer 0 WHITESPACE) as [[[method|] b1] save]; [|by intros [=]].
  destruct (strtok b1 save WHITESPACE) as [[[uri|] b2] save2]; [|by intros [=]].
  destruct (strchr b2 uri "?") as [temp|]; intros [= <-]; simpl; eauto.
Qed.

Lemma parse_request_keeps r r1 :
  parse_request WHITESPACE r = Some (0%Z, r1) →
  Forall (λ h, is_Some (h_value h)) (r_cells r) →
  is_Some (r_method r1) ∧ r_host r1 = r_host r ∧ r_port r1 = r_port r
  ∧ Forall (λ h, is_Some (h_value h)) (header_list r1).
Proof.
  unfold parse_request.
  destruct (parse_request_method WHITESPACE r) as [m r0] eqn:Hm.
  destruct (Z.eqb_spec m 0) as [->|?]; simpl; [|by intros [=]].
  apply parse_request_method_keeps in Hm as (Hme & Hh & Hp & Hc).
  unfold parse_request_headers.
  destruct (headers_loop _ _ _ _) as [[[[ret rest] cells] headers]|] eqn:Hl; [|done].
  destruct (ret =? 0)%Z; simpl; [|by intros [=]]. intros [= <-] Hall.
  rewrite <- Hc in Hall.
  pose proof (headers_loop_values _ _ _ _ _ _ _ _ Hall Hl) as Hcells.
  split_and!; [done..|].
  by apply chain_values.
Qed.

Lemma cgi_environment_peer r env :
  is_Some (r_method r) → is_Some (r_uri r) → is_Some (r_path r) →
  Forall (λ h, is_Some (h_value h)) (header_list r) →
  ∃ env', cgi_environment g r env = Some env'
    ∧ env' !! "REMOTE_ADDR" = Some (r_host r)
    ∧ env' !! "REMOTE_PORT" = Some (r_port r).
Proof.
  intros [m Hm] [u Hu] [p Hp] Hall. unfold cgi_environment. rewrite Hm, Hu, Hp.
  assert (∀ var, var ∈ cgi_base_variables →
                 var ∉ map cgi_variable exported_names) as Hbase
    by apply base_variable_not_exported.
  destruct (r_query r) as [q|]; simpl.
  all: match goal with
       | |- context [export_headers _ ?e] =>
           destruct (export_headers_spec (header_list r) e Hall)
             as (env' & He & _ & Ho)
       end.
  all: exists env'; split; [exact He|].
  all: rewrite !Ho
         by (apply Hbase; unfold cgi_base_variables; rewrite !elem_of_cons; tauto).
  all: split_and!; by simplify_map_eq.
Qed.

End Peer.

(** X22: a script never learns the address of its client.
    accept_request gives [getnameinfo] the host and port members with
    lengths of 0, so nothing is stored in them, and nothing on the way to
    handle_cgi_request writes them: for every request that
    accept_request returned and that goes to a script, handle_request
    returns with REMOTE_ADDR and REMOTE_PORT set to the empty string. *)
Theorem accepted_request_script_sees_no_peer (WHITESPACE : list ascii) (w : World)
    (g : Globals) (sfd_open : bool) (c : Connection) (r : Request)
    (env : gmap string string) :
  (accept_request sfd_open c).1 = Some r →
  requests_script WHITESPACE w r →
  ∃ st r' env',
    handle_request WHITESPACE w g r env = Some (st, r', env')
    ∧ env' !! "REMOTE_ADDR" = Some EmptyString
    ∧ env' !! "REMOTE_PORT" = Some EmptyString.
Proof.
  intros Hacc (r1 & uri & path & Hp & Hu & Hpath & Hreg & Hx).
  assert (r_host r = EmptyString ∧ r_port r = EmptyString ∧ r_cells r = [])
    as (Hhost & Hport & Hcells).
  { unfold accept_request in Hacc.
    destruct (accept sfd_open c <? 0)%Z; [done|].
    destruct (negb (getnameinfo_ret c =? 0)%Z); [done|].
    destruct (fdopen_ret c); [|done]. simpl in Hacc. by injection Hacc as <-. }
  destruct (parse_request_keeps WHITESPACE r r1 Hp) as (Hm & Hh & Hpo & Hall).
  { rewrite Hcells. constructor. }
  set (r2 := set_path (Some path) r1).
  destruct (cgi_environment_peer g r2 env) as (env' & He & Haddr & Hprt);
    [done|by (change (r_uri r2) with (r_uri r1); rewrite Hu)|done|done|].
  unfold handle_request. rewrite Hp. simpl. rewrite Hu. simpl. rewrite Hpath.
  simpl. unfold dispatch. simpl. rewrite Hreg. simpl. rewrite Hx.
  unfold handle_cgi_request. fold r2. rewrite He. simpl.
  change (r_host r2) with (r_host r1) in Haddr.
  change (r_port r2) with (r_port r1) in Hprt.
  rewrite Hh, Hhost in Haddr. rewrite Hpo, Hport in Hprt.
  destruct (popen_r w path env') as [lines|]; simpl.
  - destruct (fflush_failed _); simpl;
      match goal with
      | |- context [Some (?res, env')] => destruct res as [st r']
      end; by exists st, r', env'.
  - match goal with
    | |- context [Some (?res, env')] => destruct res as [st r']
    end; by exists st, r', env'.
Qed.

Lemma accepted_request_script_sees_no_peer_witness :
  let file := mkFILE (map bytes ["GET /hello.cgi?x=1 HTTP/1.0" +:+ LF;
                                 "Host: example.org" +:+ LF; LF])
                EmptyString false in
  let r := mkRequest 0 file None None None None EmptyString EmptyString None [] in
  ∃ st r' env',
    handle_request blank_tab_newline sample_world initial_globals r ∅
    = Some (st, r', env')
    ∧ env' !! "REMOTE_ADDR" = Some EmptyString
    ∧ env' !! "REMOTE_PORT" = Some EmptyString.
Proof.
  intros file r.
  apply (accepted_request_script_sees_no_peer blank_tab_newline sample_world
           initial_globals true (mkConnection 4 0 (Some file)) r ∅).
  - reflexivity.
  - eexists _, "/hello.cgi", "/srv/www/hello.cgi".
    split_and!; reflexivity.
Defined.
